(** * Verification of [copado-function/app/common/Util.js]

  A shallow embedding of the helper class [Util] of the Copado
  function for SFMC DevTools, and the properties of its command
  executor, its configuration normalizer, its business-unit
  resolver, its file writer and its installer.

  The file has these parts:
  - [JS] and [Serial]: the fragment of the JavaScript runtime the
    class runs on (values, property access, iteration, loose
    equality, [JSON.parse], [JSON.stringify]);
  - [Host]: the world outside the class (files, external processes,
    the logger) and the monad that threads it;
  - [Util], [Writer] and [Tools]: the methods of the class, one
    definition per method;
  - [Shape], [Sample] and [More]: the shapes of inputs and traces
    the theorems speak of;
  - the theorems, method by method. *)

From Stdlib Require Import ZArith NArith List String Ascii Bool Lia.
From Stdlib Require Import DecimalString.
From Stdlib Require DecimalFacts DecimalN.
Import ListNotations.

Local Open Scope list_scope.
Local Open Scope string_scope.

(* ================================================================= *)
(** ** Strings *)

Module Str.

(** The double-quote character and the one-character string made of it. *)
Definition dquote_char : ascii := ascii_of_nat 34.
Definition dquote : string := String dquote_char EmptyString.

(** [quoted s] is [s] between double quotes. *)
Definition quoted (s : string) : string := dquote ++ s ++ dquote.

(** [json_text s] is [s] with every apostrophe turned into a double
    quote: JSON texts are written with apostrophes in this file. *)
Fixpoint json_text (s : string) : string :=
  match s with
  | EmptyString => EmptyString
  | String c r =>
      String (if Ascii.eqb c (ascii_of_nat 39) then dquote_char else c)
             (json_text r)
  end.

(** [strip_prefix p s] is [Some r] when [s = p ++ r]. *)
Fixpoint strip_prefix (p s : string) : option string :=
  match p with
  | EmptyString => Some s
  | String a p' =>
      match s with
      | EmptyString => None
      | String b s' => if Ascii.eqb a b then strip_prefix p' s' else None
      end
  end.

Definition startsWith (s p : string) : bool :=
  match strip_prefix p s with Some _ => true | None => false end.

(** [String.prototype.includes]: [p] occurs somewhere in [s]. *)
Fixpoint includes (s p : string) : bool :=
  startsWith s p ||
  match s with
  | EmptyString => false
  | String _ r => includes r p
  end.

Fixpoint rev_onto (s acc : string) : string :=
  match s with
  | EmptyString => acc
  | String c r => rev_onto r (String c acc)
  end.

Definition rev (s : string) : string := rev_onto s EmptyString.

(** [String.prototype.endsWith]. *)
Definition endsWith (s p : string) : bool := startsWith (rev s) (rev p).

(** [Array.prototype.join] on strings. *)
Fixpoint join (sep : string) (l : list string) : string :=
  match l with
  | [] => EmptyString
  | [x] => x
  | x :: r => x ++ sep ++ join sep r
  end.

Fixpoint repeat_char (c : ascii) (n : nat) : string :=
  match n with O => EmptyString | S k => String c (repeat_char c k) end.

(** The first [n] characters and the rest. *)
Fixpoint split_at (n : nat) (s : string) : string * string :=
  match n, s with
  | S k, String c r => let (a, b) := split_at k r in (String c a, b)
  | _, _ => (EmptyString, s)
  end.

End Str.

(* ================================================================= *)
(** ** The JavaScript fragment *)

Module JS.

(* --------------------------------------------------------------- *)
(** *** Numbers

    The class never computes with numbers: they occur as exit codes,
    as tenant ids stored in a JSON file and compared with [==], and
    as text when a value is turned into a string.  A number is kept
    as a decimal, [mant * 10^expo], as it was written; the number it
    stands for is the binary64 nearest to that decimal (see below).
    [NaN] is not a number of this type: it only arises from
    [ToNumber], which returns an option. *)

Record number : Type := Num { mant : Z; expo : Z }.

Fixpoint strip_zeros (fuel : nat) (m e : Z) : number :=
  match fuel with
  | O => Num m e
  | S f =>
      if (m =? 0)%Z then Num 0 0
      else if (m mod 10 =? 0)%Z then strip_zeros f (m / 10) (e + 1)
      else Num m e
  end.

(** The number [m * 10^e]. *)
Definition mk_number (m e : Z) : number :=
  strip_zeros (S (Z.to_nat (Z.log2 (Z.abs m)))) m e.

Definition of_Z (z : Z) : number := mk_number z 0.

(** The same number with its trailing zeros moved to the exponent. *)
Definition normalize (x : number) : number := mk_number (mant x) (expo x).

(* --------------------------------------------------------------- *)
(** *** Binary64

    A number of the runtime is a binary64, and [VNum n] stands for
    the binary64 nearest to the decimal [n], ties going to the even
    significand: this is how the runtime reads the literal of a JSON
    text or of a string.  What the runtime does with a number (compare
    it, test it, print it) it does with that binary64, so each of
    these operations first rounds. *)

(** The binary64 [m * 2^e], or an infinity.  A finite one is kept in
    one form: zero as [Finite 0 0], a normal number with
    [2^52 <= |m| < 2^53], a subnormal one with [e = -1074]. *)
Inductive double : Type :=
| Finite (m e : Z)
| Infinite (neg : bool).

(** The ratio [n / d] divided by [2^e]. *)
Definition over_pow2 (n d e : Z) : Z * Z :=
  if (0 <=? e)%Z then (n, d * 2 ^ e)%Z else (n * 2 ^ (- e), d)%Z.

(** The ratio [n / d] divided by [10^p]. *)
Definition over_pow10 (n d p : Z) : Z * Z :=
  if (0 <=? p)%Z then (n, d * 10 ^ p)%Z else (n * 10 ^ (- p), d)%Z.

(** The integer nearest to [n / d], the even one of two. *)
Definition round_half_even (n d : Z) : Z :=
  let q := (n / d)%Z in
  let r := (n mod d)%Z in
  match (2 * r ?= d)%Z with
  | Lt => q
  | Gt => (q + 1)%Z
  | Eq => if Z.even q then q else (q + 1)%Z
  end.

(** The [t] with [2^t <= n / d < 2^(t+1)], for positive [n] and [d]. *)
Definition log2_ratio (n d : Z) : Z :=
  let t := (Z.log2 n - Z.log2 d)%Z in
  let (a, b) := over_pow2 n d t in
  if (b <=? a)%Z then t else (t - 1)%Z.

(** The binary64 nearest to the positive ratio [n / d]. *)
Definition round64_ratio (n d : Z) : double :=
  let t := log2_ratio n d in
  let e := Z.max (t - 52) (-1074) in
  let (a, b) := over_pow2 n d e in
  let q := round_half_even a b in
  let (q, e) := if (q =? 2 ^ 53)%Z then (2 ^ 52, e + 1)%Z else (q, e) in
  if (971 <? e)%Z then Infinite false
  else if (q =? 0)%Z then Finite 0 0
  else Finite q e.

(** The binary64 nearest to the decimal [x].  A decimal beyond
    [10^400] is infinite and one so small that it is below [10^-400]
    is zero, without its power of ten being computed. *)
Definition round64 (x : number) : double :=
  let m := mant x in
  let e := expo x in
  if (m =? 0)%Z then Finite 0 0
  else if (400 <? e)%Z then Infinite (m <? 0)%Z
  else if (e <? - (Z.log2 (Z.abs m) + 401))%Z then Finite 0 0
  else
    let (n, d) := over_pow10 (Z.abs m) 1 (- e) in
    match round64_ratio n d with
    | Finite q b => Finite (if (m <? 0)%Z then - q else q)%Z b
    | Infinite _ => Infinite (m <? 0)%Z
    end.

Definition double_eqb (a b : double) : bool :=
  match a, b with
  | Finite m e, Finite m' e' => (m =? m')%Z && (e =? e')%Z
  | Infinite s, Infinite s' => Bool.eqb s s'
  | _, _ => false
  end.

(** [Number::equal]: the two numbers are the same binary64, the two
    zeros being equal. *)
Definition number_eqb (a b : number) : bool :=
  double_eqb (round64 a) (round64 b).

Definition is_infinite (x : number) : bool :=
  match round64 x with Infinite _ => true | Finite _ _ => false end.

Definition is_zero (x : number) : bool :=
  match round64 x with Finite 0 _ => true | _ => false end.

(** The [n] with [10^(n-1) <= nx / dx < 10^n]: estimated from the
    binary logarithm, which is at most one off, and corrected. *)
Definition magnitude (nx dx : Z) : Z :=
  let t := log2_ratio nx dx in
  let est := (t * 30103 / 100000)%Z in
  let reaches (k : Z) := let (a, b) := over_pow10 nx dx k in (b <=? a)%Z in
  if reaches (est + 1)%Z then (est + 2)%Z
  else if reaches est then (est + 1)%Z
  else est.

(** The decimal of [k] digits that is read as the binary64
    [q * 2^e = nx / dx] and is nearest to it, if there is one. *)
Definition shortest_at (q e nx dx n k : Z) : option (Z * Z) :=
  let p := (n - k)%Z in
  let (a, b) := over_pow10 nx dx p in
  let lo := (a / b)%Z in
  let r := (a mod b)%Z in
  let hi := (lo + 1)%Z in
  let reads (s : Z) :=
    match round64 (Num s p) with
    | Finite q' e' => (q' =? q)%Z && (e' =? e)%Z
    | Infinite _ => false
    end in
  let upper :=
    match (2 * r ?= b)%Z with
    | Gt => true
    | Lt => false
    | Eq => Z.odd lo
    end in
  match reads lo, reads hi with
  | true, true => Some (if upper then hi else lo, p)
  | true, false => Some (lo, p)
  | false, true => Some (hi, p)
  | false, false => None
  end.

(** The least number of digits, from [k] on, for which there is such
    a decimal; seventeen digits always do. *)
Fixpoint shortest_from (fuel : nat) (q e nx dx n k : Z) : Z * Z :=
  match fuel with
  | O => (0, 0)%Z
  | S f =>
      match shortest_at q e nx dx n k with
      | Some sp => sp
      | None => shortest_from f q e nx dx n (k + 1)%Z
      end
  end.

(** The mantissa and the exponent of the decimal [Number::toString]
    prints for the binary64 of [x]: the shortest one that is read back
    as that binary64.  An infinity is kept as [10^400]. *)
Definition canon_parts (x : number) : Z * Z :=
  match round64 x with
  | Infinite neg => ((if neg then -1 else 1)%Z, 400%Z)
  | Finite m e =>
      if (m =? 0)%Z then (0, 0)%Z
      else
        let q := Z.abs m in
        let (nx, dx) := over_pow2 q 1 (- e) in
        let n := magnitude nx dx in
        let (s, p) := shortest_from 17 q e nx dx n 1 in
        ((if (m <? 0)%Z then - s else s)%Z, p)
  end.

Definition canon (x : number) : number :=
  let (s, p) := canon_parts x in mk_number s p.

Definition digits_of (z : Z) : string :=
  NilZero.string_of_uint (N.to_uint (Z.to_N z)).

(** The text of a finite decimal, as [Number::toString] lays out the
    digits of a number: an integer, a fixed point or an exponent. *)
Definition decimal_text (x : number) : string :=
  let m := mant x in
  if (m =? 0)%Z then "0" else
  let sign := if (m <? 0)%Z then "-" else "" in
  let s := digits_of (Z.abs m) in
  let k := Z.of_nat (String.length s) in
  let n := (k + expo x)%Z in
  let body :=
    if ((k <=? n) && (n <=? 21))%Z then
      s ++ Str.repeat_char "0" (Z.to_nat (n - k))
    else if ((0 <? n) && (n <=? 21))%Z then
      let (a, b) := Str.split_at (Z.to_nat n) s in a ++ "." ++ b
    else if ((-6 <? n) && (n <=? 0))%Z then
      "0." ++ Str.repeat_char "0" (Z.to_nat (- n)) ++ s
    else
      let e := (n - 1)%Z in
      let es := (if (e <? 0)%Z then "-" else "+") ++ digits_of (Z.abs e) in
      let (a, b) := Str.split_at 1 s in
      match b with
      | EmptyString => a ++ "e" ++ es
      | _ => a ++ "." ++ b ++ "e" ++ es
      end
  in sign ++ body.

(** [Number::toString] (radix 10) of ECMA-262. *)
Definition number_to_string (x : number) : string :=
  match round64 x with
  | Infinite neg => if neg then "-Infinity" else "Infinity"
  | Finite _ _ => decimal_text (canon x)
  end.

(* --------------------------------------------------------------- *)
(** *** Values

    The values the class handles: what [JSON.parse] returns, what the
    class builds from it, and [undefined].  A string is the sequence
    of the bytes of its UTF-8 text.  An array is the list of its
    elements; an object is the list of its own enumerable properties
    in the order [Object.keys] reports them, each name once. *)

#[local] Set Warnings "-register-all".
Inductive value : Type :=
| VUndef
| VNull
| VBool (b : bool)
| VNum (n : number)
| VStr (s : string)
| VArr (items : list value)
| VObj (props : list (string * value)).

(** Exceptions: the class throws [Error]s, the runtime [TypeError]s
    and [SyntaxError]s.  The message of a runtime exception is the
    engine's own wording and carries no meaning here. *)
Inductive error_class : Type := Error | TypeError | SyntaxError.

Record exn : Type := Exn { exn_class : error_class; exn_message : string }.

Definition class_name (c : error_class) : string :=
  match c with
  | Error => "Error"
  | TypeError => "TypeError"
  | SyntaxError => "SyntaxError"
  end.

(** [Error.prototype.toString]. *)
Definition exn_to_string (e : exn) : string :=
  match exn_message e with
  | EmptyString => class_name (exn_class e)
  | m => class_name (exn_class e) ++ ": " ++ m
  end.

(** A completion: the value a computation returns, or what it throws. *)
Inductive completion (A : Type) : Type :=
| Normal (a : A)
| Throw (e : exn).
Arguments Normal {A} a.
Arguments Throw {A} e.

Definition cbind {A B} (c : completion A) (k : A -> completion B)
  : completion B :=
  match c with
  | Normal a => k a
  | Throw e => Throw e
  end.

(** [ToBoolean]. *)
Definition truthy (v : value) : bool :=
  match v with
  | VUndef | VNull => false
  | VBool b => b
  | VNum n => negb (is_zero n)
  | VStr EmptyString => false
  | VStr _ => true
  | VArr _ | VObj _ => true
  end.

(** [typeof v === 'string'] *)
Definition is_string (v : value) : bool :=
  match v with VStr _ => true | _ => false end.

(** [ToString], where it completes (see [printable] below): an array
    is joined with commas, [null] and [undefined] elements as empty
    strings, and an object prints as [[object Object]]. *)
Fixpoint to_string (v : value) : string :=
  match v with
  | VUndef => "undefined"
  | VNull => "null"
  | VBool true => "true"
  | VBool false => "false"
  | VNum n => number_to_string n
  | VStr s => s
  | VArr items =>
      (fix join_items (l : list value) : string :=
         match l with
         | [] => ""
         | x :: r =>
             let sx := match x with
                       | VUndef | VNull => ""
                       | _ => to_string x
                       end in
             match r with
             | [] => sx
             | _ => sx ++ "," ++ join_items r
             end
         end) items
  | VObj _ => "[object Object]"
  end.

(* --------------------------------------------------------------- *)
(** *** Objects: own properties *)

Definition props : Type := list (string * value).

Fixpoint obj_lookup (o : props) (k : string) : option value :=
  match o with
  | [] => None
  | (k', v) :: r => if String.eqb k' k then Some v else obj_lookup r k
  end.

Definition obj_has (o : props) (k : string) : bool :=
  match obj_lookup o k with Some _ => true | None => false end.

(** [Object.keys]. *)
Definition obj_keys (o : props) : list string := map fst o.

(** Replace the value of the property [k] where it stands. *)
Fixpoint obj_replace (o : props) (k : string) (v : value) : props :=
  match o with
  | [] => []
  | (k', v') :: r =>
      if String.eqb k' k then (k', v) :: r
      else (k', v') :: obj_replace r k v
  end.

Definition is_digit (c : ascii) : bool :=
  let n := N_of_ascii c in ((48 <=? n) && (n <=? 57))%N.

Fixpoint all_digits (s : string) : bool :=
  match s with
  | EmptyString => true
  | String c r => is_digit c && all_digits r
  end.

Fixpoint digits_value (s : string) (acc : Z) : Z :=
  match s with
  | EmptyString => acc
  | String c r => digits_value r (10 * acc + (Z.of_N (N_of_ascii c) - 48))
  end.

(** An array index: the canonical decimal of an integer below [2^32 - 1]. *)
Definition array_index (k : string) : option Z :=
  match k with
  | EmptyString => None
  | String c r =>
      if all_digits k
         && (negb (Ascii.eqb c "0"%char)
             || match r with EmptyString => true | _ => false end)
         && (String.length k <=? 10)%nat
      then let i := digits_value k 0 in
           if (i <? 4294967295)%Z then Some i else None
      else None
  end.

(** Put the new index property [(k, v)] after the index properties
    below [i] and before everything else. *)
Fixpoint insert_index (i : Z) (k : string) (v : value) (o : props) : props :=
  match o with
  | [] => [(k, v)]
  | (k', v') :: r =>
      match array_index k' with
      | Some j =>
          if (j <? i)%Z then (k', v') :: insert_index i k v r
          else (k, v) :: o
      | None => (k, v) :: o
      end
  end.

(** [CreateDataProperty]: an existing property keeps its place, a new
    index property goes among the indices in ascending order, any
    other new property goes last. *)
Definition obj_define (o : props) (k : string) (v : value) : props :=
  if obj_has o k then obj_replace o k v
  else match array_index k with
       | Some i => insert_index i k v o
       | None => (o ++ [(k, v)])%list
       end.

(** [o[k] = v] on an ordinary object whose prototype is
    [Object.prototype].  The name [__proto__] is an accessor of the
    prototype: unless the object has an own property of that name,
    assigning to it creates no own property.  When [v] is neither an
    object nor [null] the assignment does nothing at all and the
    object is as before.  When [v] is an object or [null] the engine
    makes it the prototype of the object; a value holds own properties
    and no prototype, so from there on it stands for the own
    properties of the object under every name but [__proto__] (a later
    assignment to that name can find no accessor and create an own
    property), and no longer for what the object inherits.  What is
    stated below of an object built by such assignments is either
    stated of inputs that have no object or [null] under the name
    [__proto__], or stated of these own properties. *)
Definition obj_assign (o : props) (k : string) (v : value) : props :=
  if obj_has o k then obj_replace o k v
  else if String.eqb k "__proto__" then o
  else obj_define o k v.

Definition byte (z : Z) : ascii := ascii_of_N (Z.to_N z).

(** The UTF-8 bytes of a code point. *)
Definition utf8 (cp : Z) : string :=
  (if cp <? 128 then
     String (byte cp) EmptyString
   else if cp <? 2048 then
     String (byte (192 + cp / 64))
       (String (byte (128 + cp mod 64)) EmptyString)
   else if cp <? 65536 then
     String (byte (224 + cp / 4096))
       (String (byte (128 + (cp / 64) mod 64))
          (String (byte (128 + cp mod 64)) EmptyString))
   else
     String (byte (240 + cp / 262144))
       (String (byte (128 + (cp / 4096) mod 64))
          (String (byte (128 + (cp / 64) mod 64))
             (String (byte (128 + cp mod 64)) EmptyString))))%Z.

(** The UTF-16 code units of a string, each as the string it makes
    on its own: a character of one to three bytes is one unit, and a
    character of four bytes, beyond the basic plane, is its two
    surrogates. *)
Fixpoint code_units_from (fuel : nat) (s : string) : list string :=
  match fuel with
  | O => []
  | S f =>
      match s with
      | EmptyString => []
      | String a r =>
          let x := Z.of_N (N_of_ascii a) in
          if (x <? 192)%Z then
            String a EmptyString :: code_units_from f r
          else if (x <? 224)%Z then
            let (u, t) := Str.split_at 2 s in u :: code_units_from f t
          else if (x <? 240)%Z then
            let (u, t) := Str.split_at 3 s in u :: code_units_from f t
          else
            let (u, t) := Str.split_at 4 s in
            let at_ (i : nat) :=
              match String.get i u with
              | Some c => (Z.of_N (N_of_ascii c) mod 64)%Z
              | None => 0%Z
              end in
            let cp := ((x mod 8) * 262144 + at_ 1%nat * 4096
                       + at_ 2%nat * 64 + at_ 3%nat)%Z in
            let v := (cp - 65536)%Z in
            utf8 (55296 + v / 1024)%Z :: utf8 (56320 + v mod 1024)%Z
              :: code_units_from f t
      end
  end.

Definition code_units (s : string) : list string :=
  code_units_from (String.length s) s.

(** [v[k]] for a [v] that is neither [null] nor [undefined].  Only
    own properties, the [length] and the elements of arrays and
    strings are modelled: the members inherited from the prototypes
    are functions, none of which has a property the class asks for,
    and read as [undefined]. *)
Definition get_own (v : value) (k : string) : value :=
  match v with
  | VObj o => match obj_lookup o k with Some x => x | None => VUndef end
  | VArr items =>
      if String.eqb k "length" then
        VNum (of_Z (Z.of_nat (List.length items)))
      else match array_index k with
           | Some i => nth (Z.to_nat i) items VUndef
           | None => VUndef
           end
  | VStr s =>
      if String.eqb k "length" then
        VNum (of_Z (Z.of_nat (List.length (code_units s))))
      else match array_index k with
           | Some i =>
               match nth_error (code_units s) (Z.to_nat i) with
               | Some u => VStr u
               | None => VUndef
               end
           | None => VUndef
           end
  | _ => VUndef
  end.

(** [v[k]]: reading a property of [null] or [undefined] throws. *)
Definition get_prop (v : value) (k : string) : completion value :=
  match v with
  | VUndef | VNull =>
      Throw (Exn TypeError
               ("Cannot read properties of " ++ to_string v
                ++ " (reading '" ++ k ++ "')"))
  | _ => Normal (get_own v k)
  end.

(** The decimal names [0 .. n-1]. *)
Definition index_names (n : nat) : list string :=
  map (fun i => digits_of (Z.of_nat i)) (seq 0 n).

(** [Object.keys(v)] for a [v] that is neither [null] nor
    [undefined]: the own enumerable property names; those of a string
    are the indices of its code units. *)
Definition object_keys (v : value) : list string :=
  match v with
  | VObj o => obj_keys o
  | VArr items => index_names (List.length items)
  | VStr s => index_names (List.length (code_units s))
  | _ => []
  end.

(** The characters of a string, a continuation byte of UTF-8 staying
    with the character it belongs to. *)
Fixpoint chars_of (s : string) (cur : string) : list value :=
  match s with
  | EmptyString =>
      match cur with EmptyString => [] | _ => [VStr (Str.rev cur)] end
  | String c r =>
      let n := N_of_ascii c in
      if ((128 <=? n) && (n <? 192))%N then chars_of r (String c cur)
      else match cur with
           | EmptyString => chars_of r (String c EmptyString)
           | _ => VStr (Str.rev cur) :: chars_of r (String c EmptyString)
           end
  end.

(** [for (const item of v)], where [operand] is the text of the
    expression [v] is the value of: the items the loop visits.  Arrays
    and strings are iterable; no other value of this fragment is.  An
    object is not as long as its prototype is [Object.prototype]; one
    that was given an array as its prototype would be, and is kept out
    of the statements on iteration (see [obj_assign]). *)
Definition iterate (operand : string) (v : value) : completion (list value) :=
  match v with
  | VArr items => Normal items
  | VStr s => Normal (chars_of s EmptyString)
  | _ => Throw (Exn TypeError (operand ++ " is not iterable"))
  end.

(* --------------------------------------------------------------- *)
(** *** [ToNumber] and loose equality *)

(** The number of bytes of the white space character [s] starts
    with, or 0: the code points of [WhiteSpace] and [LineTerminator]
    (U+0009 to U+000D, U+0020, U+00A0, U+1680, U+2000 to U+200A,
    U+2028, U+2029, U+202F, U+205F, U+3000, U+FEFF) in UTF-8. *)
Definition space_size (s : string) : nat :=
  match s with
  | EmptyString => 0
  | String a r =>
      let x := N_of_ascii a in
      if ((9 <=? x) && (x <=? 13) || (x =? 32))%N then 1
      else
        match r with
        | EmptyString => 0
        | String b r' =>
            let y := N_of_ascii b in
            if ((x =? 194) && (y =? 160))%N then 2
            else
              match r' with
              | EmptyString => 0
              | String c _ =>
                  let z := N_of_ascii c in
                  if ((x =? 225) && (y =? 154) && (z =? 128)
                      || (x =? 226) && (y =? 128)
                         && ((128 <=? z) && (z <=? 138)
                             || (z =? 168) || (z =? 169) || (z =? 175))
                      || (x =? 226) && (y =? 129) && (z =? 159)
                      || (x =? 227) && (y =? 128) && (z =? 128)
                      || (x =? 239) && (y =? 187) && (z =? 191))%N
                  then 3 else 0
              end
        end
  end.

(** The same for the white space character [s] ends with, on the
    bytes of [s] in reverse. *)
Definition space_size_rev (r : string) : nat :=
  match r with
  | String c (String b (String a _)) =>
      match space_size (String a (String b (String c EmptyString))) with
      | 3 => 3
      | _ =>
          match space_size (String b (String c EmptyString)) with
          | 2 => 2
          | _ => match space_size (String c EmptyString) with
                 | 1 => 1
                 | _ => 0
                 end
          end
      end
  | String c (String b EmptyString) =>
      match space_size (String b (String c EmptyString)) with
      | 2 => 2
      | _ => match space_size (String c EmptyString) with
             | 1 => 1
             | _ => 0
             end
      end
  | String c EmptyString => space_size (String c EmptyString)
  | EmptyString => 0
  end.

Fixpoint drop (n : nat) (s : string) : string :=
  match n, s with
  | S k, String _ r => drop k r
  | _, _ => s
  end.

Fixpoint strip_spaces (size : string -> nat) (fuel : nat) (s : string)
  : string :=
  match fuel with
  | O => s
  | S f =>
      match size s with
      | O => s
      | n => strip_spaces size f (drop n s)
      end
  end.

(** [String.prototype.trim], as [StringToNumber] applies it. *)
Definition trim (s : string) : string :=
  let t := strip_spaces space_size (String.length s) s in
  Str.rev (strip_spaces space_size_rev (String.length t) (Str.rev t)).

(** The longest prefix of decimal digits, and what follows it. *)
Fixpoint take_digits (s : string) : string * string :=
  match s with
  | String c r =>
      if is_digit c then let (d, t) := take_digits r in (String c d, t)
      else (EmptyString, s)
  | EmptyString => (EmptyString, EmptyString)
  end.

(** The exponent part that ends a literal: nothing, or [e] or [E], an
    optional sign and at least one digit. *)
Definition exponent_part (s : string) : option Z :=
  match s with
  | EmptyString => Some 0%Z
  | String c r =>
      if Ascii.eqb c "e" || Ascii.eqb c "E" then
        let (neg, ds) :=
          match r with
          | String "-" t => (true, t)
          | String "+" t => (false, t)
          | _ => (false, r)
          end in
        match ds with
        | EmptyString => None
        | _ => if all_digits ds
               then Some (if neg then - digits_value ds 0
                          else digits_value ds 0)%Z
               else None
        end
      else None
  end.

(** The decimal an infinity is kept as (see [canon_parts]). *)
Definition infinity : number := Num 1 400.

(** [StrUnsignedDecimalLiteral]: [Infinity], or digits, an optional
    fraction and an optional exponent, with a digit on at least one
    side of the point. *)
Definition unsigned_decimal (s : string) : option number :=
  if String.eqb s "Infinity" then Some infinity else
  let (ip, r1) := take_digits s in
  let (fp, r2) :=
    match r1 with
    | String "." r => take_digits r
    | _ => (EmptyString, r1)
    end in
  match ip ++ fp with
  | EmptyString => None
  | ds =>
      match exponent_part r2 with
      | Some e =>
          Some (mk_number (digits_value ds 0)
                          (e - Z.of_nat (String.length fp)))
      | None => None
      end
  end.

Definition radix_digit (c : ascii) : option Z :=
  let n := Z.of_N (N_of_ascii c) in
  if ((48 <=? n) && (n <=? 57))%Z then Some (n - 48)%Z
  else if ((97 <=? n) && (n <=? 102))%Z then Some (n - 87)%Z
  else if ((65 <=? n) && (n <=? 70))%Z then Some (n - 55)%Z
  else None.

Fixpoint radix_value (radix : Z) (s : string) (acc : Z) : option Z :=
  match s with
  | EmptyString => Some acc
  | String c r =>
      match radix_digit c with
      | Some d => if (d <? radix)%Z
                  then radix_value radix r (radix * acc + d)%Z
                  else None
      | None => None
      end
  end.

(** [NonDecimalIntegerLiteral]: [0x], [0o] or [0b] and digits. *)
Definition non_decimal (s : string) : option number :=
  match s with
  | String "0" (String p (String c r)) =>
      let radix :=
        if Ascii.eqb p "x" || Ascii.eqb p "X" then Some 16%Z
        else if Ascii.eqb p "o" || Ascii.eqb p "O" then Some 8%Z
        else if Ascii.eqb p "b" || Ascii.eqb p "B" then Some 2%Z
        else None in
      match radix with
      | Some b =>
          match radix_value b (String c r) 0 with
          | Some z => Some (of_Z z)
          | None => None
          end
      | None => None
      end
  | _ => None
  end.

(** [StringToNumber].  [None] stands for [NaN], which equals no
    number. *)
Definition string_to_number (s : string) : option number :=
  let t := trim s in
  match t with
  | EmptyString => Some (of_Z 0)
  | String c r =>
      match non_decimal t with
      | Some n => Some n
      | None =>
          if Ascii.eqb c "-" then
            match unsigned_decimal r with
            | Some n => Some (Num (- mant n) (expo n))
            | None => None
            end
          else if Ascii.eqb c "+" then unsigned_decimal r
          else unsigned_decimal t
      end
  end.

(** Whether the conversion of [v] to a primitive, and so to a string,
    completes.  [OrdinaryToPrimitive] calls the [toString] and the
    [valueOf] it finds on an object, in the order the hint gives, and
    takes the first primitive one of them returns.  An own property of
    a value of this fragment is data, never a function: an object with
    an own [toString] has none to call, and the [valueOf] it has, if
    it is the inherited one, returns the object itself, so the
    conversion throws in either order.  An array has the [toString] of
    arrays, which converts its elements, [null] and [undefined] apart,
    and an object without own [toString] has that of
    [Object.prototype]. *)
Fixpoint printable (v : value) : bool :=
  match v with
  | VObj o => negb (obj_has o "toString")
  | VArr items =>
      (fix all (l : list value) : bool :=
         match l with
         | [] => true
         | x :: r => printable x && all r
         end) items
  | _ => true
  end.

(** [ToPrimitive]: an array or an object becomes its string, or the
    conversion throws. *)
Definition to_primitive (v : value) : completion value :=
  match v with
  | VArr _ | VObj _ =>
      if printable v then Normal (VStr (to_string v))
      else Throw (Exn TypeError "Cannot convert object to primitive value")
  | _ => Normal v
  end.

(** [ToNumber] of a primitive. *)
Definition to_number (v : value) : option number :=
  match v with
  | VUndef => None
  | VNull => Some (of_Z 0)
  | VBool b => Some (of_Z (if b then 1 else 0))
  | VNum n => Some n
  | VStr s => string_to_number s
  | VArr _ | VObj _ => None
  end.

(** [a == b] on primitives that are neither [null] nor [undefined]:
    two strings are compared as strings, anything else as numbers. *)
Definition prim_loose_eq (a b : value) : bool :=
  match a, b with
  | VStr s, VStr t => String.eqb s t
  | _, _ =>
      match to_number a, to_number b with
      | Some m, Some n => number_eqb m n
      | _, _ => false
      end
  end.

Definition is_nullish (v : value) : bool :=
  match v with VUndef | VNull => true | _ => false end.

Definition is_object (v : value) : bool :=
  match v with VArr _ | VObj _ => true | _ => false end.

(** [x == y] ([IsLooselyEqual]).  [null] and [undefined] equal each
    other and nothing else.  Two objects are equal when they are the
    same object; the two sides compared in this class never are (one
    is freshly parsed from a file), so two objects are unequal.  An
    object and a primitive are compared after [ToPrimitive] of the
    object, which may throw. *)
Definition loose_eq (x y : value) : completion bool :=
  if is_nullish x || is_nullish y then Normal (is_nullish x && is_nullish y)
  else if is_object x && is_object y then Normal false
  else
    cbind (to_primitive x) (fun px =>
    cbind (to_primitive y) (fun py =>
    Normal (prim_loose_eq px py))).

(** [names.filter(test)]: the names that pass the test, in order; a
    test that throws ends the filter. *)
Fixpoint filter_names (test : string -> completion bool)
         (names : list string) : completion (list string) :=
  match names with
  | [] => Normal []
  | n :: r =>
      cbind (test n) (fun keep =>
      cbind (filter_names test r) (fun rest =>
      Normal (if keep then n :: rest else rest)))
  end.

(* --------------------------------------------------------------- *)
(** *** [JSON.parse] *)

Definition is_json_space (c : ascii) : bool :=
  let n := N_of_ascii c in
  ((n =? 32) || (n =? 9) || (n =? 10) || (n =? 13))%N.

Fixpoint skip_ws (s : string) : string :=
  match s with
  | String c r => if is_json_space c then skip_ws r else s
  | EmptyString => s
  end.

(** What a string literal holds: a byte of the text, or the UTF-16
    code unit of a [\u] escape. *)
Inductive jchar : Type :=
| Raw (c : ascii)
| Unit16 (u : Z).

Definition is_high (u : Z) : bool := ((55296 <=? u) && (u <? 56320))%Z.
Definition is_low (u : Z) : bool := ((56320 <=? u) && (u <? 57344))%Z.

Definition flush (pending : option Z) : string :=
  match pending with Some h => utf8 h | None => EmptyString end.

(** The string of a literal: escaped surrogates that follow each
    other make one code point. *)
Fixpoint encode (pending : option Z) (l : list jchar) : string :=
  match l with
  | [] => flush pending
  | Raw c :: r => flush pending ++ String c (encode None r)
  | Unit16 u :: r =>
      match pending with
      | Some h =>
          if is_low u then
            utf8 (65536 + (h - 55296) * 1024 + (u - 56320))%Z
            ++ encode None r
          else if is_high u then utf8 h ++ encode (Some u) r
          else utf8 h ++ utf8 u ++ encode None r
      | None =>
          if is_high u then encode (Some u) r
          else utf8 u ++ encode None r
      end
  end.

Definition hex4 (a b c d : ascii) : option Z :=
  match radix_digit a, radix_digit b, radix_digit c, radix_digit d with
  | Some x, Some y, Some z, Some w =>
      Some (((x * 16 + y) * 16 + z) * 16 + w)%Z
  | _, _, _, _ => None
  end.

Definition push (j : jchar) (p : option (list jchar * string))
  : option (list jchar * string) :=
  match p with
  | Some (l, t) => Some (j :: l, t)
  | None => None
  end.

(** The characters of a string literal after its opening quote, up
    to the closing quote, and the text after it. *)
Fixpoint string_body (s : string) : option (list jchar * string) :=
  match s with
  | EmptyString => None
  | String c r =>
      let n := N_of_ascii c in
      if (n =? 34)%N then Some ([], r)
      else if (n <? 32)%N then None
      else if (n =? 92)%N then
        match r with
        | EmptyString => None
        | String e r' =>
            let m := N_of_ascii e in
            if ((m =? 34) || (m =? 92) || (m =? 47))%N
            then push (Raw e) (string_body r')
            else if (m =? 98)%N then push (Raw (byte 8)) (string_body r')
            else if (m =? 102)%N then push (Raw (byte 12)) (string_body r')
            else if (m =? 110)%N then push (Raw (byte 10)) (string_body r')
            else if (m =? 114)%N then push (Raw (byte 13)) (string_body r')
            else if (m =? 116)%N then push (Raw (byte 9)) (string_body r')
            else if (m =? 117)%N then
              match r' with
              | String h1 (String h2 (String h3 (String h4 r''))) =>
                  match hex4 h1 h2 h3 h4 with
                  | Some u => push (Unit16 u) (string_body r'')
                  | None => None
                  end
              | _ => None
              end
            else None
        end
      else push (Raw c) (string_body r)
  end.

Definition string_literal (s : string) : option (string * string) :=
  match string_body s with
  | Some (l, t) => Some (encode None l, t)
  | None => None
  end.

(** A number: [-? int frac? exp?], no leading zero, a digit after the
    point and in the exponent. *)
Definition number_literal (s : string) : option (number * string) :=
  let (neg, s1) :=
    match s with String "-" r => (true, r) | _ => (false, s) end in
  let (ip, r1) := take_digits s1 in
  let int_ok :=
    match ip with
    | EmptyString => false
    | String "0" (String _ _) => false
    | _ => true
    end in
  let frac :=
    match r1 with
    | String "." r =>
        let (d, t) := take_digits r in
        match d with EmptyString => None | _ => Some (d, t) end
    | _ => Some (EmptyString, r1)
    end in
  match int_ok, frac with
  | true, Some (fp, r2) =>
      let ex :=
        match r2 with
        | String c r =>
            if Ascii.eqb c "e" || Ascii.eqb c "E" then
              let (eneg, r3) :=
                match r with
                | String "-" t => (true, t)
                | String "+" t => (false, t)
                | _ => (false, r)
                end in
              let (d, t) := take_digits r3 in
              match d with
              | EmptyString => None
              | _ => Some ((if eneg then - digits_value d 0
                            else digits_value d 0)%Z, t)
              end
            else Some (0%Z, r2)
        | EmptyString => Some (0%Z, r2)
        end in
      match ex with
      | Some (e, rest) =>
          let m := digits_value (ip ++ fp) 0 in
          Some (mk_number (if neg then - m else m)%Z
                          (e - Z.of_nat (String.length fp)), rest)
      | None => None
      end
  | _, _ => None
  end.

(** The value at the head of [s] and the text after it.  The fuel
    bounds the nesting and the number of elements, both of which are
    below the length of the text. *)
Fixpoint parse_value (fuel : nat) (s : string) : option (value * string) :=
  match fuel with
  | O => None
  | S f =>
      match skip_ws s with
      | EmptyString => None
      | String c r as t =>
          let n := N_of_ascii c in
          if (n =? 34)%N then
            match string_literal r with
            | Some (x, u) => Some (VStr x, u)
            | None => None
            end
          else if (n =? 91)%N then
            match skip_ws r with
            | String "]" u => Some (VArr [], u)
            | _ =>
                match parse_elements f r with
                | Some (l, u) => Some (VArr l, u)
                | None => None
                end
            end
          else if (n =? 123)%N then
            match skip_ws r with
            | String "}" u => Some (VObj [], u)
            | _ =>
                match parse_members f r [] with
                | Some (o, u) => Some (VObj o, u)
                | None => None
                end
            end
          else
            match Str.strip_prefix "null" t with
            | Some u => Some (VNull, u)
            | None =>
            match Str.strip_prefix "true" t with
            | Some u => Some (VBool true, u)
            | None =>
            match Str.strip_prefix "false" t with
            | Some u => Some (VBool false, u)
            | None =>
            match number_literal t with
            | Some (x, u) => Some (VNum x, u)
            | None => None
            end end end end
      end
  end

with parse_elements (fuel : nat) (s : string)
  : option (list value * string) :=
  match fuel with
  | O => None
  | S f =>
      match parse_value f s with
      | Some (v, r) =>
          match skip_ws r with
          | String "," u =>
              match parse_elements f u with
              | Some (l, w) => Some (v :: l, w)
              | None => None
              end
          | String "]" u => Some ([v], u)
          | _ => None
          end
      | None => None
      end
  end

with parse_members (fuel : nat) (s : string) (acc : props)
  : option (props * string) :=
  match fuel with
  | O => None
  | S f =>
      match skip_ws s with
      | String q r =>
          if (N_of_ascii q =? 34)%N then
            match string_literal r with
            | Some (k, r1) =>
                match skip_ws r1 with
                | String ":" r2 =>
                    match parse_value f r2 with
                    | Some (v, r3) =>
                        let acc' := obj_define acc k v in
                        match skip_ws r3 with
                        | String "," u => parse_members f u acc'
                        | String "}" u => Some (acc', u)
                        | _ => None
                        end
                    | None => None
                    end
                | _ => None
                end
            | None => None
            end
          else None
      | EmptyString => None
      end
  end.

(** [JSON.parse(text)]. *)
Definition JSON_parse (text : string) : completion value :=
  match parse_value (2 * String.length text + 2) text with
  | Some (v, rest) =>
      match skip_ws rest with
      | EmptyString => Normal v
      | _ => Throw (Exn SyntaxError "Unexpected non-whitespace character after JSON")
      end
  | None => Throw (Exn SyntaxError "Unexpected token in JSON")
  end.

End JS.

(* ================================================================= *)
(** ** The host: files, processes and the logger *)

Module Host.
Import JS.

(** The levels of the logger. *)
Inductive level : Type := debug | progress | info | warn | error.

(** What the class does to the outside, in the order it does it. *)
Inductive event : Type :=
| Logged (l : level) (msg : string)
| Executed (command : string)   (* a call of [execSync] *)
| CheckedExistence (path : string)
| ReadFile (path : string).

(** What a path of the file system holds. *)
Inductive fs_entry : Type :=
| NoEntry
| File (content : string)
| Directory.

(** What becomes of a command line handed to the shell.  A process
    that ran to its end reports an exit code; one that was ended by a
    signal, or that could not be started or was timed out, reports no
    status; and the runtime may refuse the call before any process
    exists. *)
Inductive outcome : Type :=
| Exited (code : Z)
| Signaled (signal : string)
| SpawnFailed (msg : string)
| Refused (name msg : string).

(** The error [execSync] throws: an [Error] with the fields of the
    result of the run; [status] is the exit code of the process, or
    [null] when there is none, and is missing on an error of the
    runtime's own. *)
Record exec_error : Type := ExecError {
  ex_name : string;
  ex_status : value;
  ex_message : string
}.

(** [String(ex)], the text [new Error(ex)] takes as its message. *)
Definition exec_error_to_string (ex : exec_error) : string :=
  match ex_message ex with
  | EmptyString => ex_name ex
  | m => ex_name ex ++ ": " ++ m
  end.

(** The world: the files, the fate of every command line, and the
    trace of what was done so far.  Running a command is not taken to
    change the files. *)
Record World : Type := mkWorld {
  files : string -> fs_entry;
  run : string -> outcome;
  trace : list event
}.

Definition emit (e : event) (w : World) : World :=
  mkWorld (files w) (run w) (trace w ++ [e])%list.

(** Computations of the class: they read and extend the world and
    end with a value or an exception. *)
Definition M (A : Type) : Type := World -> completion A * World.

Definition ret {A} (a : A) : M A := fun w => (Normal a, w).

Definition throw {A} (e : exn) : M A := fun w => (Throw e, w).

Definition bind {A B} (m : M A) (k : A -> M B) : M B :=
  fun w =>
    match m w with
    | (Normal a, w') => k a w'
    | (Throw e, w') => (Throw e, w')
    end.

Definition lift {A} (c : completion A) : M A := fun w => (c, w).

Declare Scope host_scope.
Delimit Scope host_scope with host.
Notation "x <- m ;; k" := (bind m (fun x => k))
  (at level 61, m at next level, right associativity) : host_scope.
Notation "m ;;; k" := (bind m (fun _ => k))
  (at level 61, right associativity) : host_scope.

(** Modelled from the spec: the logger ([./Log], not among the
    sources) accepts leveled messages and returns nothing the class
    consumes; a call is recorded in the trace. *)
Definition Log (l : level) (msg : string) : M unit :=
  fun w => (Normal tt, emit (Logged l msg) w).

(** [fs.existsSync]. *)
Definition existsSync (path : string) : M bool :=
  fun w =>
    (Normal (match files w path with NoEntry => false | _ => true end),
     emit (CheckedExistence path) w).

(** [fs.readFileSync(path, 'utf8')]. *)
Definition readFileSync (path : string) : M string :=
  fun w =>
    let w' := emit (ReadFile path) w in
    match files w path with
    | File content => (Normal content, w')
    | NoEntry =>
        (Throw (Exn Error
                  ("ENOENT: no such file or directory, open '"
                   ++ path ++ "'")), w')
    | Directory =>
        (Throw (Exn Error "EISDIR: illegal operation on a directory, read"),
         w')
    end.

(** [execSync(command, { stdio: [0, 1, 2] })].  It returns when the
    process exits with code 0 ([None] here) and throws otherwise: for
    a process that ended, an [Error] with the message
    [Command failed: <command>] (the streams are inherited, so nothing
    of the output is added) and the status of the process; for a
    process that could not be run, the error of the system, without
    status. *)
Definition execSync (command : string) : World -> option exec_error * World :=
  fun w =>
    let w' := emit (Executed command) w in
    match run w command with
    | Exited code =>
        if (code =? 0)%Z then (None, w')
        else (Some (ExecError "Error" (VNum (of_Z code))
                      ("Command failed: " ++ command)), w')
    | Signaled _ =>
        (Some (ExecError "Error" VNull ("Command failed: " ++ command)), w')
    | SpawnFailed msg => (Some (ExecError "Error" VNull msg), w')
    | Refused name msg => (Some (ExecError name VUndef msg), w')
    end.

End Host.

(* ================================================================= *)
(** ** The class [Util] *)

Module Util.
Import JS Host.
Local Open Scope host_scope.

(** The central configuration the constructor stores in [CONFIG]. *)
Record Config : Type := mkConfig {
  configFilePath : string;
  installMcdevLocally : bool;
  mcdevVersion : string
}.

(** A command: one line, or lines to be joined with [&&]. *)
Inductive command : Type :=
| Line (s : string)
| Lines (l : list string).

(** [if (command && Array.isArray(command)) command = command.join(' && ')] *)
Definition command_line (c : command) : string :=
  match c with
  | Line s => s
  | Lines l => Str.join " && " l
  end.

(** [if (null != msg) f(msg)] *)
Definition when_given (msg : option string) (f : string -> M unit) : M unit :=
  match msg with
  | Some m => f m
  | None => ret tt
  end.

(** [execCommand(preMsg, command, postMsg)] *)
Definition execCommand (preMsg : option string) (cmd : command)
           (postMsg : option string) : M unit :=
  when_given preMsg (Log progress) ;;;
  let line := command_line cmd in
  Log debug ("⚡ " ++ line) ;;;
  fun w =>
    match execSync line w with
    | (Some ex, w') =>
        (* do not use Log.error here *)
        (Log info (to_string (ex_status ex) ++ ": " ++ ex_message ex) ;;;
         throw (Exn Error (exec_error_to_string ex))) w'
    | (None, w') =>
        when_given postMsg (fun m => Log debug ("✔️  " ++ m)) w'
    end.

(** [execCommandReturnStatus(preMsg, command, postMsg)] *)
Definition execCommandReturnStatus (preMsg : option string) (cmd : command)
           (postMsg : option string) : M value :=
  when_given preMsg (Log progress) ;;;
  let line := command_line cmd in
  Log debug ("⚡ " ++ line) ;;;
  let exitCode := VNull in
  fun w =>
    match execSync line w with
    | (Some ex, w') =>
        (Log warn ("❌  " ++ to_string (ex_status ex) ++ ": " ++ ex_message ex) ;;;
         (* The command failed, take the exit code from the error *)
         let exitCode := ex_status ex in
         ret exitCode) w'
    | (None, w') =>
        (* change exit code from null to 0 *)
        let exitCode := VNum (of_Z 0) in
        (when_given postMsg (fun m => Log progress ("✔️  " ++ m)) ;;;
         ret exitCode) w'
    end.

(** [push(destinationBranch)] *)
Definition push (destinationBranch : string) : M unit :=
  execCommand
    (Some ("Pushing updates to " ++ destinationBranch ++ " branch"))
    (Lines ["git push origin " ++ Str.quoted destinationBranch])
    (Some "Completed pushing branch").

(** The loop of [_convertEnvVars]:
    [for (const item of envVarArr) response[item.name] = item.value] *)
Fixpoint collect_vars (items : list value) (response : props)
  : completion props :=
  match items with
  | [] => Normal response
  | item :: rest =>
      cbind (get_prop item "name") (fun name =>
      cbind (get_prop item "value") (fun val =>
      collect_vars rest (obj_assign response (to_string name) val)))
  end.

(** [_convertEnvVars(envVarArr)] *)
Definition _convertEnvVars (envVarArr : value) : completion value :=
  if negb (truthy envVarArr) then Normal envVarArr
  else
    cbind (match envVarArr with
           | VStr text => JSON_parse text
           | _ => Normal envVarArr
           end) (fun envVarArr =>
    cbind (iterate "envVarArr" envVarArr) (fun items =>
    cbind (collect_vars items []) (fun response =>
    Normal (VObj response)))).

(** The loop of [_convertEnvChildVars]:
    [response[item.id] = this._convertEnvVars(item.environmentVariables)] *)
Fixpoint collect_child_vars (items : list value) (response : props)
  : completion props :=
  match items with
  | [] => Normal response
  | item :: rest =>
      cbind (get_prop item "id") (fun id =>
      cbind (get_prop item "environmentVariables") (fun vars =>
      cbind (_convertEnvVars vars) (fun converted =>
      collect_child_vars rest (obj_assign response (to_string id) converted))))
  end.

(** [_convertEnvChildVars(envChildVarArr)] *)
Definition _convertEnvChildVars (envChildVarArr : value) : completion value :=
  if negb (truthy envChildVarArr) then Normal envChildVarArr
  else
    cbind (match envChildVarArr with
           | VStr text => JSON_parse text
           | _ => Normal envChildVarArr
           end) (fun envChildVarArr =>
    cbind (iterate "envChildVarArr" envChildVarArr) (fun items =>
    cbind (collect_child_vars items []) (fun response =>
    Normal (VObj response)))).

(** The body of the callback of [convertEnvVariables] for one key. *)
Definition convert_key (key : string) (v : value) : completion value :=
  if Str.endsWith key "Children" then _convertEnvChildVars v
  else _convertEnvVars v.

(** The keys still to visit, on the object as it stands: the object
    is updated in place, and an exception leaves it as it was when
    it was thrown. *)
Fixpoint convert_keys (keys : list string) (envVariables : props)
  : completion unit * props :=
  match keys with
  | [] => (Normal tt, envVariables)
  | key :: rest =>
      match convert_key key (get_own (VObj envVariables) key) with
      | Normal v => convert_keys rest (obj_assign envVariables key v)
      | Throw e => (Throw e, envVariables)
      end
  end.

(** [convertEnvVariables(envVariables)]: the argument is the object
    before the call, the second component the same object after it. *)
Definition convertEnvVariables (envVariables : props)
  : completion unit * props :=
  convert_keys (obj_keys envVariables) envVariables.

(** [convertSourceProperties(properties)] *)
Fixpoint collect_source_properties (items : list value) (response : props)
  : completion props :=
  match items with
  | [] => Normal response
  | item :: rest =>
      cbind (get_prop item "copado__API_Name__c") (fun name =>
      cbind (get_prop item "copado__Value__c") (fun val =>
      collect_source_properties rest
        (obj_assign response (to_string name) val)))
  end.

Definition convertSourceProperties (properties : value) : completion value :=
  cbind (iterate "properties" properties) (fun items =>
  cbind (collect_source_properties items []) (fun response =>
  Normal (VObj response))).

(** The names [Object.keys(businessUnits).filter(...)] keeps: those
    whose stored tenant id is loosely equal to [mid]. *)
Definition matching_names (businessUnits mid : value)
  : completion (list string) :=
  filter_names (fun buName => loose_eq (get_own businessUnits buName) mid)
               (object_keys businessUnits).

Definition credentialName_not_set : exn :=
  Exn Error ("System Property " ++ Str.quoted "credentialName" ++ " not set").

Definition mid_not_set : exn :=
  Exn Error ("System Property " ++ Str.quoted "mid" ++ " not set").

Definition config_file_not_found (CONFIG : Config) : exn :=
  Exn Error ("Could not find config file " ++ configFilePath CONFIG).

Definition mid_not_found (mid credName : value) : exn :=
  Exn Error ("MID " ++ to_string mid ++ " not found for " ++ to_string credName).

(** [getBuName(credName, mid)] *)
Definition getBuName (CONFIG : Config) (credName mid : value) : M value :=
  let credBuName := VUndef in
  if negb (truthy credName) then throw credentialName_not_set
  else if negb (truthy mid) then throw mid_not_set
  else
    found <- existsSync (configFilePath CONFIG) ;;
    if negb found then throw (config_file_not_found CONFIG)
    else
      text <- readFileSync (configFilePath CONFIG) ;;
      config <- lift (JSON_parse text) ;;
      credentials <- lift (get_prop config "credentials") ;;
      credential <- lift (get_prop credentials (to_string credName)) ;;
      if truthy credential
         && truthy (get_own credential "businessUnits")
      then
        myBuNameArr <-
          lift (matching_names (get_own credential "businessUnits") mid) ;;
        match myBuNameArr with
        | [buName] =>
            Log debug ("BU Name is: " ++ to_string credName ++ "/" ++ buName) ;;;
            ret (VStr (to_string credName ++ "/" ++ buName))
        | _ => throw (mid_not_found mid credName)
        end
      else ret credBuName.

End Util.

(* ================================================================= *)
(** ** Well-formed values and inputs *)

Module Shape.
Import JS Host Util.


(** The entry [{name: n, value: v}] of the flat list of environment
    variables ([TYPES.EnvVar]), as an object literal or [JSON.parse]
    builds it. *)
Definition env_var (nv : string * string) : value :=
  VObj [("name", VStr (fst nv)); ("value", VStr (snd nv))].

(** The sequence of the entries [l]. *)
Definition env_vars (l : list (string * string)) : value :=
  VArr (map env_var l).

(** The value of the last entry of [l] named [n]. *)
Fixpoint last_value (l : list (string * string)) (n : string) : option string :=
  match l with
  | [] => None
  | (n', v) :: r =>
      match last_value r n with
      | Some x => Some x
      | None => if String.eqb n' n then Some v else None
      end
  end.

(** The property [kv'] is the property [kv] of the argument of
    [convertEnvVariables] after the call: the same name, and the value
    the grouped transform gives when the name ends with [Children],
    the flat-list transform otherwise. *)
Definition converts_to (kv kv' : string * value) : Prop :=
  fst kv' = fst kv
  /\ (if Str.endsWith (fst kv) "Children"
      then _convertEnvChildVars (snd kv)
      else _convertEnvVars (snd kv)) = Normal (snd kv').

(** The entry [{id: i, environmentVariables: [...]}] of the grouped
    list ([TYPES.EnvChildVar]). *)
Definition env_child (g : string * list (string * string)) : value :=
  VObj [("id", VStr (fst g)); ("environmentVariables", env_vars (snd g))].

(** The variables of the last entry of [l] with the id [i]. *)
Fixpoint last_group (l : list (string * list (string * string))) (i : string)
  : option (list (string * string)) :=
  match l with
  | [] => None
  | (i', vars) :: r =>
      match last_group r i with
      | Some x => Some x
      | None => if String.eqb i' i then Some vars else None
      end
  end.




(** The compound command of the steps [first], [rest]: the steps in
    their order with the AND-sequencing operator [&&] between one and
    the next, so that a failing step ends the chain. *)
Fixpoint chained (first : string) (rest : list string) : string :=
  match rest with
  | [] => first
  | next :: more => first ++ " && " ++ chained next more
  end.

(** The command line the shell is to be given for a command: a single
    string as it is, a sequence as the compound command of its steps
    (the empty line for no step). *)
Definition shell_line (c : command) : string :=
  match c with
  | Line s => s
  | Lines [] => ""
  | Lines (first :: rest) => chained first rest
  end.

(** The events a message given before a command leaves. *)
Definition announced (preMsg : option string) : list event :=
  match preMsg with
  | Some m => [Logged progress m]
  | None => []
  end.

(** The events a message given after a command leaves, at the level
    [l]. *)
Definition completed (l : level) (postMsg : option string) : list event :=
  match postMsg with
  | Some m => [Logged l ("✔️  " ++ m)]
  | None => []
  end.

(** The world [w] after the events [es]. *)
Definition after (w : World) (es : list event) : World :=
  mkWorld (files w) (run w) (trace w ++ es)%list.

(** The events that are messages of the level [l]. *)
Definition logged_at (l : level) (e : event) : bool :=
  match e, l with
  | Logged debug _, debug
  | Logged progress _, progress
  | Logged info _, info
  | Logged warn _, warn
  | Logged error _, error => true
  | _, _ => false
  end.

End Shape.

(* ================================================================= *)
(** ** Sample inputs *)

Module Sample.
Import JS Host Util.

Definition CONFIG : Config := mkConfig ".mcdev.json" false "".

(** The configuration file
    [{credentials:{C1:{businessUnits:{bu1:'100',bu2:'200'}}}}]. *)
Definition config_text : string :=
  Str.json_text
    "{'credentials':{'C1':{'businessUnits':{'bu1':'100','bu2':'200'}}}}".

(** A configuration file without the field [credentials]. *)
Definition bare_text : string := Str.json_text "{'version':'1'}".

(** A world that holds [text] as the configuration file, where
    [./deploy.sh] exits with code 3, [./hang.sh] is killed and every
    other command succeeds. *)
Definition world (text : string) : World :=
  mkWorld
    (fun path => if String.eqb path ".mcdev.json" then File text else NoEntry)
    (fun line =>
       if String.eqb line "./deploy.sh" then Exited 3
       else if String.eqb line "./hang.sh" then Signaled "SIGKILL"
       else Exited 0)
    [].

(** A world without files in which [./hang.sh] is killed, the empty
    command line is refused by the runtime before any process exists,
    as [execSync('')] is, and every other command succeeds. *)
Definition node_world : World :=
  mkWorld
    (fun _ => NoEntry)
    (fun line =>
       if String.eqb line "" then
         Refused "TypeError"
                 "The argument 'file' cannot be empty. Received ''"
       else if String.eqb line "./hang.sh" then Signaled "SIGKILL"
       else Exited 0)
    [].

(** A world without a configuration file. *)
Definition empty_world : World :=
  mkWorld (fun _ => NoEntry) (fun _ => Exited 0) [].

(** The JSON text
    [[{name:'X',value:'1'},{name:'X',value:'2'}]]. *)
Definition twice_X : string :=
  Str.json_text "[{'name':'X','value':'1'},{'name':'X','value':'2'}]".

(** The grouped list
    [[{id:'A', environmentVariables:[{name:'X',value:'1'}]}]]. *)
Definition group_A : value :=
  VArr [VObj [("id", VStr "A");
              ("environmentVariables", VArr [Shape.env_var ("X", "1")])]].

End Sample.

(* ================================================================= *)
(** ** [JSON.stringify] *)

Module Serial.
Import JS.

(** The line feed. *)
Definition nl : string := String (ascii_of_nat 10) EmptyString.

(** The backslash. *)
Definition bs : string := String (ascii_of_nat 92) EmptyString.

(** A lower-case hexadecimal digit. *)
Definition hex_char (z : Z) : ascii :=
  if (z <? 10)%Z then byte (48 + z) else byte (87 + z).

Definition hex4_of (u : Z) : string :=
  String (hex_char (u / 4096))
    (String (hex_char ((u / 256) mod 16))
       (String (hex_char ((u / 16) mod 16))
          (String (hex_char (u mod 16)) EmptyString))).

(** One character of a quoted string: the quote and the backslash are
    escaped, the control characters too, by their short form when
    they have one. *)
Definition escape (c : ascii) : string :=
  let n := Z.of_N (N_of_ascii c) in
  if (n =? 34)%Z then bs ++ Str.dquote
  else if (n =? 92)%Z then bs ++ bs
  else if (n =? 8)%Z then bs ++ "b"
  else if (n =? 9)%Z then bs ++ "t"
  else if (n =? 10)%Z then bs ++ "n"
  else if (n =? 12)%Z then bs ++ "f"
  else if (n =? 13)%Z then bs ++ "r"
  else if (n <? 32)%Z then bs ++ "u" ++ hex4_of n
  else String c EmptyString.

(** The three bytes of a surrogate code unit that stands alone. *)
Definition lone_surrogate (c1 c2 c3 : ascii) : option Z :=
  let n1 := Z.of_N (N_of_ascii c1) in
  let n2 := Z.of_N (N_of_ascii c2) in
  let n3 := Z.of_N (N_of_ascii c3) in
  if ((n1 =? 237) && (160 <=? n2) && (n2 <=? 191)
      && (128 <=? n3) && (n3 <=? 191))%Z
  then Some (53248 + (n2 - 128) * 64 + (n3 - 128))%Z
  else None.

(** The inside of a quoted string; a lone surrogate is written as its
    [\u] escape. *)
Fixpoint quote_body (s : string) : string :=
  match s with
  | EmptyString => EmptyString
  | String c1 t =>
      match t with
      | String c2 (String c3 r) =>
          match lone_surrogate c1 c2 c3 with
          | Some u => bs ++ "u" ++ hex4_of u ++ quote_body r
          | None => escape c1 ++ quote_body t
          end
      | _ => escape c1 ++ quote_body t
      end
  end.

(** [QuoteJSONString]. *)
Definition quote (s : string) : string :=
  Str.dquote ++ quote_body s ++ Str.dquote.

(** The items between the brackets: on one line without a gap, one
    per line at the inner indentation with one. *)
Definition wrap (opening closing gap indent : string) (parts : list string)
  : string :=
  match gap with
  | EmptyString => opening ++ Str.join "," parts ++ closing
  | _ =>
      let inner := indent ++ gap in
      opening ++ nl ++ inner ++ Str.join ("," ++ nl ++ inner) parts
      ++ nl ++ indent ++ closing
  end.

(** [SerializeJSONProperty]: the text of a value at the indentation
    [indent], or nothing for [undefined].  An [undefined] element of
    an array is written [null], and so is an infinite number; a
    property whose value is [undefined] is left out. *)
Fixpoint serialize (gap indent : string) (v : value) : option string :=
  match v with
  | VUndef => None
  | VNull => Some "null"
  | VBool true => Some "true"
  | VBool false => Some "false"
  | VNum n =>
      if is_infinite n then Some "null" else Some (number_to_string n)
  | VStr s => Some (quote s)
  | VArr items =>
      match items with
      | [] => Some "[]"
      | _ =>
          Some (wrap "[" "]" gap indent
                  ((fix elements (l : list value) : list string :=
                      match l with
                      | [] => []
                      | x :: r =>
                          match serialize gap (indent ++ gap) x with
                          | Some t => t
                          | None => "null"
                          end :: elements r
                      end) items))
      end
  | VObj o =>
      match
        (fix members (l : list (string * value)) : list string :=
           match l with
           | [] => []
           | (k, x) :: r =>
               match serialize gap (indent ++ gap) x with
               | Some t =>
                   (quote k ++ ":"
                    ++ match gap with EmptyString => "" | _ => " " end
                    ++ t) :: members r
               | None => members r
               end
           end) o
      with
      | [] => Some "{}"
      | parts => Some (wrap "{" "}" gap indent parts)
      end
  end.

(** [JSON.stringify(v, null, gap)]. *)
Definition JSON_stringify (v : value) (gap : string) : value :=
  match serialize gap EmptyString v with
  | Some t => VStr t
  | None => VUndef
  end.

End Serial.

(* ================================================================= *)
(** ** The class [Util]: writing files *)

Module Writer.
Import JS Host Util Serial.
Local Open Scope host_scope.

(** The world after [content] was written to [path]. *)
Definition written (path content : string) (w : World) : World :=
  mkWorld
    (fun p => if String.eqb p path then File content else files w p)
    (run w) (trace w).

(** [fs.writeFileSync(path, data, 'utf8')].  The data must be a
    string, which is checked before the file is touched; the file is
    created or replaced.  A write shows in the files of the world, the
    trace keeps to what is read, run and logged. *)
Definition writeFileSync (path : string) (data : value) : M unit :=
  fun w =>
    match data with
    | VStr content =>
        match files w path with
        | Directory =>
            (Throw (Exn Error
                      ("EISDIR: illegal operation on a directory, open '"
                       ++ path ++ "'")), w)
        | _ => (Normal tt, written path content w)
        end
    | _ =>
        (Throw (Exn TypeError
                  "The data argument must be of type string or an instance of Buffer, TypedArray, or DataView."),
         w)
    end.

(** [saveJsonFile(localPath, jsObj, beautify)] *)
Definition saveJsonFile (localPath : string) (jsObj beautify : value) : M unit :=
  let jsonString :=
    if truthy beautify then JSON_stringify jsObj "    "
    else JSON_stringify jsObj "" in
  writeFileSync localPath jsonString.

(** [provideMCDevCredentials(credentials)] *)
Definition provideMCDevCredentials (credentials : value) : M unit :=
  Log info "Provide authentication" ;;;
  saveJsonFile ".mcdev-auth.json" credentials (VBool true).

End Writer.

(* ================================================================= *)
(** ** The class [Util]: installing the tools *)

Module Tools.
Import JS Host Util.
Local Open Scope host_scope.






End Tools.

(* ================================================================= *)
(** ** Shapes of further inputs and of traces *)

Module More.
Import JS Host Util Tools.

(** The command lines handed to the shell, in order. *)
Fixpoint commands (es : list event) : list string :=
  match es with
  | [] => []
  | Executed line :: r => line :: commands r
  | _ :: r => commands r
  end.

(** The messages logged at the level [l], in order. *)
Fixpoint messages (l : level) (es : list event) : list string :=
  match es with
  | [] => []
  | Logged l' msg :: r =>
      if Shape.logged_at l (Logged l' msg) then msg :: messages l r
      else messages l r
  | _ :: r => messages l r
  end.

(** The paths of the file system looked at, in order. *)
Fixpoint visited (es : list event) : list string :=
  match es with
  | [] => []
  | CheckedExistence p :: r => p :: visited r
  | ReadFile p :: r => p :: visited r
  | _ :: r => visited r
  end.

(** The record [{copado__API_Name__c: n, copado__Value__c: v}] of the
    source properties. *)
Definition source_property (nv : string * string) : value :=
  VObj [("copado__API_Name__c", VStr (fst nv));
        ("copado__Value__c", VStr (snd nv))].





(** Every character of a string, escaped. *)
Fixpoint escape_all (s : string) : string :=
  match s with
  | EmptyString => EmptyString
  | String c t => (Serial.escape c ++ escape_all t)%string
  end.

(** A string is clean when it holds no lone surrogate: it is the
    UTF-8 of a text. *)
Fixpoint clean (s : string) : bool :=
  match s with
  | EmptyString => true
  | String c1 t =>
      match t with
      | String c2 (String c3 r) =>
          match Serial.lone_surrogate c1 c2 c3 with
          | Some _ => false
          | None => clean t
          end
      | _ => clean t
      end
  end.

(** What the parser reads the escape of a character as. *)
Definition unit_of (c : ascii) : jchar :=
  let n := Z.of_N (N_of_ascii c) in
  if ((n <? 32) && negb ((n =? 8) || (n =? 9) || (n =? 10) || (n =? 12)
                         || (n =? 13)))%Z
  then Unit16 n else Raw c.

(** The properties of an object stand in the order the runtime keeps
    them in, each name once. *)
Definition own_order (o : props) : Prop :=
  fold_left (fun acc kv => obj_define acc (fst kv) (snd kv)) o [] = o.

(** A number the runtime holds and JSON can write: it is finite, and
    its decimal is the one the runtime prints it as. *)
Definition plain_number (n : number) : Prop :=
  canon n = n /\ is_infinite n = false.

(** A value is plain when [JSON.stringify] writes all of it and
    [JSON.parse] can build it: no [undefined] in it, finite numbers
    as the runtime prints them, clean strings, and objects as the
    runtime holds them. *)
Fixpoint plain (v : value) : Prop :=
  match v with
  | VUndef => False
  | VNull | VBool _ => True
  | VNum n => plain_number n
  | VStr s => clean s = true
  | VArr items =>
      (fix all (l : list value) : Prop :=
         match l with
         | [] => True
         | x :: r => plain x /\ all r
         end) items
  | VObj o =>
      own_order o /\
      (fix all (l : props) : Prop :=
         match l with
         | [] => True
         | (k, x) :: r => clean k = true /\ plain x /\ all r
         end) o
  end.

(** The stages of [number_literal]: the sign, ... *)
Definition sign_of (s : string) : bool * string :=
  match s with String "-" r => (true, r) | _ => (false, s) end.

(** ... the integer part, which has no leading zero, ... *)
Definition int_ok_of (ip : string) : bool :=
  match ip with
  | EmptyString => false
  | String "0" (String _ _) => false
  | _ => true
  end.

(** ... the fraction, ... *)
Definition frac_of (r1 : string) : option (string * string) :=
  match r1 with
  | String "." r =>
      let (d, t) := take_digits r in
      match d with EmptyString => None | _ => Some (d, t) end
  | _ => Some (EmptyString, r1)
  end.

(** ... and the exponent. *)
Definition exp_of (r2 : string) : option (Z * string) :=
  match r2 with
  | String c r =>
      if Ascii.eqb c "e" || Ascii.eqb c "E" then
        let (eneg, r3) :=
          match r with
          | String "-" t => (true, t)
          | String "+" t => (false, t)
          | _ => (false, r)
          end in
        let (d, t) := take_digits r3 in
        match d with
        | EmptyString => None
        | _ => Some ((if eneg then - digits_value d 0
                      else digits_value d 0)%Z, t)
        end
      else Some (0%Z, r2)
  | EmptyString => Some (0%Z, r2)
  end.

(** The text of the fraction and of the exponent. *)
Definition frac_text (fp : string) : string :=
  match fp with EmptyString => EmptyString | _ => ("." ++ fp)%string end.

Definition exp_text (ex : option (bool * string)) : string :=
  match ex with
  | None => EmptyString
  | Some (eneg, ed) => ("e" ++ (if eneg then "-" else "+") ++ ed)%string
  end.

Definition exp_value (ex : option (bool * string)) : Z :=
  match ex with
  | None => 0%Z
  | Some (eneg, ed) =>
      (if eneg then - digits_value ed 0 else digits_value ed 0)%Z
  end.

(** The text goes on with something other than a digit. *)
Definition no_digit (rest : string) : bool :=
  match rest with
  | EmptyString => true
  | String c _ => negb (is_digit c)
  end.

(** A text does not go on with what could belong to a number. *)
Definition delimited (rest : string) : bool :=
  match rest with
  | EmptyString => true
  | String c _ =>
      negb (is_digit c || Ascii.eqb c "." || Ascii.eqb c "e"
            || Ascii.eqb c "E")
  end.

(** The entries a transform visits in [v]: the items of the array
    [v], or of the array the JSON text [v] encodes. *)
Definition entries (v : value) : list value :=
  match match v with
        | VStr text => JSON_parse text
        | _ => Normal v
        end
  with
  | Normal (VArr items) => items
  | _ => []
  end.

(** No entry of [v] goes by the name [__proto__], be it as its [name]
    or as its [id].  The mapping a transform builds from such entries
    keeps the prototype of the object literal it starts from;
    assigning an object under [__proto__] would replace it. *)
Definition no_proto_entry (v : value) : Prop :=
  Forall (fun item =>
            to_string (get_own item "name") <> "__proto__"
            /\ to_string (get_own item "id") <> "__proto__")
         (entries v).


(** The value of a decimal, most significant digit first. *)
Fixpoint uval (d : Decimal.uint) (acc : Z) : Z :=
  match d with
  | Decimal.Nil => acc
  | Decimal.D0 d => uval d (10 * acc + 0)
  | Decimal.D1 d => uval d (10 * acc + 1)
  | Decimal.D2 d => uval d (10 * acc + 2)
  | Decimal.D3 d => uval d (10 * acc + 3)
  | Decimal.D4 d => uval d (10 * acc + 4)
  | Decimal.D5 d => uval d (10 * acc + 5)
  | Decimal.D6 d => uval d (10 * acc + 6)
  | Decimal.D7 d => uval d (10 * acc + 7)
  | Decimal.D8 d => uval d (10 * acc + 8)
  | Decimal.D9 d => uval d (10 * acc + 9)
  end%Z.

(** A text of white space only. *)
Fixpoint all_space (s : string) : bool :=
  match s with
  | EmptyString => true
  | String c r => is_json_space c && all_space r
  end.

(** A text starts as a value does: not with white space, and not
    with a closing bracket. *)
Definition starts_value (t : string) : bool :=
  match t with
  | EmptyString => false
  | String c _ =>
      negb (is_json_space c) && negb (Ascii.eqb c "]")
      && negb (Ascii.eqb c "}")
  end.

(** The text of an element of an array. *)
Definition text_of (gap indent : string) (x : value) : string :=
  match Serial.serialize gap indent x with
  | Some t => t
  | None => "null"
  end.

Definition space_after_colon (gap : string) : string :=
  match gap with EmptyString => EmptyString | _ => " " end.

(** The text of a property. *)
Definition member_text (gap indent : string) (kv : string * value) : string :=
  (Serial.quote (fst kv) ++ ":" ++ space_after_colon gap
   ++ text_of gap indent (snd kv))%string.

(** What stands before the first item and between two items, and what
    stands before the closing bracket. *)
Definition line_in (gap indent : string) : string :=
  match gap with
  | EmptyString => EmptyString
  | _ => (Serial.nl ++ indent ++ gap)%string
  end.

Definition line_out (gap indent : string) : string :=
  match gap with
  | EmptyString => EmptyString
  | _ => (Serial.nl ++ indent)%string
  end.

(** The text of a number from its parts. *)
Definition number_text (neg : bool) (c : ascii) (ip' fp : string)
           (ex : option (bool * string)) : string :=
  ((if neg then "-" else "") ++ String c ip'
   ++ frac_text fp ++ exp_text ex)%string.

(** The properties defined one after the other. *)
Definition define_all (todo acc : props) : props :=
  fold_left (fun acc kv => obj_define acc (fst kv) (snd kv)) todo acc.

(** The text [t] is that of the number [x], written as a sign, an
    integer part without leading zero, a fraction and an exponent. *)
Definition number_parts (t : string) (x : number) : Prop :=
  exists neg c ip' fp ex,
    is_digit c = true /\ all_digits ip' = true
    /\ (Ascii.eqb c "0" = false \/ ip' = EmptyString)
    /\ all_digits fp = true
    /\ match ex with
       | None => True
       | Some (_, ed) => all_digits ed = true /\ ed <> EmptyString
       end
    /\ t = number_text neg c ip' fp ex
    /\ mk_number (if neg then - digits_value (String c ip' ++ fp) 0
                  else digits_value (String c ip' ++ fp) 0)%Z
                 (exp_value ex - Z.of_nat (String.length fp))%Z = x.

(** [JSON.parse] reads the text of [v] back, whatever white space
    stands before it and whatever closes it. *)
Definition reads (gap : string) (v : value) : Prop :=
  forall indent t pre rest fuel,
    plain v -> all_space indent = true -> all_space pre = true ->
    Serial.serialize gap indent v = Some t ->
    delimited rest = true ->
    String.length t <= fuel ->
    parse_value fuel (pre ++ t ++ rest) = Some (v, rest).

(** A text without a line terminator. *)
Fixpoint one_line (s : string) : bool :=
  match s with
  | EmptyString => true
  | String c r =>
      negb (N_of_ascii c =? 10)%N && negb (N_of_ascii c =? 13)%N
      && one_line r
  end.

(** An array or an object that holds something. *)
Definition nested (v : value) : bool :=
  match v with
  | VArr (_ :: _) | VObj (_ :: _) => true
  | _ => false
  end.

(** The gap [saveJsonFile] asks for. *)
Definition gap_of (beautify : value) : string :=
  if truthy beautify then "    " else "".

(** The file of the credentials. *)
Definition auth_file : string := ".mcdev-auth.json".

(** Credentials of one business unit, as the caller hands them in. *)
Definition sample_credentials : value :=
  VObj [("Copado",
         VObj [("client_id", VStr "id");
               ("client_secret", VStr "secret");
               ("auth_url", VStr "https://mc.auth.example/");
               ("account_id", VNum (Num 1 2))])].

End More.

(* ================================================================= *)
(** ** Facts about objects *)

Import JS Host Util Shape Serial Writer Tools More.

Section ObjectFacts.

Implicit Types (o : props) (k : string) (v : value).

Lemma obj_lookup_In_keys o k v :
  obj_lookup o k = Some v -> In k (obj_keys o).
Proof.
  induction o as [|[k' v'] r IH]; simpl; [discriminate|].
  destruct (String.eqb_spec k' k); intros H; [now left | right; auto].
Qed.

Lemma obj_lookup_None o k :
  obj_lookup o k = None <-> ~ In k (obj_keys o).
Proof.
  induction o as [|[k' v'] r IH]; simpl.
  - split; auto.
  - destruct (String.eqb_spec k' k); split; intros H.
    + discriminate.
    + exfalso; apply H; now left.
    + intros [E|I]; [contradiction | now apply IH in H].
    + apply IH; intros I; apply H; now right.
Qed.

Lemma obj_has_true o k : obj_has o k = true <-> In k (obj_keys o).
Proof.
  unfold obj_has; destruct (obj_lookup o k) eqn:E; split; intros H;
    try reflexivity; try discriminate.
  - eapply obj_lookup_In_keys; eauto.
  - apply obj_lookup_None in E; contradiction.
Qed.

Lemma obj_keys_replace o k v : obj_keys (obj_replace o k v) = obj_keys o.
Proof.
  induction o as [|[k' v'] r IH]; simpl; [reflexivity|].
  destruct (String.eqb k' k); simpl; [reflexivity | now rewrite IH].
Qed.

Lemma obj_lookup_replace o k v k' :
  In k (obj_keys o) ->
  obj_lookup (obj_replace o k v) k'
  = if String.eqb k k' then Some v else obj_lookup o k'.
Proof.
  induction o as [|[k0 v0] r IH]; simpl; [contradiction|].
  intros H. destruct (String.eqb_spec k0 k) as [->|N]; simpl.
  - destruct (String.eqb k k'); reflexivity.
  - destruct H as [E|H]; [contradiction|].
    rewrite (IH H).
    destruct (String.eqb_spec k0 k') as [->|N'];
      destruct (String.eqb_spec k k'); congruence.
Qed.

Lemma obj_lookup_insert_index i o k v k' :
  ~ In k (obj_keys o) ->
  obj_lookup (insert_index i k v o) k'
  = if String.eqb k k' then Some v else obj_lookup o k'.
Proof.
  induction o as [|[k0 v0] r IH]; simpl; intros H.
  - reflexivity.
  - assert (N : k0 <> k) by tauto.
    assert (Hr : ~ In k (obj_keys r)) by tauto.
    destruct (array_index k0) as [j|]; [destruct (j <? i)%Z|]; simpl;
      try reflexivity.
    rewrite (IH Hr).
    destruct (String.eqb_spec k0 k'), (String.eqb_spec k k'); congruence.
Qed.

Lemma obj_lookup_app_new o k v k' :
  ~ In k (obj_keys o) ->
  obj_lookup (o ++ [(k, v)])%list k'
  = if String.eqb k k' then Some v else obj_lookup o k'.
Proof.
  induction o as [|[k0 v0] r IH]; simpl; intros H.
  - reflexivity.
  - assert (N : k0 <> k) by tauto.
    rewrite IH by tauto.
    destruct (String.eqb_spec k0 k'), (String.eqb_spec k k'); congruence.
Qed.

(** Reading after [CreateDataProperty]. *)
Lemma obj_lookup_define o k v k' :
  obj_lookup (obj_define o k v) k'
  = if String.eqb k k' then Some v else obj_lookup o k'.
Proof.
  unfold obj_define. destruct (obj_has o k) eqn:E.
  - apply obj_lookup_replace. now apply obj_has_true.
  - assert (~ In k (obj_keys o)).
    { intros I. apply obj_has_true in I. congruence. }
    destruct (array_index k).
    + now apply obj_lookup_insert_index.
    + now apply obj_lookup_app_new.
Qed.

(** Reading after an assignment, for every name but [__proto__]. *)
Lemma obj_lookup_assign o k v k' :
  k <> "__proto__" ->
  obj_lookup (obj_assign o k v) k'
  = if String.eqb k k' then Some v else obj_lookup o k'.
Proof.
  intros N. unfold obj_assign. destruct (obj_has o k) eqn:E.
  - apply obj_lookup_replace. now apply obj_has_true.
  - destruct (String.eqb_spec k "__proto__"); [contradiction|].
    apply obj_lookup_define.
Qed.

(** Assigning to a property the object has replaces its value where
    it stands. *)
Lemma obj_assign_own o k v :
  In k (obj_keys o) -> obj_assign o k v = obj_replace o k v.
Proof.
  intros I. unfold obj_assign. apply obj_has_true in I. now rewrite I.
Qed.





End ObjectFacts.

(* ================================================================= *)
(** ** [JSON.parse] returns well-formed values *)

Section WellFormed.








(** Peel the matches of a parser off a hypothesis that says it succeeded. *)
Ltac parser_cases H :=
  repeat match type of H with
         | context [match ?x with _ => _ end] =>
             let E := fresh "E" in destruct x eqn:E; try discriminate H
         | context [if ?b then _ else _] =>
             let E := fresh "E" in destruct b eqn:E; try discriminate H
         end.


(** More fuel does not change what the parser returns. *)
Lemma parse_fuel_mono (fuel : nat) :
  (forall s p, parse_value fuel s = Some p -> parse_value (S fuel) s = Some p)
  /\ (forall s p,
         parse_elements fuel s = Some p -> parse_elements (S fuel) s = Some p)
  /\ (forall s acc p,
         parse_members fuel s acc = Some p ->
         parse_members (S fuel) s acc = Some p).
Proof.
  induction fuel as [|f [IHv [IHe IHm]]].
  - split; [|split]; intros; discriminate.
  - set (g := S f) in *.
    assert (Hv : forall s p, parse_value f s = Some p ->
                             parse_value g s = Some p) by exact IHv.
    assert (He : forall s p, parse_elements f s = Some p ->
                             parse_elements g s = Some p) by exact IHe.
    assert (Hm : forall s acc p, parse_members f s acc = Some p ->
                                 parse_members g s acc = Some p) by exact IHm.
    clear IHv IHe IHm.
    split; [|split].
    + intros s p H. unfold g in H. cbn [parse_value] in H |- *.
      parser_cases H;
        repeat match goal with
               | E : parse_elements f _ = Some _ |- _ =>
                   apply He in E; rewrite E
               | E : parse_members f _ _ = Some _ |- _ =>
                   apply Hm in E; rewrite E
               end; exact H.
    + intros s p H. unfold g in H. cbn [parse_elements] in H |- *.
      parser_cases H;
        repeat match goal with
               | E : parse_value f _ = Some _ |- _ =>
                   apply Hv in E; rewrite E
               | E : skip_ws ?r = _ |- context [skip_ws ?r] => rewrite E
               | E : parse_elements f _ = Some _ |- _ =>
                   apply He in E; rewrite E
               end; exact H.
    + intros s acc p H. unfold g in H. cbn [parse_members] in H |- *.
      parser_cases H;
        repeat match goal with
               | E : skip_ws ?r = _ |- context [skip_ws ?r] => rewrite E
               | E : string_literal ?r = _ |- context [string_literal ?r] =>
                   rewrite E
               | E : (_ =? _)%N = _ |- _ => rewrite E
               | E : parse_value f _ = Some _ |- _ =>
                   apply Hv in E; rewrite E
               end;
        first [exact H | now apply Hm].
Qed.


End WellFormed.

(* ================================================================= *)
(** ** The fragment at work *)

Example number_to_string_samples :
  map number_to_string
      [of_Z 7281698; of_Z (-3); mk_number 15 (-1); mk_number 1 21;
       mk_number 1 (-7); of_Z 0]
  = ["7281698"; "-3"; "1.5"; "1e+21"; "1e-7"; "0"].
Proof. reflexivity. Qed.

(** A tenant id stored as a number equals the same id given as a
    string; two strings are compared as strings; numbers are compared
    as the binary64 they are read as, strings being trimmed of every
    white space first; and an object is compared by its string, if it
    has one. *)
Example loose_eq_samples :
  loose_eq (VNum (of_Z 100)) (VStr "100") = Normal true
  /\ loose_eq (VStr "100") (VStr "100") = Normal true
  /\ loose_eq (VStr "100") (VStr "100.0") = Normal false
  /\ loose_eq (VNum (of_Z 100)) (VStr " 1e2 ") = Normal true
  /\ loose_eq (VStr "200") (VStr "100") = Normal false
  /\ loose_eq VNull VUndef = Normal true
  /\ loose_eq VNull (VNum (of_Z 0)) = Normal false
  /\ loose_eq (VArr [VNum (of_Z 100)]) (VStr "100") = Normal true
  /\ loose_eq (VNum (of_Z 9007199254740993)) (VStr "9007199254740992")
     = Normal true
  /\ loose_eq (VNum (of_Z 100))
              (VStr (String (ascii_of_nat 194)
                       (String (ascii_of_nat 160) "100")))
     = Normal true
  /\ loose_eq (VNum (Num 1 999)) (VStr "Infinity") = Normal true
  /\ loose_eq (VNum (Num 1 (-999))) (VStr "") = Normal true
  /\ loose_eq (VBool true) (VStr "0x1") = Normal true
  /\ loose_eq (VObj [("a", VNull)]) (VStr "[object Object]") = Normal true
  /\ (exists e, loose_eq (VObj [("toString", VNum (of_Z 1))]) (VStr "1")
                = Throw e)
  /\ loose_eq (VObj [("toString", VNum (of_Z 1))]) VNull = Normal false.
Proof.
  repeat match goal with |- _ /\ _ => split end;
    try reflexivity. eexists. reflexivity.
Qed.

(** Numbers print as the binary64 they are: the shortest decimal
    that is read back as it. *)
Example binary64_samples :
  map number_to_string
      [of_Z 9007199254740993; Num 1000000000000000055 (-19);
       Num 123456789012345678901234567890 0; Num 5 (-324); Num 2 (-324);
       Num 1 400; Num (-1) 400; Num 17976931348623157 292]
  = ["9007199254740992"; "0.1"; "1.2345678901234568e+29"; "5e-324"; "0";
     "Infinity"; "-Infinity"; "1.7976931348623157e+308"]
  /\ map truthy [VNum (Num 1 (-400)); VNum (Num 5 (-324)); VNum (Num 1 400)]
     = [false; true; true].
Proof. split; vm_compute; reflexivity. Qed.

(** A string is indexed by its UTF-16 code units. *)
Example code_units_samples :
  object_keys (VStr (utf8 233 ++ "a" ++ utf8 128512)) = ["0"; "1"; "2"; "3"]
  /\ get_own (VStr (utf8 233 ++ "a" ++ utf8 128512)) "0" = VStr (utf8 233)
  /\ get_own (VStr (utf8 233 ++ "a" ++ utf8 128512)) "2" = VStr (utf8 55357)
  /\ get_own (VStr (utf8 233 ++ "a" ++ utf8 128512)) "3" = VStr (utf8 56832)
  /\ get_own (VStr (utf8 233 ++ "a" ++ utf8 128512)) "length"
     = VNum (of_Z 4).
Proof. repeat split. Qed.

Example JSON_parse_samples :
  JSON_parse Sample.config_text
  = Normal
      (VObj [("credentials",
              VObj [("C1",
                     VObj [("businessUnits",
                            VObj [("bu1", VStr "100");
                                  ("bu2", VStr "200")])])])])
  /\ JSON_parse (Str.json_text "{'b':1,'2':[true,null],'1':-1.5e1,'b':'x'}")
     = Normal
         (VObj [("1", VNum (of_Z (-15)));
                ("2", VArr [VBool true; VNull]);
                ("b", VStr "x")])
  /\ JSON_parse "" = Throw (Exn SyntaxError "Unexpected token in JSON")
  /\ JSON_parse "[1,]" = Throw (Exn SyntaxError "Unexpected token in JSON").
Proof. repeat split. Qed.

(** An own property [__proto__] can be defined, as [JSON.parse] does,
    but not created by assignment. *)
Example proto_samples :
  obj_define [] "__proto__" (VStr "1") = [("__proto__", VStr "1")]
  /\ obj_assign [] "__proto__" (VStr "1") = []
  /\ obj_assign [("__proto__", VStr "1")] "__proto__" (VStr "2")
     = [("__proto__", VStr "2")]
  /\ obj_assign [] "X" (VStr "1") = [("X", VStr "1")].
Proof. repeat split. Qed.

(** A tenant id stored as the number [100] is found for the string
    ['100'].  The number [9007199254740993] is read as [2^53] and so
    matches the string ['9007199254740992']; with a second business
    unit that stores that string, two match and the call raises.  A
    stored id that is an object with a [toString] of its own, which
    cannot be called, makes the comparison throw a [TypeError]. *)
Example getBuName_numeric_id :
  fst (getBuName Sample.CONFIG (VStr "C1") (VStr "100")
         (Sample.world
            (Str.json_text
               "{'credentials':{'C1':{'businessUnits':{'DEV':100,'QA':200}}}}")))
  = Normal (VStr "C1/DEV")
  /\ fst (getBuName Sample.CONFIG (VStr "C1") (VStr "9007199254740992")
            (Sample.world
               (Str.json_text
                  "{'credentials':{'C1':{'businessUnits':{'a':9007199254740993}}}}")))
     = Normal (VStr "C1/a")
  /\ fst (getBuName Sample.CONFIG (VStr "C1") (VStr "9007199254740992")
            (Sample.world
               (Str.json_text
                  "{'credentials':{'C1':{'businessUnits':{'a':9007199254740993,'b':'9007199254740992'}}}}")))
     = Throw (Exn Error "MID 9007199254740992 not found for C1")
  /\ exn_class
       match fst (getBuName Sample.CONFIG (VStr "C1") (VStr "100")
                    (Sample.world
                       (Str.json_text
                          "{'credentials':{'C1':{'businessUnits':{'a':{'toString':1}}}}}")))
       with
       | Throw e => e
       | Normal _ => Exn Error ""
       end
     = TypeError.
Proof. repeat split. Qed.

(* ================================================================= *)
(** ** The business-unit resolver: [getBuName] *)

Section Resolver.

Variable CONFIG : Config.

Local Abbreviation path := (configFilePath CONFIG).

Lemma emit_is_after (w : World) (e : event) : emit e w = after w [e].
Proof. reflexivity. Qed.

Lemma emit_after (w : World) (es : list event) (e : event) :
  emit e (after w es) = after w (es ++ [e]).
Proof. unfold emit, after; simpl. now rewrite <- app_assoc. Qed.

(** Once the three preconditions hold and the file parses, the call
    is the lookup in the parsed document, made after the two file
    accesses. *)
Lemma getBuName_parsed (w : World) (credName mid : value)
      (text : string) (config : value) :
  truthy credName = true ->
  truthy mid = true ->
  files w path = File text ->
  JSON_parse text = Normal config ->
  getBuName CONFIG credName mid w
  = bind (lift (get_prop config "credentials")) (fun credentials =>
    bind (lift (get_prop credentials (to_string credName))) (fun credential =>
      if truthy credential && truthy (get_own credential "businessUnits")
      then
        bind (lift (matching_names (get_own credential "businessUnits") mid))
             (fun myBuNameArr =>
        match myBuNameArr with
        | [buName] =>
            bind (Log debug ("BU Name is: " ++ to_string credName ++ "/" ++ buName))
                 (fun _ => ret (VStr (to_string credName ++ "/" ++ buName)))
        | _ => throw (mid_not_found mid credName)
        end)
      else ret VUndef))
      (after w [CheckedExistence path; ReadFile path]).
Proof.
  intros Hc Hm Hf Hp. unfold getBuName. rewrite Hc, Hm. cbn [negb].
  unfold bind at 1. unfold existsSync. rewrite Hf. cbn [negb].
  unfold bind at 1. unfold readFileSync. cbn [files emit]. rewrite Hf.
  unfold bind at 1. unfold lift at 1. rewrite Hp.
  unfold emit, after. cbn [files run trace]. rewrite <- !app_assoc.
  reflexivity.
Qed.


Lemma lookup_of_key (o : props) (k : string) :
  In k (obj_keys o) -> exists v, obj_lookup o k = Some v.
Proof.
  intros I. destruct (obj_lookup o k) as [v|] eqn:E; [now exists v|].
  apply obj_lookup_None in E. contradiction.
Qed.


(** A filter none of whose tests throws keeps the names that pass. *)
Lemma filter_names_total (test : string -> completion bool)
      (names : list string) :
  (forall n, In n names -> exists b, test n = Normal b) ->
  filter_names test names
  = Normal (filter (fun n => match test n with
                             | Normal b => b
                             | Throw _ => false
                             end) names).
Proof.
  induction names as [|n r IH]; intros H; [reflexivity|].
  cbn [filter_names filter].
  destruct (H n (or_introl eq_refl)) as [b ->]. cbn [cbind].
  rewrite IH by (intros n' I; apply H; now right).
  cbn [cbind]. now destruct b.
Qed.

(** A filter that returns has made every test, and keeps the names
    that passed. *)
Lemma filter_names_inv (test : string -> completion bool)
      (names l : list string) :
  filter_names test names = Normal l ->
  (forall n, In n names -> exists b, test n = Normal b)
  /\ (forall n, In n l <-> In n names /\ test n = Normal true).
Proof.
  revert l. induction names as [|n r IH]; intros l H.
  - inversion H; subst. split; [contradiction|].
    intros n. split; [intros [] | intros [[] _]].
  - cbn [filter_names] in H.
    destruct (test n) as [b|e] eqn:T; [|discriminate H]. cbn [cbind] in H.
    destruct (filter_names test r) as [rest|e] eqn:F; [|discriminate H].
    cbn [cbind] in H. inversion H; subst l; clear H.
    destruct (IH rest eq_refl) as [A B]. split.
    + intros n' [<-|I]; [now exists b | now apply A].
    + intros n'. destruct b; cbn [In]; rewrite B; split.
      * intros [<-|[I T']]; [split; [now left | exact T]
                            | split; [now right | exact T']].
      * intros [[<-|I] T']; [now left | right; now split].
      * intros [I T']. split; [now right | exact T'].
      * intros [[<-|I] T']; [congruence | now split].
Qed.







Lemma append_assoc (a b c : string) : (a ++ b) ++ c = a ++ b ++ c.
Proof. induction a as [|x a IH]; simpl; [reflexivity | now rewrite IH]. Qed.





(** C10.  With a non-empty credential name and tenant id and an
    existing configuration file whose parsed document has no field
    [credentials], [getBuName] raises a [TypeError]: the field is read
    without a guard. *)
Theorem getBuName_without_credentials
        (w : World) (credName mid : value) (text : string) (config : value) :
  truthy credName = true ->
  truthy mid = true ->
  files w path = File text ->
  JSON_parse text = Normal config ->
  get_own config "credentials" = VUndef ->
  exists msg : string,
    getBuName CONFIG credName mid w
    = (Throw (Exn TypeError msg),
       after w [CheckedExistence path; ReadFile path]).
Proof.
  intros Hc Hm Hf Hp N.
  rewrite (getBuName_parsed _ _ _ _ _ Hc Hm Hf Hp).
  unfold bind, lift, get_prop at 1.
  destruct config; try (rewrite N; cbn [get_prop]);
    eexists; reflexivity.
Qed.

End Resolver.





(** C10 at a configuration file that holds [{version:'1'}]. *)
Lemma getBuName_without_credentials_witness :
  exists msg : string,
    getBuName Sample.CONFIG (VStr "C1") (VStr "100")
              (Sample.world Sample.bare_text)
    = (Throw (Exn TypeError msg),
       after (Sample.world Sample.bare_text)
             [CheckedExistence ".mcdev.json"; ReadFile ".mcdev.json"]).
Proof.
  apply (getBuName_without_credentials
           Sample.CONFIG (Sample.world Sample.bare_text)
           (VStr "C1") (VStr "100") Sample.bare_text
           (VObj [("version", VStr "1")])); reflexivity.
Defined.

(* ================================================================= *)
(** ** The command executor: [execCommand], [execCommandReturnStatus] *)

Lemma commands_app (es fs : list event) :
  commands (es ++ fs)%list = (commands es ++ commands fs)%list.
Proof.
  induction es as [|e r IH]; [reflexivity|].
  destruct e; cbn [app commands]; now rewrite IH.
Qed.

Section Executor.

Variables (preMsg postMsg : option string) (cmd : command) (w : World).

Local Abbreviation line := (command_line cmd).

(** The world in which the command is handed to the shell. *)
Local Abbreviation started :=
  (after w (announced preMsg ++ [Logged debug ("⚡ " ++ line)])).

Lemma execCommand_unfold :
  execCommand preMsg cmd postMsg w
  = match execSync line started with
    | (Some ex, w') =>
        (Throw (Exn Error (exec_error_to_string ex)),
         emit (Logged info (to_string (ex_status ex) ++ ": " ++ ex_message ex))
              w')
    | (None, w') =>
        when_given postMsg (fun m => Log debug ("✔️  " ++ m)) w'
    end.
Proof.
  unfold execCommand, bind, when_given, Log, ret, throw, announced.
  unfold execSync, emit, after.
  destruct preMsg; cbn [app files run trace];
    rewrite <- ?app_assoc; cbn [app];
    (destruct (run w line) as [code| | |];
     [destruct (code =? 0)%Z|..]); reflexivity.
Qed.

Lemma execCommandReturnStatus_unfold :
  execCommandReturnStatus preMsg cmd postMsg w
  = match execSync line started with
    | (Some ex, w') =>
        (Normal (ex_status ex),
         emit (Logged warn
                 ("❌  " ++ to_string (ex_status ex) ++ ": " ++ ex_message ex))
              w')
    | (None, w') =>
        (Normal (VNum (of_Z 0)),
         match postMsg with
         | Some m => emit (Logged progress ("✔️  " ++ m)) w'
         | None => w'
         end)
    end.
Proof.
  unfold execCommandReturnStatus, bind, when_given, Log, ret, announced.
  unfold execSync, emit, after.
  destruct preMsg; cbn [app files run trace];
    rewrite <- ?app_assoc; cbn [app];
    (destruct (run w line) as [code| | |];
     [destruct (code =? 0)%Z|..]); try reflexivity;
    destruct postMsg; reflexivity.
Qed.

(** The line the code hands to the shell is the one the command
    stands for. *)
Lemma join_chained (first : string) (rest : list string) :
  Str.join " && " (first :: rest) = chained first rest.
Proof.
  revert first. induction rest as [|next more IH]; intros first.
  - reflexivity.
  - cbn [chained]. rewrite <- IH. reflexivity.
Qed.

Lemma command_line_shell_line : command_line cmd = shell_line cmd.
Proof.
  destruct cmd as [s|[|first rest]]; [reflexivity | reflexivity |].
  exact (join_chained first rest).
Qed.

(** C2, as the code has it.  [execCommandReturnStatus] never raises.
    It hands the command line of the command to the shell, once, and
    returns 0 when the process succeeds and the exit code the process
    reports when it fails (3 for a command that exits with code 3).
    Without a status it returns the status of the failure unchanged,
    which is no number and so neither 0 nor an exit code, but is not
    one value for every command: [null] when a process was to run and
    reports none (a signal ended it, or it could not be started), and
    [undefined] when the runtime refuses the call before any process
    exists. *)
Theorem execCommandReturnStatus_status :
  exists (v : value) (w' : World),
    execCommandReturnStatus preMsg cmd postMsg w = (Normal v, w')
    /\ commands (trace w') = (commands (trace w) ++ [shell_line cmd])%list
    /\ match fst (execSync (shell_line cmd) w) with
       | Some ex => v = ex_status ex
       | None => v = VNum (of_Z 0)
       end
    /\ match run w (shell_line cmd) with
       | Exited code => v = VNum (of_Z code)
       | Signaled _ | SpawnFailed _ => v = VNull
       | Refused _ _ => v = VUndef
       end
    /\ (forall code : Z,
           VNull <> VNum (of_Z code) /\ VUndef <> VNum (of_Z code)).
Proof.
  rewrite execCommandReturnStatus_unfold, command_line_shell_line.
  unfold execSync. cbn [run after fst].
  assert (C : forall es,
             commands (trace w ++ announced preMsg
                       ++ Logged debug ("⚡ " ++ shell_line cmd)
                          :: Executed (shell_line cmd) :: es)%list
             = (commands (trace w) ++ shell_line cmd :: commands es)%list).
  { intros es. rewrite !commands_app.
    destruct preMsg; reflexivity. }
  destruct (run w (shell_line cmd)) as [code| | |];
    [destruct (code =? 0)%Z eqn:E|..];
    do 2 eexists; (split; [reflexivity|]); cbn [fst ex_status];
    (split;
     [ try destruct postMsg; unfold emit, after; cbn [trace files run];
       rewrite <- ?app_assoc; cbn [app];
       first [ exact (C []) | exact (C [_]) ]
     | ]);
    repeat split; try discriminate.
  apply Z.eqb_eq in E. now subst.
Qed.

(** C4, as the code has it.  When the process fails, [execCommand]
    first logs the status and the message of the failure at info level
    (nothing at error level) and then raises an [Error] whose message
    is the text of the failure, [Error: Command failed: <line>] for a
    process that exits with a code other than 0.  The exit status is in
    the logged line, which starts with it ([3: ...] for code 3); the
    raised error holds it only as far as the text of the failure does. *)
Theorem execCommand_failure :
  run w line <> Exited 0 ->
  exists ex : exec_error,
    fst (execSync line w) = Some ex
    /\ execCommand preMsg cmd postMsg w
       = (Throw (Exn Error (exec_error_to_string ex)),
          after w (announced preMsg ++
                   [Logged debug ("⚡ " ++ line);
                    Executed line;
                    Logged info
                      (to_string (ex_status ex) ++ ": " ++ ex_message ex)]))
    /\ (forall code : Z,
           run w line = Exited code ->
           ex_status ex = VNum (of_Z code)
           /\ ex_message ex = "Command failed: " ++ line
           /\ exec_error_to_string ex = "Error: Command failed: " ++ line)
    /\ (run w line = Exited 3 ->
        to_string (ex_status ex) ++ ": " ++ ex_message ex
        = "3: Command failed: " ++ line).
Proof.
  intros F. rewrite execCommand_unfold. unfold execSync.
  cbn [run after fst].
  destruct (run w line) as [code|sig|msg|name msg] eqn:R;
    [destruct (code =? 0)%Z eqn:E|..].
  - apply Z.eqb_eq in E. subst. contradiction.
  - eexists. split; [reflexivity|]. split; [|split].
    + rewrite !emit_after, <- !app_assoc. reflexivity.
    + intros c Hc. inversion Hc; subst. repeat split.
    + intros Hc. inversion Hc; subst. reflexivity.
  - eexists. split; [reflexivity|]. split; [|split].
    + rewrite !emit_after, <- !app_assoc. reflexivity.
    + intros c Hc. discriminate Hc.
    + intros Hc. discriminate Hc.
  - eexists. split; [reflexivity|]. split; [|split].
    + rewrite !emit_after, <- !app_assoc. reflexivity.
    + intros c Hc. discriminate Hc.
    + intros Hc. discriminate Hc.
  - eexists. split; [reflexivity|]. split; [|split].
    + rewrite !emit_after, <- !app_assoc. reflexivity.
    + intros c Hc. discriminate Hc.
    + intros Hc. discriminate Hc.
Qed.

(** X3.  On success [execCommand] returns nothing, having logged the
    message given before the command at progress level, the command
    line at debug level, and the message given after it at debug
    level; lines given as a list are joined with [&&]. *)
Theorem execCommand_success :
  run w line = Exited 0 ->
  execCommand preMsg cmd postMsg w
  = (Normal tt,
     after w (announced preMsg
              ++ [Logged debug ("⚡ " ++ line); Executed line]
              ++ completed debug postMsg))
  /\ (forall l, command_line (Lines l) = Str.join " && " l).
Proof.
  intros R. split; [|reflexivity].
  rewrite execCommand_unfold. unfold execSync. cbn [run after].
  rewrite R. cbn [Z.eqb]. unfold when_given, Log, ret, completed.
  destruct postMsg; rewrite ?emit_after, ?emit_is_after;
    unfold after; cbn [files run trace];
    rewrite <- ?app_assoc; cbn [app]; rewrite ?app_nil_r; reflexivity.
Qed.

(** X4.  What [execCommandReturnStatus] logs: the messages and the command
    line as [execCommand] does, then on failure a warning with the
    status and the message of the failure, and on success the message
    given after the command, at progress level. *)
Theorem execCommandReturnStatus_trace :
  trace (snd (execCommandReturnStatus preMsg cmd postMsg w))
  = (trace w ++ announced preMsg
     ++ [Logged debug ("⚡ " ++ line); Executed line]
     ++ match fst (execSync line w) with
        | Some ex =>
            [Logged warn
               ("❌  " ++ to_string (ex_status ex) ++ ": " ++ ex_message ex)]
        | None => completed progress postMsg
        end)%list.
Proof.
  rewrite execCommandReturnStatus_unfold. unfold execSync.
  cbn [run after fst]. unfold completed.
  destruct (run w line) as [code| | |]; [destruct (code =? 0)%Z|..];
    try destruct postMsg; unfold emit, after; cbn [snd fst trace files run];
    rewrite <- ?app_assoc; cbn [app]; rewrite ?app_nil_r; reflexivity.
Qed.

End Executor.

(** X3 at the two lines [npm init -y] and
    [mcdev --version]. *)
Lemma execCommand_success_witness :
  execCommand (Some "Initializing") (Lines ["npm init -y"; "mcdev --version"])
              (Some "Completed") (Sample.world "")
  = (Normal tt,
     after (Sample.world "")
           [Logged progress "Initializing";
            Logged debug "⚡ npm init -y && mcdev --version";
            Executed "npm init -y && mcdev --version";
            Logged debug "✔️  Completed"])
  /\ (forall l, command_line (Lines l) = Str.join " && " l).
Proof.
  apply (execCommand_success
           (Some "Initializing") (Some "Completed")
           (Lines ["npm init -y"; "mcdev --version"]) (Sample.world "")).
  reflexivity.
Defined.

(** C4 at a command whose text has no 3 in it and which exits with
    code 3: the info line reads [3: Command failed: ./deploy.sh] and
    the raised error [Error: Command failed: ./deploy.sh]. *)
Lemma execCommand_failure_witness :
  exists ex : exec_error,
    fst (execSync "./deploy.sh" (Sample.world "")) = Some ex
    /\ execCommand None (Line "./deploy.sh") None (Sample.world "")
       = (Throw (Exn Error (exec_error_to_string ex)),
          after (Sample.world "")
                [Logged debug "⚡ ./deploy.sh";
                 Executed "./deploy.sh";
                 Logged info
                   (to_string (ex_status ex) ++ ": " ++ ex_message ex)])
    /\ (forall code : Z,
           run (Sample.world "") "./deploy.sh" = Exited code ->
           ex_status ex = VNum (of_Z code)
           /\ ex_message ex = "Command failed: ./deploy.sh"
           /\ exec_error_to_string ex = "Error: Command failed: ./deploy.sh")
    /\ (run (Sample.world "") "./deploy.sh" = Exited 3 ->
        to_string (ex_status ex) ++ ": " ++ ex_message ex
        = "3: Command failed: ./deploy.sh").
Proof.
  apply (execCommand_failure None None (Line "./deploy.sh") (Sample.world "")).
  discriminate.
Defined.

(** The claim C4 fails as stated: the command [./deploy.sh] exits
    with code 3 and the message of the error [execCommand] raises has
    no 3 in it. *)
Lemma execCommand_error_omits_status :
  run (Sample.world "") "./deploy.sh" = Exited 3
  /\ exists (e : exn) (w' : World),
       execCommand None (Line "./deploy.sh") None (Sample.world "")
       = (Throw e, w')
       /\ exn_message e = "Error: Command failed: ./deploy.sh"
       /\ Str.includes (exn_message e) "3" = false
       /\ In (Logged info "3: Command failed: ./deploy.sh") (trace w').
Proof.
  split; [reflexivity|].
  exists (Exn Error "Error: Command failed: ./deploy.sh"),
         (after (Sample.world "")
                [Logged debug "⚡ ./deploy.sh"; Executed "./deploy.sh";
                 Logged info "3: Command failed: ./deploy.sh"]).
  split; [reflexivity|]. split; [reflexivity|]. split; [reflexivity|].
  cbn. auto.
Qed.

(** C2 at the command [./deploy.sh], which exits with code 3: the
    method returns 3, having handed that line to the shell. *)
Lemma execCommandReturnStatus_status_witness :
  exists (v : value) (w' : World),
    execCommandReturnStatus (Some "Deploying") (Line "./deploy.sh")
                            (Some "Deployed") (Sample.world "")
    = (Normal v, w')
    /\ commands (trace w') = ["./deploy.sh"]
    /\ v = ex_status (ExecError "Error" (VNum (of_Z 3))
                                "Command failed: ./deploy.sh")
    /\ v = VNum (of_Z 3)
    /\ (forall code : Z,
           VNull <> VNum (of_Z code) /\ VUndef <> VNum (of_Z code)).
Proof.
  exact (execCommandReturnStatus_status
           (Some "Deploying") (Some "Deployed") (Line "./deploy.sh")
           (Sample.world "")).
Defined.

(** The same call and one with a sequence of steps, evaluated: the
    steps are joined with [&&], and the code of the failing process is
    returned after a warning. *)
Example execCommandReturnStatus_samples :
  execCommandReturnStatus (Some "Deploying") (Line "./deploy.sh")
                          (Some "Deployed") (Sample.world "")
  = (Normal (VNum (Num 3 0)),
     after (Sample.world "")
           [Logged progress "Deploying";
            Logged debug "⚡ ./deploy.sh";
            Executed "./deploy.sh";
            Logged warn "❌  3: Command failed: ./deploy.sh"])
  /\ execCommandReturnStatus None (Lines ["cd app"; "npm ci"; "npm test"])
                             (Some "Tested") (Sample.world "")
     = (Normal (VNum (Num 0 0)),
        after (Sample.world "")
              [Logged debug "⚡ cd app && npm ci && npm test";
               Executed "cd app && npm ci && npm test";
               Logged progress "✔️  Tested"]).
Proof. split; reflexivity. Qed.

(** The claim C2 fails as stated: what is returned without a status
    is not a single value.  The command [./hang.sh] is killed and the
    method returns [null]; the empty sequence of steps gives the empty
    command line, which the runtime refuses, and the method returns
    [undefined]. *)
Lemma execCommandReturnStatus_no_single_sentinel :
  fst (execCommandReturnStatus None (Line "./hang.sh") None
                               Sample.node_world)
  = Normal VNull
  /\ fst (execCommandReturnStatus None (Lines []) None Sample.node_world)
     = Normal VUndef
  /\ ~ (exists sentinel : value,
          forall (cmd : command) (w : World),
            (forall code : Z, run w (shell_line cmd) <> Exited code) ->
            fst (execCommandReturnStatus None cmd None w)
            = Normal sentinel).
Proof.
  split; [reflexivity|]. split; [reflexivity|].
  intros [sentinel S].
  pose proof (S (Line "./hang.sh") Sample.node_world
                ltac:(intros code; discriminate)) as H1.
  pose proof (S (Lines []) Sample.node_world
                ltac:(intros code; discriminate)) as H2.
  cbv in H1, H2. congruence.
Qed.

(* ================================================================= *)
(** ** The configuration normalizer *)

Section Normalizer.

Local Open Scope list_scope.

Lemma obj_lookup_app_skip (a b : props) (k : string) :
  ~ In k (obj_keys a) -> obj_lookup (a ++ b) k = obj_lookup b k.
Proof.
  induction a as [|[k' v'] r IH]; simpl; intros H; [reflexivity|].
  destruct (String.eqb_spec k' k); [tauto | apply IH; tauto].
Qed.

Lemma obj_replace_app_skip (a b : props) (k : string) (v : value) :
  ~ In k (obj_keys a) -> obj_replace (a ++ b) k v = (a ++ obj_replace b k v)%list.
Proof.
  induction a as [|[k' v'] r IH]; simpl; intros H; [reflexivity|].
  destruct (String.eqb_spec k' k); [tauto | rewrite IH; tauto].
Qed.

Lemma obj_keys_app (a b : props) :
  obj_keys (a ++ b) = (obj_keys a ++ obj_keys b)%list.
Proof. apply map_app. Qed.

(** The loop of [convertEnvVariables], from any point of it: the
    properties already visited stay, the others are converted where
    they stand. *)
Lemma convert_keys_spec (todo todo' : props) :
  Forall2 converts_to todo todo' ->
  forall done : props,
    NoDup (obj_keys (done ++ todo)) ->
    convert_keys (obj_keys todo) (done ++ todo)
    = (Normal tt, (done ++ todo')%list).
Proof.
  induction 1 as [|[k v] [k' v'] r r' [Ek Ev] F IH]; intros done D.
  - reflexivity.
  - cbn [fst snd] in Ek, Ev. subst k'.
    assert (Nk : ~ In k (obj_keys done)).
    { rewrite obj_keys_app in D. cbn in D.
      apply NoDup_remove_2 in D. rewrite in_app_iff in D. tauto. }
    cbn [obj_keys map fst convert_keys get_own].
    rewrite obj_lookup_app_skip by assumption.
    cbn [obj_lookup]. rewrite String.eqb_refl.
    unfold convert_key. rewrite Ev.
    rewrite obj_assign_own
      by (rewrite obj_keys_app, in_app_iff; right; now left).
    rewrite obj_replace_app_skip by assumption.
    cbn [obj_replace]. rewrite String.eqb_refl.
    specialize (IH (done ++ [(k, v')])%list).
    rewrite <- !app_assoc in IH. cbn [app] in IH. apply IH.
    rewrite obj_keys_app in *. exact D.
Qed.

(** Whenever the loop ends normally, every property it had to visit
    was converted where it stood. *)
Lemma convert_keys_inv (todo : props) :
  forall done res : props,
    NoDup (obj_keys (done ++ todo)) ->
    convert_keys (obj_keys todo) (done ++ todo) = (Normal tt, res) ->
    exists todo' : props,
      res = done ++ todo' /\ Forall2 converts_to todo todo'.
Proof.
  induction todo as [|[k v] r IH]; intros done res D H.
  - cbn in H. inversion H; subst. exists []. split; [reflexivity | constructor].
  - assert (Nk : ~ In k (obj_keys done)).
    { rewrite obj_keys_app in D. cbn in D.
      apply NoDup_remove_2 in D. rewrite in_app_iff in D. tauto. }
    cbn [obj_keys map fst convert_keys get_own] in H.
    rewrite obj_lookup_app_skip in H by assumption.
    cbn [obj_lookup] in H. rewrite String.eqb_refl in H.
    destruct (convert_key k v) as [v'|e] eqn:Ev; [|discriminate H].
    rewrite obj_assign_own in H
      by (rewrite obj_keys_app, in_app_iff; right; now left).
    rewrite obj_replace_app_skip in H by assumption.
    cbn [obj_replace] in H. rewrite String.eqb_refl in H.
    destruct (IH (done ++ [(k, v')]) res) as [r' [E F]].
    + rewrite <- app_assoc. cbn [app]. rewrite obj_keys_app in *. exact D.
    + rewrite <- app_assoc. exact H.
    + exists ((k, v') :: r'). split.
      * rewrite E, <- app_assoc. reflexivity.
      * constructor; [split; [reflexivity | exact Ev] | exact F].
Qed.

(** The loop never changes the names of the object, however it ends. *)
Lemma convert_keys_keys (keys : list string) :
  forall o : props,
    (forall k, In k keys -> In k (obj_keys o)) ->
    obj_keys (snd (convert_keys keys o)) = obj_keys o.
Proof.
  induction keys as [|k r IH]; intros o H; [reflexivity|].
  cbn [convert_keys].
  destruct (convert_key k (get_own (VObj o) k)) as [v|e]; [|reflexivity].
  rewrite obj_assign_own by (apply H; now left).
  rewrite IH; rewrite obj_keys_replace; [reflexivity|].
  intros k' I. apply H. now right.
Qed.

(** X19.  [convertEnvVariables] replaces, in place, the value of every
    key that ends with [Children] by what [_convertEnvChildVars]
    returns for it and the value of every other key by what
    [_convertEnvVars] returns for it: it ends normally exactly when
    each of these calls returns, and then the mapping holds the
    returned values under the keys it had.  The keys of the mapping
    stay as they were, none added, none removed, however the call
    ends.  [_convertEnvChildVars] of
    [[{id:'A', environmentVariables:[{name:'X',value:'1'}]}]] returns
    [{A: {X: '1'}}]. *)
Theorem convertEnvVariables_dispatch (envVariables : props) :
  NoDup (obj_keys envVariables) ->
  obj_keys (snd (convertEnvVariables envVariables)) = obj_keys envVariables
  /\ (forall converted : props,
         convertEnvVariables envVariables = (Normal tt, converted)
         <-> Forall2 converts_to envVariables converted)
  /\ _convertEnvChildVars Sample.group_A
     = Normal (VObj [("A", VObj [("X", VStr "1")])]).
Proof.
  intros D. split; [|split].
  - unfold convertEnvVariables. now apply convert_keys_keys.
  - intros converted. unfold convertEnvVariables. split.
    + intros H. destruct (convert_keys_inv envVariables [] converted D H)
        as [c [E F]]. now subst.
    + intros F. exact (convert_keys_spec _ _ F [] D).
  - reflexivity.
Qed.

End Normalizer.

Section Normalizer_flat.

Local Open Scope list_scope.

Lemma obj_lookup_assign_other (o : props) (k k' : string) (v : value) :
  k <> k' -> obj_lookup (obj_assign o k v) k' = obj_lookup o k'.
Proof.
  intros N. unfold obj_assign. destruct (obj_has o k) eqn:E.
  - rewrite obj_lookup_replace by now apply obj_has_true.
    destruct (String.eqb_spec k k'); [contradiction | reflexivity].
  - destruct (String.eqb k "__proto__"); [reflexivity|].
    rewrite obj_lookup_define.
    destruct (String.eqb_spec k k'); [contradiction | reflexivity].
Qed.

(** Assigning to [__proto__] leaves the own properties of an object
    that has none of that name as they are. *)
Lemma obj_assign_proto (o : props) (v : value) :
  obj_lookup o "__proto__" = None -> obj_assign o "__proto__" v = o.
Proof. intros N. unfold obj_assign, obj_has. now rewrite N. Qed.

(** The loop of the flat-list transform over well-formed entries: it
    ends normally; every name but [__proto__] reads as the value of its
    last entry, or as it did before the loop when it has no entry; and
    no property [__proto__] appears. *)
Lemma collect_vars_env_vars (l : list (string * string)) :
  forall acc : props,
  exists m : props,
    collect_vars (map env_var l) acc = Normal m
    /\ (forall n, n <> "__proto__" ->
          obj_lookup m n
          = match last_value l n with
            | Some x => Some (VStr x)
            | None => obj_lookup acc n
            end)
    /\ (obj_lookup acc "__proto__" = None -> obj_lookup m "__proto__" = None).
Proof.
  induction l as [|[n0 v0] r IH]; intros acc.
  - exists acc. repeat split; auto.
  - cbn [map collect_vars env_var fst snd get_prop get_own obj_lookup cbind
         to_string].
    change (String.eqb "name" "name") with true.
    change (String.eqb "name" "value") with false.
    change (String.eqb "value" "value") with true. cbv iota.
    destruct (IH (obj_assign acc n0 (VStr v0))) as [m [Hm [Hl Hp]]].
    exists m. split; [exact Hm|]. split.
    + intros n Hn. rewrite (Hl n Hn). cbn [last_value].
      destruct (last_value r n); [reflexivity|].
      destruct (String.eqb_spec n0 n) as [->|N].
      * rewrite obj_lookup_assign by assumption.
        now rewrite String.eqb_refl.
      * now apply obj_lookup_assign_other.
    + intros Hacc. apply Hp.
      destruct (String.eqb_spec n0 "__proto__") as [->|N].
      * now rewrite obj_assign_proto.
      * now rewrite obj_lookup_assign_other.
Qed.

(** The flat-list transform of a sequence of well-formed entries. *)
Lemma convertEnvVars_env_vars (l : list (string * string)) :
  exists m : props,
    _convertEnvVars (env_vars l) = Normal (VObj m)
    /\ (forall n, n <> "__proto__" ->
          obj_lookup m n = option_map VStr (last_value l n))
    /\ obj_lookup m "__proto__" = None.
Proof.
  destruct (collect_vars_env_vars l []) as [m [Hm [Hl Hp]]].
  exists m. split; [|split].
  - unfold _convertEnvVars, env_vars. cbn [truthy negb iterate cbind].
    now rewrite Hm.
  - intros n Hn. rewrite (Hl n Hn). now destruct (last_value l n).
  - now apply Hp.
Qed.

(** A text that [JSON.parse] accepts is not empty. *)
Lemma JSON_parse_nonempty (text : string) (v : value) :
  JSON_parse text = Normal v -> truthy (VStr text) = true.
Proof. destruct text; [discriminate | reflexivity]. Qed.

(** The flat-list transform of a JSON text is that of the value the
    text encodes. *)
Lemma convertEnvVars_text (text : string) (l : list value) :
  JSON_parse text = Normal (VArr l) ->
  _convertEnvVars (VStr text) = _convertEnvVars (VArr l).
Proof.
  intros H. unfold _convertEnvVars.
  rewrite (JSON_parse_nonempty _ _ H), H. reflexivity.
Qed.

(** A truthy input the flat-list transform accepts is a string or an
    array, and what is returned for it is an object. *)
Lemma convertEnvVars_shape (v r : value) :
  truthy v = true ->
  _convertEnvVars v = Normal r ->
  (exists m, r = VObj m) /\ (is_string v = true \/ exists l, v = VArr l).
Proof.
  intros T H. unfold _convertEnvVars in H. rewrite T in H. cbn [negb] in H.
  destruct v; cbn [is_string];
    try (cbn in H; discriminate H).
  - destruct (JSON_parse s) as [p|e]; [|discriminate H]. cbn [cbind] in H.
    destruct (iterate _ p) as [items|e]; [|discriminate H]. cbn [cbind] in H.
    destruct (collect_vars items []) as [m|e]; [|discriminate H].
    inversion H. split; [now exists m | now left].
  - cbn [cbind iterate] in H.
    destruct (collect_vars items []) as [m|e]; [|discriminate H].
    inversion H. split; [now exists m | right; now exists items].
Qed.

Lemma convertEnvChildVars_shape (v r : value) :
  truthy v = true ->
  _convertEnvChildVars v = Normal r ->
  (exists m, r = VObj m) /\ (is_string v = true \/ exists l, v = VArr l).
Proof.
  intros T H. unfold _convertEnvChildVars in H. rewrite T in H.
  cbn [negb] in H.
  destruct v; cbn [is_string];
    try (cbn in H; discriminate H).
  - destruct (JSON_parse s) as [p|e]; [|discriminate H]. cbn [cbind] in H.
    destruct (iterate _ p) as [items|e]; [|discriminate H]. cbn [cbind] in H.
    destruct (collect_child_vars items []) as [m|e]; [|discriminate H].
    inversion H. split; [now exists m | now left].
  - cbn [cbind iterate] in H.
    destruct (collect_child_vars items []) as [m|e]; [|discriminate H].
    inversion H. split; [now exists m | right; now exists items].
Qed.

(** C5, as the code has it.  For every well-formed sequence of
    entries the flat-list transform returns a mapping, a function of
    the sequence alone; but it is not idempotent: given that mapping
    back as a literal mapping it raises a [TypeError], a plain object
    not being iterable.  The inputs that come back unchanged are the
    falsy ones ([null], [undefined], the empty string, ...), and only
    they. *)
Theorem convertEnvVars_twice (l : list (string * string)) :
  (exists m : props,
      _convertEnvVars (env_vars l) = Normal (VObj m)
      /\ exists msg : string,
          _convertEnvVars (VObj m) = Throw (Exn TypeError msg))
  /\ (forall v : value, _convertEnvVars v = Normal v <-> truthy v = false).
Proof.
  split.
  - destruct (convertEnvVars_env_vars l) as [m [Hm _]].
    exists m. split; [exact Hm|]. eexists. reflexivity.
  - intros v. split.
    + intros H. destruct (truthy v) eqn:T; [|reflexivity]. exfalso.
      destruct (convertEnvVars_shape v v T H) as [[m ->] [S|[l' L]]];
        discriminate.
    + intros T. unfold _convertEnvVars. now rewrite T.
Qed.

(** X2.  The inputs the two transforms hand back unchanged are
    exactly the falsy ones, [null] among them: neither transform ever
    returns a truthy input as it is. *)
Theorem transforms_pass_falsy_through (v : value) :
  (_convertEnvVars v = Normal v <-> truthy v = false)
  /\ (_convertEnvChildVars v = Normal v <-> truthy v = false).
Proof.
  split; split.
  - intros H. destruct (truthy v) eqn:T; [|reflexivity]. exfalso.
    destruct (convertEnvVars_shape v v T H) as [[m ->] [S|[l L]]];
      discriminate.
  - intros T. unfold _convertEnvVars. now rewrite T.
  - intros H. destruct (truthy v) eqn:T; [|reflexivity]. exfalso.
    destruct (convertEnvChildVars_shape v v T H) as [[m ->] [S|[l L]]];
      discriminate.
  - intros T. unfold _convertEnvChildVars. now rewrite T.
Qed.

Lemma collect_child_vars_env_child
      (l : list (string * list (string * string))) :
  Forall (fun g => fst g <> "__proto__") l ->
  forall acc : props,
  exists m : props,
    collect_child_vars (map env_child l) acc = Normal m
    /\ (forall i,
          match last_group l i with
          | Some vars =>
              exists mv : props,
                obj_lookup m i = Some (VObj mv)
                /\ _convertEnvVars (env_vars vars) = Normal (VObj mv)
          | None => obj_lookup m i = obj_lookup acc i
          end).
Proof.
  induction 1 as [|[i0 vars0] r N0 _ IH]; intros acc.
  - exists acc. split; [reflexivity|]. intros i. reflexivity.
  - cbn [fst] in N0.
    cbn [map collect_child_vars env_child fst snd get_prop get_own obj_lookup
         cbind to_string].
    change (String.eqb "id" "id") with true.
    change (String.eqb "id" "environmentVariables") with false.
    change (String.eqb "environmentVariables" "environmentVariables")
      with true.
    cbv iota.
    destruct (convertEnvVars_env_vars vars0) as [mv0 [Hmv0 _]].
    rewrite Hmv0. cbn [cbind].
    destruct (IH (obj_assign acc i0 (VObj mv0))) as [m [Hm Hl]].
    exists m. split; [exact Hm|].
    intros i. specialize (Hl i). cbn [last_group].
    destruct (last_group r i); [exact Hl|].
    destruct (String.eqb_spec i0 i) as [->|N].
    + exists mv0. split; [|exact Hmv0].
      rewrite Hl, obj_lookup_assign by assumption.
      now rewrite String.eqb_refl.
    + rewrite Hl. now apply obj_lookup_assign_other.
Qed.

(** X5.  The grouped transform of a sequence of well-formed entries,
    none with the id [__proto__], is a mapping whose own properties
    are these: under every id, the flat-list transform of the
    variables of the last entry with that id, and no property under a
    name that is the id of no entry. *)
Theorem convertEnvChildVars_groups
        (l : list (string * list (string * string))) :
  Forall (fun g => fst g <> "__proto__") l ->
  exists m : props,
    _convertEnvChildVars (VArr (map env_child l)) = Normal (VObj m)
    /\ (forall i,
          match last_group l i with
          | Some vars =>
              exists mv : props,
                obj_lookup m i = Some (VObj mv)
                /\ _convertEnvVars (env_vars vars) = Normal (VObj mv)
          | None => obj_lookup m i = None
          end).
Proof.
  intros P.
  destruct (collect_child_vars_env_child l P []) as [m [Hm Hl]].
  exists m. split.
  - unfold _convertEnvChildVars. cbn [truthy negb iterate cbind].
    now rewrite Hm.
  - exact Hl.
Qed.

End Normalizer_flat.

(** X5 at two entries with the id [A] and one with the id [B]. *)
Lemma convertEnvChildVars_groups_witness :
  exists m : props,
    _convertEnvChildVars
      (VArr (map env_child
               [("A", [("X", "1")]); ("B", []); ("A", [("Y", "2")])]))
    = Normal (VObj m)
    /\ (forall i,
          match
            last_group [("A", [("X", "1")]); ("B", []); ("A", [("Y", "2")])] i
          with
          | Some vars =>
              exists mv : props,
                obj_lookup m i = Some (VObj mv)
                /\ _convertEnvVars (env_vars vars) = Normal (VObj mv)
          | None => obj_lookup m i = None
          end).
Proof.
  apply (convertEnvChildVars_groups
           [("A", [("X", "1")]); ("B", []); ("A", [("Y", "2")])]).
  repeat constructor; discriminate.
Defined.

(** X19 at a mapping with a flat list, a grouped list and [null]. *)
Lemma convertEnvVariables_dispatch_witness :
  convertEnvVariables
    [("environmentVariables", VStr Sample.twice_X);
     ("environmentVariablesChildren", Sample.group_A);
     ("other", VNull)]
  = (Normal tt,
     [("environmentVariables", VObj [("X", VStr "2")]);
      ("environmentVariablesChildren",
       VObj [("A", VObj [("X", VStr "1")])]);
      ("other", VNull)]).
Proof.
  refine (proj2 (proj1 (proj2
    (convertEnvVariables_dispatch
       [("environmentVariables", VStr Sample.twice_X);
        ("environmentVariablesChildren", Sample.group_A);
        ("other", VNull)] _)) _) _).
  - repeat constructor; simpl; intuition discriminate.
  - repeat constructor.
Defined.

(** The claim C5 fails as stated: the transform of [[{name:'X',
    value:'1'}]] is [{X: '1'}], and the transform of [{X: '1'}] is not
    [{X: '1'}] again but a [TypeError]. *)
Lemma convertEnvVars_not_idempotent :
  _convertEnvVars (env_vars [("X", "1")]) = Normal (VObj [("X", VStr "1")])
  /\ _convertEnvVars (VObj [("X", VStr "1")])
     <> Normal (VObj [("X", VStr "1")]).
Proof. split; [reflexivity | discriminate]. Qed.

(** C7 at a mapping whose grouped list has an entry with the id [A]
    and one with the id [__proto__]: the call returns, and the mapping
    that replaces the list has the property [A] and no property for
    the id [__proto__], where the claim wants that id mapped to the
    flat-list transform of its variables, [{Y: '2'}].  (The assignment
    under that id reaches the accessor of the prototype, as in C6; the
    engine makes [{Y: '2'}] the prototype of the mapping, which gets
    no own property.)  When the variables of such an entry are the
    empty string, which the flat-list transform hands back as it is,
    the assignment does nothing at all and the mapping is empty. *)
Lemma convertEnvVariables_drops_proto_id :
  convertEnvVariables
    [("destinationChildren",
      VArr [env_child ("A", [("X", "1")]);
            env_child ("__proto__", [("Y", "2")])])]
  = (Normal tt,
     [("destinationChildren", VObj [("A", VObj [("X", VStr "1")])])])
  /\ object_keys (VObj [("A", VObj [("X", VStr "1")])]) = ["A"]
  /\ last_group [("A", [("X", "1")]); ("__proto__", [("Y", "2")])]
                "__proto__"
     = Some [("Y", "2")]
  /\ _convertEnvVars (env_vars [("Y", "2")])
     = Normal (VObj [("Y", VStr "2")])
  /\ convertEnvVariables
       [("destinationChildren",
         VArr [VObj [("id", VStr "__proto__");
                     ("environmentVariables", VStr "")]])]
     = (Normal tt, [("destinationChildren", VObj [])]).
Proof. repeat split. Qed.

(** C6 at the entry [{name:'__proto__', value:'1'}], given as a
    structure and as a JSON text: the mapping returned has no property
    of that name, where the claim wants it to map the name to ['1']. *)
Lemma convertEnvVars_drops_proto :
  _convertEnvVars (env_vars [("__proto__", "1")]) = Normal (VObj [])
  /\ _convertEnvVars
       (VStr (Str.json_text "[{'name':'__proto__','value':'1'}]"))
     = Normal (VObj [])
  /\ last_value [("__proto__", "1")] "__proto__" = Some "1".
Proof. repeat split. Qed.

(** X1.  Apart from the name [__proto__], the flat-list transform of a
    sequence of entries, given as a structure or as a JSON text, is
    the mapping from each name to the value of its last entry; the
    text [[{name:'X',value:'1'},{name:'X',value:'2'}]] gives
    [{X: '2'}]. *)
Theorem convertEnvVars_last_write_wins
        (l : list (string * string)) (text : string) :
  Forall (fun nv => fst nv <> "__proto__") l ->
  JSON_parse text = Normal (env_vars l) ->
  exists m : props,
    _convertEnvVars (env_vars l) = Normal (VObj m)
    /\ _convertEnvVars (VStr text) = Normal (VObj m)
    /\ (forall n, obj_lookup m n = option_map VStr (last_value l n))
    /\ _convertEnvVars (VStr Sample.twice_X) = Normal (VObj [("X", VStr "2")]).
Proof.
  intros F P. destruct (convertEnvVars_env_vars l) as [m [Hm [Hl Hp]]].
  exists m. split; [exact Hm|]. split; [|split].
  - rewrite <- Hm. now apply convertEnvVars_text.
  - intros n. destruct (String.eqb_spec n "__proto__") as [->|N].
    + rewrite Hp. clear -F.
      induction l as [|[n0 v0] r IH]; [reflexivity|].
      inversion F as [|? ? N0 Fr]; subst. cbn [fst] in N0.
      cbn [last_value]. specialize (IH Fr).
      destruct (last_value r "__proto__"); [discriminate IH|].
      destruct (String.eqb_spec n0 "__proto__"); [contradiction|reflexivity].
    + now apply Hl.
  - reflexivity.
Qed.

(** X1 at the entries [X = 1] and [X = 2]. *)
Lemma convertEnvVars_last_write_wins_witness :
  exists m : props,
    _convertEnvVars (env_vars [("X", "1"); ("X", "2")]) = Normal (VObj m)
    /\ _convertEnvVars (VStr Sample.twice_X) = Normal (VObj m)
    /\ (forall n,
          obj_lookup m n
          = option_map VStr (last_value [("X", "1"); ("X", "2")] n))
    /\ _convertEnvVars (VStr Sample.twice_X) = Normal (VObj [("X", VStr "2")]).
Proof.
  apply (convertEnvVars_last_write_wins
           [("X", "1"); ("X", "2")] Sample.twice_X).
  - repeat constructor; discriminate.
  - reflexivity.
Defined.

(* ================================================================= *)
(** ** More on the resolver *)

Section ResolverMore.

Variable CONFIG : Config.

Local Abbreviation path := (configFilePath CONFIG).

(** What is looked up in the parsed document, and what becomes of it. *)
Local Abbreviation lookup_in config credName mid :=
  (bind (lift (get_prop config "credentials")) (fun credentials =>
   bind (lift (get_prop credentials (to_string credName))) (fun credential =>
     if truthy credential && truthy (get_own credential "businessUnits")
     then
       bind (lift (matching_names (get_own credential "businessUnits") mid))
            (fun myBuNameArr =>
       match myBuNameArr with
       | [buName] =>
           bind (Log debug ("BU Name is: " ++ to_string credName ++ "/" ++ buName))
                (fun _ => ret (VStr (to_string credName ++ "/" ++ buName)))
       | _ => throw (mid_not_found mid credName)
       end)
     else ret VUndef))).

(** The call, case by case. *)
Lemma getBuName_cases (credName mid : value) (w : World) :
  getBuName CONFIG credName mid w
  = if negb (truthy credName) then (Throw credentialName_not_set, w)
    else if negb (truthy mid) then (Throw mid_not_set, w)
    else
      match files w path with
      | NoEntry =>
          (Throw (config_file_not_found CONFIG),
           after w [CheckedExistence path])
      | Directory =>
          (Throw (Exn Error "EISDIR: illegal operation on a directory, read"),
           after w [CheckedExistence path; ReadFile path])
      | File text =>
          match JSON_parse text with
          | Throw e =>
              (Throw e, after w [CheckedExistence path; ReadFile path])
          | Normal config =>
              lookup_in config credName mid
                        (after w [CheckedExistence path; ReadFile path])
          end
      end.
Proof.
  destruct (truthy credName) eqn:Hc; [|unfold getBuName; now rewrite Hc].
  destruct (truthy mid) eqn:Hm; [|unfold getBuName; now rewrite Hc, Hm].
  cbn [negb].
  destruct (files w path) as [|text|] eqn:Hf.
  - unfold getBuName. rewrite Hc, Hm. cbn [negb].
    unfold bind, existsSync. now rewrite Hf.
  - destruct (JSON_parse text) as [config|e] eqn:Hp.
    + exact (getBuName_parsed CONFIG w credName mid text config Hc Hm Hf Hp).
    + unfold getBuName. rewrite Hc, Hm. cbn [negb].
      unfold bind at 1. unfold existsSync. rewrite Hf. cbn [negb].
      unfold bind at 1. unfold readFileSync. cbn [files emit]. rewrite Hf.
      unfold bind at 1. unfold lift at 1. rewrite Hp.
      unfold emit, after. cbn [files run trace]. rewrite <- !app_assoc.
      reflexivity.
  - unfold getBuName. rewrite Hc, Hm. cbn [negb].
    unfold bind at 1. unfold existsSync. rewrite Hf. cbn [negb].
    unfold bind at 1. unfold readFileSync. cbn [files emit]. rewrite Hf.
    unfold emit, after. cbn [files run trace]. rewrite <- !app_assoc.
    reflexivity.
Qed.

(** The lookup in the parsed document leaves the files and the
    processes alone, logs at most one message, at debug level, and
    returns [undefined] or a name it found. *)
Lemma lookup_in_result (config credName mid : value) (w : World) :
  exists (r : completion value) (es : list event),
    lookup_in config credName mid w = (r, after w es)
    /\ (es = [] \/ exists m, es = [Logged debug m] /\ exists v, r = Normal v /\ v <> VUndef)
    /\ (forall v, r = Normal v ->
        v = VUndef
        \/ exists buName : string,
            let bus :=
              get_own (get_own (get_own config "credentials")
                               (to_string credName)) "businessUnits" in
            v = VStr (to_string credName ++ "/" ++ buName)
            /\ In buName (object_keys bus)
            /\ loose_eq (get_own bus buName) mid = Normal true
            /\ (forall other, In other (object_keys bus) ->
                  exists b, loose_eq (get_own bus other) mid = Normal b)
            /\ (forall other, In other (object_keys bus) ->
                  loose_eq (get_own bus other) mid = Normal true ->
                  other = buName)
            /\ es = [Logged debug
                       ("BU Name is: " ++ to_string credName ++ "/" ++ buName)]).
Proof.
  assert (W : after w [] = w).
  { unfold after. rewrite app_nil_r. now destruct w. }
  unfold bind, lift.
  destruct (get_prop config "credentials") as [credentials|e] eqn:G1.
  2:{ exists (Throw e), []. rewrite W. repeat split; auto. discriminate. }
  destruct (get_prop credentials (to_string credName)) as [credential|e] eqn:G2.
  2:{ exists (Throw e), []. rewrite W. repeat split; auto. discriminate. }
  assert (E1 : credentials = get_own config "credentials").
  { unfold get_prop in G1.
    destruct config; try discriminate G1; now inversion G1. }
  assert (E2 : credential = get_own credentials (to_string credName)).
  { unfold get_prop in G2.
    destruct credentials; try discriminate G2; now inversion G2. }
  destruct (truthy credential && truthy (get_own credential "businessUnits"))
    eqn:T.
  2:{ exists (Normal VUndef), []. rewrite W.
      split; [reflexivity|]. split; [now left|].
      intros v Hv. inversion Hv. now left. }
  destruct (matching_names (get_own credential "businessUnits") mid)
    as [[|buName [|b r]]|e] eqn:Mn.
  - exists (Throw (mid_not_found mid credName)), []. rewrite W.
    repeat split; auto. discriminate.
  - exists (Normal (VStr (to_string credName ++ "/" ++ buName))),
      [Logged debug ("BU Name is: " ++ to_string credName ++ "/" ++ buName)].
    split; [reflexivity|]. split.
    + right. eexists. split; [reflexivity|]. eexists. split; [reflexivity|].
      discriminate.
    + intros v Hv. inversion Hv; subst v. right. exists buName.
      cbn zeta. rewrite <- E1, <- E2.
      unfold matching_names in Mn.
      destruct (filter_names_inv _ _ _ Mn) as [A B].
      destruct (proj1 (B buName) (or_introl eq_refl)) as [I1 I2].
      split; [reflexivity|]. split; [exact I1|]. split; [exact I2|].
      split; [exact A|]. split; [|reflexivity].
      intros other Io Lo.
      destruct (proj2 (B other) (conj Io Lo)) as [I|[]]. now symmetry.
  - exists (Throw (mid_not_found mid credName)), []. rewrite W.
    repeat split; auto. discriminate.
  - exists (Throw e), []. rewrite W. repeat split; auto. discriminate.
Qed.

Lemma after_after (w : World) (es fs : list event) :
  after (after w es) fs = after w (es ++ fs).
Proof. unfold after. cbn [files run trace]. now rewrite <- app_assoc. Qed.

(** X6.  Whenever [getBuName] returns a name, the configuration file
    exists and parses, the name is [credName + '/' + buName] for a
    business unit [buName] the file lists under the credential, the
    tenant id stored for it is loosely equal to [mid], every stored
    id was compared with [mid] without the comparison throwing, and no
    other business unit of the credential has an id loosely equal to
    [mid]. *)
Theorem getBuName_sound (credName mid : value) (w w' : World) (v : value) :
  getBuName CONFIG credName mid w = (Normal v, w') ->
  v <> VUndef ->
  exists (text : string) (config : value) (buName : string),
    let bus :=
      get_own (get_own (get_own config "credentials") (to_string credName))
              "businessUnits" in
    files w path = File text
    /\ JSON_parse text = Normal config
    /\ v = VStr (to_string credName ++ "/" ++ buName)
    /\ In buName (object_keys bus)
    /\ loose_eq (get_own bus buName) mid = Normal true
    /\ (forall other, In other (object_keys bus) ->
          exists b, loose_eq (get_own bus other) mid = Normal b)
    /\ (forall other, In other (object_keys bus) ->
          loose_eq (get_own bus other) mid = Normal true -> other = buName)
    /\ w' = after w [CheckedExistence path; ReadFile path;
                     Logged debug
                       ("BU Name is: " ++ to_string credName ++ "/" ++ buName)].
Proof.
  intros H Hv. rewrite getBuName_cases in H.
  destruct (negb (truthy credName)); [discriminate H|].
  destruct (negb (truthy mid)); [discriminate H|].
  destruct (files w path) as [|text|] eqn:Hf; try discriminate H.
  destruct (JSON_parse text) as [config|e] eqn:Hp; [|discriminate H].
  destruct (lookup_in_result config credName mid
              (after w [CheckedExistence path; ReadFile path]))
    as [r [es [E [_ S]]]].
  rewrite E in H. inversion H; subst r w'. clear H.
  destruct (S v eq_refl) as [U|[buName [A [B [C [D [D' F]]]]]]];
    [contradiction|].
  exists text, config, buName. cbn zeta.
  repeat (split; [assumption || reflexivity|]).
  rewrite after_after, F. reflexivity.
Qed.

(** X7.  Whatever its arguments and however it ends, [getBuName] runs
    no command, leaves the files as they are, looks at no path but
    that of the configuration file, which it reads at most once and
    only after checking that it exists, and logs nothing but, at
    most, one message at debug level. *)
Theorem getBuName_frame (credName mid : value) (w : World) :
  exists es : list event,
    snd (getBuName CONFIG credName mid w) = after w es
    /\ commands es = []
    /\ (visited es = [] \/ visited es = [path] \/ visited es = [path; path])
    /\ (forall p, In (ReadFile p) es ->
          exists es1 es2, es = es1 ++ ReadFile p :: es2
                          /\ In (CheckedExistence p) es1)%list
    /\ (forall l, l <> debug -> messages l es = [])
    /\ (List.length (messages debug es) <= 1)%nat.
Proof.
  assert (W : after w [] = w).
  { unfold after. rewrite app_nil_r. now destruct w. }
  rewrite getBuName_cases.
  destruct (negb (truthy credName)).
  { exists []. cbn. rewrite W. repeat split; auto. contradiction. }
  destruct (negb (truthy mid)).
  { exists []. cbn. rewrite W. repeat split; auto. contradiction. }
  assert (R : forall p es2,
             In (ReadFile p)
                (CheckedExistence path :: ReadFile path :: es2) ->
             ~ In (ReadFile p) es2 ->
             exists es1 es3,
               (CheckedExistence path :: ReadFile path :: es2
                = es1 ++ ReadFile p :: es3
                /\ In (CheckedExistence p) es1)%list).
  { intros p es2 [I|[I|I]] N; [discriminate I | | contradiction].
    inversion I; subst. exists [CheckedExistence path], es2.
    split; [reflexivity | now left]. }
  assert (L : forall es, (forall l m, In (Logged l m) es -> l = debug) ->
                         forall l, l <> debug -> messages l es = []).
  { intros es. induction es as [|e r IH]; intros A l Hl; [reflexivity|].
    destruct e as [l' m| | |]; cbn [messages]; try (apply IH; auto;
      intros l0 m0 I0; apply (A l0 m0); now right).
    assert (l' = debug) by (apply (A l' m); now left). subst l'.
    destruct l; try contradiction; cbn [logged_at];
      (apply IH; auto; intros l0 m0 I0; apply (A l0 m0); now right). }
  destruct (files w path) as [|text|] eqn:Hf;
    [exists [CheckedExistence path]
    |destruct (JSON_parse text) as [config|e];
     [destruct (lookup_in_result config credName mid
                  (after w [CheckedExistence path; ReadFile path]))
        as [r [es [E [[->|[m [-> _]]] _]]]]; rewrite E; cbn [snd];
      rewrite after_after; eexists
     |exists [CheckedExistence path; ReadFile path]]
    |exists [CheckedExistence path; ReadFile path]];
    (split; [reflexivity|]); cbn [app commands visited];
    (split; [reflexivity|]); (split; [tauto|]);
    (split; [|split]).
  all: try (intros p I; first
              [ apply R; [exact I | cbn; intuition discriminate]
              | cbn in I; exfalso; intuition discriminate ]).
  all: try (apply L; intros l0 m0 I0; cbn in I0;
            repeat (destruct I0 as [I0|I0]; try discriminate I0);
            try contradiction; now inversion I0).
  all: cbn; lia.
Qed.

(** X8.  A configuration file that exists but does not hold JSON makes
    [getBuName] raise the [SyntaxError] of [JSON.parse], unwrapped,
    and a directory in its place makes it raise the error of the read;
    in both cases after the existence check and the read, and without
    any message. *)
Theorem getBuName_unreadable (credName mid : value) (w : World) :
  truthy credName = true ->
  truthy mid = true ->
  (forall text e,
      files w path = File text -> JSON_parse text = Throw e ->
      exn_class e = SyntaxError
      /\ getBuName CONFIG credName mid w
         = (Throw e, after w [CheckedExistence path; ReadFile path]))
  /\ (files w path = Directory ->
      exists e, getBuName CONFIG credName mid w
                = (Throw e, after w [CheckedExistence path; ReadFile path])).
Proof.
  intros Hc Hm. split.
  - intros text e Hf Hp. split.
    + unfold JSON_parse in Hp.
      destruct (parse_value _ text) as [[v rest]|];
        [destruct (skip_ws rest)|]; inversion Hp; reflexivity.
    + rewrite getBuName_cases, Hc, Hm, Hf, Hp. reflexivity.
  - intros Hf. eexists. rewrite getBuName_cases, Hc, Hm, Hf. reflexivity.
Qed.

End ResolverMore.

(** X6 at the sample configuration, the credential [C1] and the
    tenant id ['200']. *)
Lemma getBuName_sound_witness :
  exists (text : string) (config : value) (buName : string),
    let bus :=
      get_own (get_own (get_own config "credentials") "C1") "businessUnits" in
    files (Sample.world Sample.config_text) ".mcdev.json" = File text
    /\ JSON_parse text = Normal config
    /\ VStr "C1/bu2" = VStr ("C1" ++ "/" ++ buName)
    /\ In buName (object_keys bus)
    /\ loose_eq (get_own bus buName) (VStr "200") = Normal true
    /\ (forall other, In other (object_keys bus) ->
          exists b, loose_eq (get_own bus other) (VStr "200") = Normal b)
    /\ (forall other, In other (object_keys bus) ->
          loose_eq (get_own bus other) (VStr "200") = Normal true ->
          other = buName)
    /\ after (Sample.world Sample.config_text)
             [CheckedExistence ".mcdev.json"; ReadFile ".mcdev.json";
              Logged debug "BU Name is: C1/bu2"]
       = after (Sample.world Sample.config_text)
               [CheckedExistence ".mcdev.json"; ReadFile ".mcdev.json";
                Logged debug ("BU Name is: " ++ "C1" ++ "/" ++ buName)].
Proof.
  apply (getBuName_sound Sample.CONFIG (VStr "C1") (VStr "200")
           (Sample.world Sample.config_text)
           (after (Sample.world Sample.config_text)
                  [CheckedExistence ".mcdev.json"; ReadFile ".mcdev.json";
                   Logged debug "BU Name is: C1/bu2"])
           (VStr "C1/bu2")).
  - reflexivity.
  - discriminate.
Defined.

(** X8 at a configuration file that holds [{credentials:] and no
    more. *)
Lemma getBuName_unreadable_witness :
  exists e : exn,
    exn_class e = SyntaxError
    /\ getBuName Sample.CONFIG (VStr "C1") (VStr "100")
                 (Sample.world "{credentials:")
       = (Throw e,
          after (Sample.world "{credentials:")
                [CheckedExistence ".mcdev.json"; ReadFile ".mcdev.json"]).
Proof.
  exists (Exn SyntaxError "Unexpected token in JSON").
  apply (proj1 (getBuName_unreadable Sample.CONFIG (VStr "C1") (VStr "100")
                  (Sample.world "{credentials:") eq_refl eq_refl)
               "{credentials:");
    reflexivity.
Defined.

(* ================================================================= *)
(** ** More on the command executor *)

Section ExecutorMore.

Local Open Scope list_scope.


Lemma strip_zeros_mant (fuel : nat) :
  forall m e : Z, m <> 0%Z -> mant (strip_zeros fuel m e) <> 0%Z.
Proof.
  induction fuel as [|f IH]; intros m e Hm; cbn [strip_zeros].
  - exact Hm.
  - destruct (Z.eqb_spec m 0); [contradiction|].
    destruct (Z.eqb_spec (m mod 10) 0) as [E|E]; [|exact Hm].
    apply IH. intros D.
    pose proof (Z.div_mod m 10 ltac:(lia)). lia.
Qed.

(** The number of an exit code is that of 0 only for the code 0. *)
Lemma of_Z_zero (code : Z) : of_Z code = of_Z 0 -> code = 0%Z.
Proof.
  intros H. destruct (Z.eq_dec code 0) as [E|N]; [exact E|].
  exfalso. apply (strip_zeros_mant (S (Z.to_nat (Z.log2 (Z.abs code))))
                    code 0 N).
  unfold of_Z, mk_number in H. now rewrite H.
Qed.

Variables (preMsg postMsg : option string) (cmd : command) (w : World).

Local Abbreviation line := (command_line cmd).

(** X9.  The two modes agree: [execCommand] returns exactly when
    [execCommandReturnStatus] returns 0, which is when the process
    exits with code 0; when [execCommand] raises, the other returns a
    status other than 0; and both hand the same single command line
    to the shell, once. *)
Theorem exec_modes_agree :
  (fst (execCommand preMsg cmd postMsg w) = Normal tt
   <-> run w line = Exited 0)
  /\ (fst (execCommandReturnStatus preMsg cmd postMsg w)
      = Normal (VNum (of_Z 0))
      <-> run w line = Exited 0)
  /\ (forall e, fst (execCommand preMsg cmd postMsg w) = Throw e ->
        exists v, fst (execCommandReturnStatus preMsg cmd postMsg w) = Normal v
                  /\ v <> VNum (of_Z 0))
  /\ commands (trace (snd (execCommand preMsg cmd postMsg w)))
     = commands (trace w) ++ [line]
  /\ commands (trace (snd (execCommandReturnStatus preMsg cmd postMsg w)))
     = commands (trace w) ++ [line].
Proof.
  rewrite execCommand_unfold, execCommandReturnStatus_unfold.
  unfold execSync, when_given, Log, ret. cbn [run after].
  destruct (run w line) as [code| | |] eqn:R;
    [destruct (Z.eqb_spec code 0) as [->|N]; [destruct postMsg|]|..];
    unfold emit; cbn [files run trace fst snd];
    rewrite ?commands_app; destruct preMsg; cbn [announced commands app];
    rewrite ?app_nil_r;
    repeat match goal with |- _ /\ _ => split | |- _ <-> _ => split end;
    try reflexivity; try (intros H; discriminate H);
    try (intros H; congruence);
    try (intros e _; eexists; split; [reflexivity | discriminate]).
  all: try (intros H; inversion H as [H']; apply of_Z_zero in H'; congruence).
  all: try (unfold after; cbn [trace]; rewrite ?commands_app;
            cbn [commands app]; rewrite ?app_nil_r; reflexivity).
  all: intros e _; eexists; (split; [reflexivity|]); cbn [ex_status];
    intros H; inversion H as [H']; apply of_Z_zero in H'; congruence.
Qed.

End ExecutorMore.

(* ================================================================= *)
(** ** Installing the tools: [provideMCDevTools] *)

Section ToolsFacts.

Local Open Scope list_scope.







End ToolsFacts.

(* ================================================================= *)
(** ** More on the normalizer *)

Section NormalizerMore.

Local Open Scope list_scope.

Lemma Forall2_converts_keys (a b : props) :
  Forall2 converts_to a b -> obj_keys b = obj_keys a.
Proof.
  induction 1 as [|x y r r' [E _] F IH]; simpl; [reflexivity|].
  now rewrite E, IH.
Qed.

Lemma convert_key_object (k : string) (m : props) :
  exists msg, convert_key k (VObj m) = Throw (Exn TypeError msg).
Proof.
  unfold convert_key.
  destruct (Str.endsWith k "Children"); eexists; reflexivity.
Qed.

Lemma convert_key_falsy (k : string) (v : value) :
  truthy v = false -> convert_key k v = Normal v.
Proof.
  intros T. unfold convert_key, _convertEnvVars, _convertEnvChildVars.
  rewrite T. now destruct (Str.endsWith k "Children").
Qed.

(** What one key is converted to: itself when falsy, an object
    otherwise. *)
Lemma convert_key_shape (k : string) (v r : value) :
  convert_key k v = Normal r ->
  (truthy v = false /\ r = v) \/ (truthy v = true /\ exists m, r = VObj m).
Proof.
  intros H. destruct (truthy v) eqn:T.
  - right. split; [reflexivity|]. unfold convert_key in H.
    destruct (Str.endsWith k "Children").
    + now destruct (convertEnvChildVars_shape v r T H).
    + now destruct (convertEnvVars_shape v r T H).
  - left. rewrite (convert_key_falsy k v T) in H. inversion H. now split.
Qed.

(** The loop over properties that are falsy or objects, one of them
    an object: it raises at the first object. *)
Lemma convert_keys_object (todo : props) :
  forall done : props,
    NoDup (obj_keys (done ++ todo)) ->
    Forall (fun kv => truthy (snd kv) = false \/ exists m, snd kv = VObj m)
           todo ->
    Exists (fun kv => exists m, snd kv = VObj m) todo ->
    exists msg,
      fst (convert_keys (obj_keys todo) (done ++ todo))
      = Throw (Exn TypeError msg).
Proof.
  induction todo as [|[k v] r IH]; intros done D F X.
  - inversion X.
  - assert (Nk : ~ In k (obj_keys done)).
    { rewrite obj_keys_app in D. cbn in D.
      apply NoDup_remove_2 in D. rewrite in_app_iff in D. tauto. }
    cbn [obj_keys map fst convert_keys get_own].
    rewrite obj_lookup_app_skip by assumption.
    cbn [obj_lookup]. rewrite String.eqb_refl.
    inversion F as [|? ? [T|[m E]] Fr]; subst; cbn [snd] in *.
    + rewrite (convert_key_falsy k v T).
      rewrite obj_assign_own
        by (rewrite obj_keys_app, in_app_iff; right; now left).
      rewrite obj_replace_app_skip by assumption.
      cbn [obj_replace]. rewrite String.eqb_refl.
      specialize (IH (done ++ [(k, v)])).
      rewrite <- !app_assoc in IH. cbn [app] in IH. apply IH.
      * rewrite obj_keys_app in *. exact D.
      * exact Fr.
      * inversion X as [? ? [m E]|]; subst; [|assumption].
        cbn [snd] in E. subst v. discriminate T.
    + subst v. destruct (convert_key_object k m) as [msg ->].
      now exists msg.
Qed.

Lemma Forall2_converts_same (env : props) :
  (forall k v, In (k, v) env -> truthy v = false) ->
  Forall2 converts_to env env.
Proof.
  induction env as [|[k v] r IH]; intros H; constructor.
  - split; [reflexivity|]. cbn [fst snd].
    assert (T : truthy v = false) by (apply (H k); now left).
    unfold _convertEnvVars, _convertEnvChildVars. rewrite T.
    now destruct (Str.endsWith k "Children").
  - apply IH. intros k' v' I. apply (H k'). now right.
Qed.

(** X12.  [convertEnvVariables] is to be called once: after a call
    that returned, a second call on the same mapping raises a
    [TypeError] as soon as the mapping held one truthy value, that
    value now being a plain object; a mapping of falsy values only is
    left as it is by every call.  This is for a mapping none of whose
    lists has an entry named [__proto__]: such an entry can make an
    array the prototype of what the first call builds, which a second
    call then iterates. *)
Theorem convertEnvVariables_again (envVariables converted : props) :
  NoDup (obj_keys envVariables) ->
  Forall (fun kv => no_proto_entry (snd kv)) envVariables ->
  convertEnvVariables envVariables = (Normal tt, converted) ->
  ((exists k v, In (k, v) envVariables /\ truthy v = true) ->
   exists msg,
     fst (convertEnvVariables converted) = Throw (Exn TypeError msg))
  /\ ((forall k v, In (k, v) envVariables -> truthy v = false) ->
      converted = envVariables
      /\ convertEnvVariables converted = (Normal tt, converted)).
Proof.
  intros D _ H.
  destruct (convert_keys_inv envVariables [] converted D H) as [c [E F]].
  cbn [app] in E. subst c. split.
  - intros [k [v [I T]]]. unfold convertEnvVariables.
    apply (convert_keys_object converted []); cbn [app].
    + now rewrite (Forall2_converts_keys _ _ F).
    + clear -F. induction F as [|[k v] [k' v'] r r' [Ek Ev] F IH];
        constructor; [|exact IH].
      cbn [fst snd] in *. subst k'.
      destruct (convert_key_shape k v v' Ev) as [[T ->]|[_ M]]; auto.
    + clear -F I T. induction F as [|[k0 v0] [k' v'] r r' [Ek Ev] F IH];
        [contradiction|].
      cbn [fst snd] in *. destruct I as [I|I].
      * inversion I; subst. apply Exists_cons_hd. cbn [snd].
        destruct (convert_key_shape k v v' Ev) as [[T' _]|[_ M]];
          [congruence | exact M].
      * apply Exists_cons_tl. now apply IH.
  - intros A.
    pose proof (convert_keys_spec _ _ (Forall2_converts_same _ A) [] D) as S.
    cbn [app] in S. fold (convertEnvVariables envVariables) in S.
    rewrite H in S. inversion S. subst. split; [reflexivity | exact H].
Qed.

(** The loop of [convertSourceProperties] over well-formed records. *)
Lemma collect_source_properties_records (l : list (string * string)) :
  forall acc : props,
  exists m : props,
    collect_source_properties (map source_property l) acc = Normal m
    /\ (forall n, n <> "__proto__"%string ->
          obj_lookup m n
          = match last_value l n with
            | Some x => Some (VStr x)
            | None => obj_lookup acc n
            end)
    /\ (obj_lookup acc "__proto__" = None -> obj_lookup m "__proto__" = None).
Proof.
  induction l as [|[n0 v0] r IH]; intros acc.
  - exists acc. repeat split; auto.
  - cbn [map collect_source_properties source_property fst snd get_prop
         get_own obj_lookup cbind to_string].
    change (String.eqb "copado__API_Name__c" "copado__API_Name__c") with true.
    change (String.eqb "copado__API_Name__c" "copado__Value__c") with false.
    change (String.eqb "copado__Value__c" "copado__Value__c") with true.
    cbv iota.
    destruct (IH (obj_assign acc n0 (VStr v0))) as [m [Hm [Hl Hp]]].
    exists m. split; [exact Hm|]. split.
    + intros n Hn. rewrite (Hl n Hn). cbn [last_value].
      destruct (last_value r n); [reflexivity|].
      destruct (String.eqb_spec n0 n) as [->|N].
      * rewrite obj_lookup_assign by assumption.
        now rewrite String.eqb_refl.
      * now apply obj_lookup_assign_other.
    + intros Hacc. apply Hp.
      destruct (String.eqb_spec n0 "__proto__") as [->|N].
      * now rewrite obj_assign_proto.
      * now rewrite obj_lookup_assign_other.
Qed.

(** X13.  [convertSourceProperties] maps the API name of every record
    to the value of the last record of that name (a record named
    [__proto__] leaves no property).  Unlike the two transforms of the
    environment variables it has no guard: [null], [undefined] and
    whatever else is neither an array nor a string make it raise a
    [TypeError]. *)
Theorem convertSourceProperties_mapping (l : list (string * string)) :
  (exists m : props,
      convertSourceProperties (VArr (map source_property l)) = Normal (VObj m)
      /\ (forall n, n <> "__proto__"%string ->
            obj_lookup m n = option_map VStr (last_value l n))
      /\ obj_lookup m "__proto__" = None)
  /\ (forall v : value,
         is_string v = false -> (forall items, v <> VArr items) ->
         exists msg, convertSourceProperties v = Throw (Exn TypeError msg)).
Proof.
  split.
  - destruct (collect_source_properties_records l []) as [m [Hm [Hl Hp]]].
    exists m. split; [|split].
    + unfold convertSourceProperties. cbn [iterate cbind]. now rewrite Hm.
    + intros n Hn. rewrite (Hl n Hn). now destruct (last_value l n).
    + now apply Hp.
  - intros v S A. unfold convertSourceProperties.
    destruct v; try discriminate S; try (eexists; reflexivity).
    exfalso. now apply (A items).
Qed.

(** The loop of the flat-list transform stops at the first item that
    is [null] or [undefined]. *)
Lemma collect_vars_nullish (l1 l2 : list value) (item : value) :
  is_nullish item = true ->
  Forall (fun x => is_nullish x = false) l1 ->
  forall acc, exists msg,
    collect_vars (l1 ++ item :: l2) acc = Throw (Exn TypeError msg).
Proof.
  intros N F. induction F as [|x r Hx F IH]; intros acc.
  - cbn [app collect_vars]. destruct item; try discriminate N;
      cbn [get_prop cbind]; eexists; reflexivity.
  - cbn [app collect_vars].
    destruct x; try discriminate Hx; cbn [get_prop cbind]; apply IH.
Qed.

(** X14.  What makes the flat-list transform raise: a string that is
    not JSON (the [SyntaxError] of [JSON.parse], unwrapped), a truthy
    input that is neither a string nor an array, such as the mapping
    the transform itself returns (a [TypeError]), and an item that is
    [null] or [undefined] (a [TypeError]). *)
Theorem convertEnvVars_errors :
  (forall text e,
      text <> EmptyString -> JSON_parse text = Throw e ->
      _convertEnvVars (VStr text) = Throw e /\ exn_class e = SyntaxError)
  /\ (forall v,
         truthy v = true -> is_string v = false ->
         (forall items, v <> VArr items) ->
         exists msg, _convertEnvVars v = Throw (Exn TypeError msg))
  /\ (forall l1 l2 item,
         is_nullish item = true ->
         Forall (fun x => is_nullish x = false) l1 ->
         exists msg,
           _convertEnvVars (VArr (l1 ++ item :: l2))
           = Throw (Exn TypeError msg)).
Proof.
  split; [|split].
  - intros text e N P. split.
    + unfold _convertEnvVars. destruct text; [contradiction|].
      cbn [truthy negb]. now rewrite P.
    + unfold JSON_parse in P.
      destruct (parse_value _ text) as [[v rest]|];
        [destruct (skip_ws rest)|]; inversion P; reflexivity.
  - intros v T S A. unfold _convertEnvVars. rewrite T. cbn [negb].
    destruct v; try discriminate S; try discriminate T;
      try (cbn; eexists; reflexivity).
    exfalso. now apply (A items).
  - intros l1 l2 item N F. unfold _convertEnvVars.
    cbn [truthy negb iterate cbind].
    destruct (collect_vars_nullish l1 l2 item N F []) as [msg E].
    exists msg. now rewrite E.
Qed.

End NormalizerMore.

(** X12 at a mapping with one list of variables. *)
Lemma convertEnvVariables_again_witness :
  exists msg,
    fst (convertEnvVariables
           [("environmentVariables", VObj [("X", VStr "2")])])
    = Throw (Exn TypeError msg).
Proof.
  refine (proj1 (convertEnvVariables_again
                   [("environmentVariables", VStr Sample.twice_X)]
                   [("environmentVariables", VObj [("X", VStr "2")])]
                   _ _ _) _).
  - repeat constructor. intros [].
  - repeat constructor; discriminate.
  - reflexivity.
  - exists "environmentVariables"%string, (VStr Sample.twice_X).
    split; [now left | reflexivity].
Defined.

(* ================================================================= *)
(** ** [JSON.parse] reads what [JSON.stringify] writes: strings *)

Section RoundTripStrings.

(** The cases of a character. *)
Ltac each_char c :=
  destruct c as [[|] [|] [|] [|] [|] [|] [|] [|]].

Lemma string_body_escape (c : ascii) (X : string) :
  string_body (escape c ++ X) = JS.push (unit_of c) (string_body X).
Proof. each_char c; reflexivity. Qed.

Lemma encode_unit_of (c : ascii) (l : list jchar) :
  encode None (unit_of c :: l) = String c (encode None l).
Proof. each_char c; reflexivity. Qed.

Lemma string_body_escape_all (s X : string) :
  string_body (escape_all s ++ Str.dquote ++ X)
  = Some (map unit_of (list_ascii_of_string s), X).
Proof.
  induction s as [|c t IH]; [reflexivity|].
  cbn [escape_all list_ascii_of_string map].
  rewrite append_assoc, string_body_escape, IH. reflexivity.
Qed.

Lemma encode_units (s : string) :
  encode None (map unit_of (list_ascii_of_string s)) = s.
Proof.
  induction s as [|c t IH]; [reflexivity|].
  cbn [list_ascii_of_string map]. now rewrite encode_unit_of, IH.
Qed.

Lemma quote_body_clean (s : string) :
  clean s = true -> quote_body s = escape_all s.
Proof.
  induction s as [|c1 t IH]; [reflexivity|].
  cbn [clean quote_body escape_all].
  destruct t as [|c2 [|c3 r]]; intros H.
  - reflexivity.
  - now rewrite IH.
  - destruct (lone_surrogate c1 c2 c3); [discriminate H|]. now rewrite IH.
Qed.

(** A quoted clean string is read back as the string. *)
Lemma string_literal_quote (s X : string) :
  clean s = true ->
  string_literal (quote_body s ++ Str.dquote ++ X) = Some (s, X).
Proof.
  intros C. unfold string_literal.
  rewrite (quote_body_clean s C), string_body_escape_all, encode_units.
  reflexivity.
Qed.

End RoundTripStrings.

(* ================================================================= *)
(** ** [JSON.parse] reads what [JSON.stringify] writes: numbers *)

Section RoundTripNumbers.

Local Open Scope Z_scope.

Ltac each_char c :=
  destruct c as [[|] [|] [|] [|] [|] [|] [|] [|]].

Lemma number_literal_stages (s : string) :
  number_literal s
  = let (neg, s1) := sign_of s in
    let (ip, r1) := take_digits s1 in
    match int_ok_of ip, frac_of r1 with
    | true, Some (fp, r2) =>
        match exp_of r2 with
        | Some (e, rest) =>
            let m := digits_value (ip ++ fp) 0 in
            Some (mk_number (if neg then - m else m)
                            (e - Z.of_nat (String.length fp)), rest)
        | None => None
        end
    | _, _ => None
    end.
Proof. reflexivity. Qed.

Lemma delimited_no_digit (rest : string) :
  delimited rest = true -> no_digit rest = true.
Proof.
  destruct rest as [|c r]; [reflexivity|]. cbn.
  destruct (is_digit c); [discriminate | reflexivity].
Qed.

Lemma take_digits_app (ds rest : string) :
  all_digits ds = true -> no_digit rest = true ->
  take_digits (ds ++ rest) = (ds, rest).
Proof.
  intros D N. induction ds as [|c t IH]; cbn [append].
  - destruct rest as [|c r]; [reflexivity|]. cbn in N |- *.
    now destruct (is_digit c).
  - cbn in D. apply andb_true_iff in D. destruct D as [Dc Dt].
    cbn [take_digits]. rewrite Dc, (IH Dt). reflexivity.
Qed.

Lemma sign_of_digit (c : ascii) (X : string) :
  is_digit c = true -> sign_of (String c X) = (false, String c X).
Proof. intros H. each_char c; try discriminate H; reflexivity. Qed.

Lemma int_ok_of_digit (c : ascii) (X : string) :
  is_digit c = true ->
  Ascii.eqb c "0" = false \/ X = EmptyString ->
  int_ok_of (String c X) = true.
Proof.
  intros H [Hz | ->].
  - each_char c; try discriminate H; try discriminate Hz; reflexivity.
  - each_char c; try discriminate H; reflexivity.
Qed.

Lemma frac_of_delimited (r : string) :
  delimited r = true -> frac_of r = Some (EmptyString, r).
Proof.
  destruct r as [|c r]; [reflexivity|]. intros H.
  each_char c; try discriminate H; reflexivity.
Qed.

Lemma frac_of_e (c : ascii) (r : string) :
  Ascii.eqb c "e" = true ->
  frac_of (String c r) = Some (EmptyString, String c r).
Proof. intros H. each_char c; try discriminate H; reflexivity. Qed.

Lemma frac_of_dot (fp rest : string) :
  all_digits fp = true -> fp <> EmptyString -> no_digit rest = true ->
  frac_of ("." ++ fp ++ rest) = Some (fp, rest).
Proof.
  intros D N R. cbn [append frac_of].
  rewrite (take_digits_app fp rest D R). destruct fp; [contradiction|].
  reflexivity.
Qed.

Lemma exp_of_delimited (r : string) :
  delimited r = true -> exp_of r = Some (0, r).
Proof.
  destruct r as [|c r]; [reflexivity|]. intros H.
  each_char c; try discriminate H; reflexivity.
Qed.

Lemma exp_of_e (neg : bool) (ds rest : string) :
  all_digits ds = true -> ds <> EmptyString -> no_digit rest = true ->
  exp_of ("e" ++ (if neg then "-" else "+") ++ ds ++ rest)
  = Some (if neg then - digits_value ds 0 else digits_value ds 0, rest).
Proof.
  intros D N R. destruct neg; cbn [append exp_of Ascii.eqb Bool.eqb orb];
    rewrite (take_digits_app ds rest D R); destruct ds;
    try contradiction; reflexivity.
Qed.

Lemma digits_value_app (a b : string) (acc : Z) :
  digits_value (a ++ b) acc = digits_value b (digits_value a acc).
Proof.
  revert acc. induction a as [|c t IH]; intros acc; [reflexivity|].
  cbn [append digits_value]. apply IH.
Qed.

Lemma length_repeat_char (c : ascii) (n : nat) :
  String.length (Str.repeat_char c n) = n.
Proof. induction n; cbn; congruence. Qed.

Lemma all_digits_zeros (n : nat) : all_digits (Str.repeat_char "0" n) = true.
Proof. induction n; cbn; auto. Qed.

Lemma digits_value_zeros (n : nat) (acc : Z) :
  digits_value (Str.repeat_char "0" n) acc = acc * 10 ^ Z.of_nat n.
Proof.
  revert acc. induction n as [|n IH]; intros acc.
  - cbn. lia.
  - cbn [Str.repeat_char digits_value]. rewrite IH.
    rewrite Nat2Z.inj_succ, Z.pow_succ_r by lia.
    change (Z.of_N (N_of_ascii "0") - 48) with 0. ring.
Qed.

Lemma all_digits_app (a b : string) :
  all_digits (a ++ b) = all_digits a && all_digits b.
Proof.
  induction a as [|c t IH]; [reflexivity|].
  cbn [append all_digits]. now rewrite IH, andb_assoc.
Qed.

Lemma length_app (a b : string) :
  String.length (a ++ b) = (String.length a + String.length b)%nat.
Proof. induction a as [|c t IH]; cbn; congruence. Qed.

Lemma append_nil (a : string) : (a ++ "")%string = a.
Proof. induction a as [|c t IH]; cbn; congruence. Qed.

(** [number_literal] reads every number written as a sign, an
    integer part without leading zero, a fraction and an exponent. *)
Lemma number_literal_parts (neg : bool) (c : ascii) (ip' fp : string)
      (ex : option (bool * string)) (rest : string) :
  is_digit c = true ->
  all_digits ip' = true ->
  Ascii.eqb c "0" = false \/ ip' = EmptyString ->
  all_digits fp = true ->
  match ex with
  | None => True
  | Some (_, ed) => all_digits ed = true /\ ed <> EmptyString
  end ->
  delimited rest = true ->
  number_literal ((if neg then "-" else "") ++ String c ip'
                  ++ frac_text fp ++ exp_text ex ++ rest)
  = Some (mk_number (if neg then - digits_value (String c ip' ++ fp) 0
                     else digits_value (String c ip' ++ fp) 0)
                    (exp_value ex - Z.of_nat (String.length fp)), rest).
Proof.
  intros Dc Di Lz Df De R.
  assert (Nr : no_digit rest = true) by now apply delimited_no_digit.
  assert (Ne : no_digit (exp_text ex ++ rest) = true).
  { destruct ex as [[eneg ed]|]; [reflexivity | exact Nr]. }
  assert (Nf : no_digit (frac_text fp ++ exp_text ex ++ rest) = true).
  { destruct fp; [exact Ne | reflexivity]. }
  assert (E : exp_of (exp_text ex ++ rest) = Some (exp_value ex, rest)).
  { destruct ex as [[eneg ed]|]; cbn [exp_text exp_value].
    - rewrite !append_assoc. destruct De as [De1 De2].
      now apply exp_of_e.
    - now apply exp_of_delimited. }
  assert (F : frac_of (frac_text fp ++ exp_text ex ++ rest)
              = Some (fp, exp_text ex ++ rest)).
  { destruct fp as [|f fp']; cbn [frac_text].
    - destruct ex as [[eneg ed]|]; cbn [exp_text].
      + now apply frac_of_e.
      + now apply frac_of_delimited.
    - rewrite append_assoc. apply frac_of_dot; [exact Df | discriminate|].
      exact Ne. }
  assert (T : take_digits (String c ip' ++ frac_text fp ++ exp_text ex ++ rest)
              = (String c ip', frac_text fp ++ exp_text ex ++ rest)).
  { apply take_digits_app; [|exact Nf]. cbn. now rewrite Dc, Di. }
  rewrite number_literal_stages.
  destruct neg.
  - change ("-" ++ String c ip' ++ frac_text fp ++ exp_text ex ++ rest)%string
      with (String "-" (String c ip' ++ frac_text fp ++ exp_text ex ++ rest)).
    cbn [sign_of]. rewrite T, (int_ok_of_digit c ip' Dc Lz), F, E.
    reflexivity.
  - change ("" ++ String c ip' ++ frac_text fp ++ exp_text ex ++ rest)%string
      with (String c (ip' ++ frac_text fp ++ exp_text ex ++ rest)).
    rewrite (sign_of_digit c _ Dc).
    change (String c (ip' ++ frac_text fp ++ exp_text ex ++ rest))
      with (String c ip' ++ frac_text fp ++ exp_text ex ++ rest)%string.
    rewrite T, (int_ok_of_digit c ip' Dc Lz), F, E. reflexivity.
Qed.

End RoundTripNumbers.

(* ================================================================= *)
(** ** The digits of an integer *)

Section Digits.

Local Open Scope Z_scope.

Lemma digits_value_uint (d : Decimal.uint) (acc : Z) :
  digits_value (NilEmpty.string_of_uint d) acc = uval d acc.
Proof.
  revert acc.
  induction d as [|d IH|d IH|d IH|d IH|d IH|d IH|d IH|d IH|d IH|d IH];
    intros acc; cbn [NilEmpty.string_of_uint digits_value uval];
    [reflexivity | rewrite IH; reflexivity ..].
Qed.

Lemma all_digits_uint (d : Decimal.uint) :
  all_digits (NilEmpty.string_of_uint d) = true.
Proof.
  induction d as [|d IH|d IH|d IH|d IH|d IH|d IH|d IH|d IH|d IH|d IH];
    cbn [NilEmpty.string_of_uint all_digits]; [reflexivity | exact IH ..].
Qed.

Lemma pos_uval (d : Decimal.uint) (acc : positive) :
  Zpos (Pos.of_uint_acc d acc) = uval d (Zpos acc).
Proof.
  revert acc.
  induction d as [|d IH|d IH|d IH|d IH|d IH|d IH|d IH|d IH|d IH|d IH];
    intros acc; cbn [Pos.of_uint_acc uval];
    [reflexivity | rewrite IH; f_equal; lia ..].
Qed.

Lemma N_uval (d : Decimal.uint) : Z.of_N (N.of_uint d) = uval d 0.
Proof.
  unfold N.of_uint.
  induction d as [|d IH|d IH|d IH|d IH|d IH|d IH|d IH|d IH|d IH|d IH];
    cbn [Pos.of_uint uval];
    [reflexivity | exact IH | cbn [Z.of_N]; rewrite pos_uval; reflexivity ..].
Qed.

(** The digits of a natural number give it back. *)
Lemma digits_of_value (z : Z) : 0 <= z -> digits_value (digits_of z) 0 = z.
Proof.
  intros Hz. unfold digits_of.
  assert (E : forall d, digits_value (NilZero.string_of_uint d) 0 = uval d 0).
  { intros d. destruct d; [reflexivity | apply digits_value_uint ..]. }
  rewrite E, <- N_uval, DecimalN.Unsigned.of_to. lia.
Qed.

Lemma digits_of_all (z : Z) : all_digits (digits_of z) = true.
Proof.
  unfold digits_of. destruct (N.to_uint (Z.to_N z));
    [reflexivity | apply all_digits_uint ..].
Qed.

(** The digits of a positive number start with a digit other than 0. *)
Lemma digits_of_head (z : Z) :
  0 < z ->
  exists c r, digits_of z = String c r /\ is_digit c = true
              /\ Ascii.eqb c "0" = false /\ all_digits r = true.
Proof.
  intros Hz.
  pose proof (digits_of_value z ltac:(lia)) as V.
  pose proof (digits_of_all z) as A.
  unfold digits_of in *.
  pose proof (DecimalN.Unsigned.to_of (N.to_uint (Z.to_N z))) as U.
  rewrite DecimalN.Unsigned.of_to in U.
  set (d := N.to_uint (Z.to_N z)) in *.
  unfold Decimal.unorm in U.
  pose proof (DecimalFacts.nzhead_nonzero d) as NZ.
  destruct (Decimal.nzhead d) eqn:E;
    [ rewrite U in V; cbn in V; lia
    | exfalso; now apply (NZ u)
    | rewrite U in *; do 2 eexists; split; [reflexivity|];
      split; [reflexivity|]; split; [reflexivity | exact A] .. ].
Qed.

(** *** Trailing zeros *)

Lemma strip_zeros_shift (j fuel : nat) (m e : Z) :
  m <> 0 -> m mod 10 <> 0 -> (j < fuel)%nat ->
  strip_zeros fuel (m * 10 ^ Z.of_nat j) e = Num m (e + Z.of_nat j).
Proof.
  intros Hm Hd. revert fuel e.
  induction j as [|j IH]; intros [|f] e Hf; try lia.
  - cbn [strip_zeros]. rewrite Z.pow_0_r, Z.mul_1_r.
    destruct (Z.eqb_spec m 0); [contradiction|].
    destruct (Z.eqb_spec (m mod 10) 0); [contradiction|].
    f_equal. cbn. lia.
  - cbn [strip_zeros].
    rewrite Nat2Z.inj_succ, Z.pow_succ_r by lia.
    replace (m * (10 * 10 ^ Z.of_nat j)) with (m * 10 ^ Z.of_nat j * 10)
      by ring.
    assert (P : 0 < 10 ^ Z.of_nat j) by (apply Z.pow_pos_nonneg; lia).
    destruct (Z.eqb_spec (m * 10 ^ Z.of_nat j * 10) 0) as [Z0|_]; [nia|].
    rewrite Z.mod_mul by lia. cbn [Z.eqb].
    rewrite Z.div_mul by lia.
    rewrite (IH f (e + 1)) by lia. f_equal. lia.
Qed.

Lemma mk_number_shift (j : nat) (m e : Z) :
  m <> 0 -> m mod 10 <> 0 ->
  mk_number (m * 10 ^ Z.of_nat j) e = Num m (e + Z.of_nat j).
Proof.
  intros Hm Hd. unfold mk_number. apply strip_zeros_shift; auto.
  assert (P : 0 < 10 ^ Z.of_nat j) by (apply Z.pow_pos_nonneg; lia).
  assert (L : 2 ^ Z.of_nat j <= Z.abs (m * 10 ^ Z.of_nat j)).
  { rewrite Z.abs_mul, (Z.abs_eq (10 ^ _)) by lia.
    assert (2 ^ Z.of_nat j <= 10 ^ Z.of_nat j)
      by (apply Z.pow_le_mono_l; lia).
    nia. }
  apply Z.log2_le_mono in L. rewrite Z.log2_pow2 in L by lia. lia.
Qed.

Lemma strip_zeros_normal (fuel : nat) (m e : Z) :
  m <> 0 -> Z.abs m < 2 ^ Z.of_nat fuel ->
  mant (strip_zeros fuel m e) mod 10 <> 0.
Proof.
  revert m e. induction fuel as [|f IH]; intros m e Hm Hb.
  - cbn in Hb. lia.
  - cbn [strip_zeros].
    destruct (Z.eqb_spec m 0); [contradiction|].
    destruct (Z.eqb_spec (m mod 10) 0) as [E|E]; [|exact E].
    rewrite Nat2Z.inj_succ, Z.pow_succ_r in Hb by lia.
    pose proof (Z.div_mod m 10 ltac:(lia)) as D.
    apply IH; lia.
Qed.

(** What a number in normal form looks like. *)
Lemma normal_form (m e : Z) :
  normalize (Num m e) = Num m e ->
  (m = 0 -> e = 0) /\ (m <> 0 -> m mod 10 <> 0).
Proof.
  unfold normalize, mk_number. cbn [mant expo]. intros H. split.
  - intros ->. cbn in H. now inversion H.
  - intros Hm.
    pose proof (strip_zeros_normal (S (Z.to_nat (Z.log2 (Z.abs m)))) m e Hm)
      as N.
    rewrite H in N. apply N.
    pose proof (Z.log2_spec (Z.abs m) ltac:(lia)) as [_ S].
    rewrite Nat2Z.inj_succ, Z2Nat.id by apply Z.log2_nonneg. exact S.
Qed.

(** [mk_number] gives numbers in normal form. *)
Lemma normalize_mk_number (s p : Z) :
  normalize (mk_number s p) = mk_number s p.
Proof.
  destruct (Z.eq_dec s 0) as [->|Hs]; [reflexivity|].
  unfold mk_number at 2.
  pose proof (strip_zeros_mant (S (Z.to_nat (Z.log2 (Z.abs s)))) s p Hs)
    as M.
  pose proof (strip_zeros_normal (S (Z.to_nat (Z.log2 (Z.abs s)))) s p Hs)
    as N.
  unfold mk_number.
  destruct (strip_zeros (S (Z.to_nat (Z.log2 (Z.abs s)))) s p) as [m e].
  cbn [mant expo] in *. unfold normalize. cbn [mant expo].
  replace m with (m * 10 ^ Z.of_nat 0) at 1 by (cbn; lia).
  rewrite mk_number_shift; [f_equal; cbn; lia | exact M |].
  apply N.
  pose proof (Z.log2_spec (Z.abs s) ltac:(lia)) as [_ S].
  rewrite Nat2Z.inj_succ, Z2Nat.id by apply Z.log2_nonneg. exact S.
Qed.

(** A number the runtime prints as it stands is in normal form, and
    its text is that of its decimal. *)
Lemma plain_number_text (x : number) :
  plain_number x ->
  normalize x = x /\ number_to_string x = decimal_text x.
Proof.
  intros [C F]. split.
  - rewrite <- C at 2. rewrite <- C at 1. unfold canon.
    destruct (canon_parts x) as [s p]. apply normalize_mk_number.
  - unfold number_to_string. unfold is_infinite in F.
    destruct (round64 x); [now rewrite C | discriminate F].
Qed.

End Digits.

(* ================================================================= *)
(** ** [JSON.parse] reads the text of a number *)

Section RoundTripNumber.

Local Open Scope Z_scope.

Lemma split_at_spec (n : nat) (s : string) :
  (n <= String.length s)%nat ->
  exists a b, Str.split_at n s = (a, b) /\ s = (a ++ b)%string
              /\ String.length a = n.
Proof.
  revert s. induction n as [|n IH]; intros s Hn.
  - exists EmptyString, s. destruct s; now repeat split.
  - destruct s as [|c r]; [cbn in Hn; lia|].
    destruct (IH r ltac:(cbn in Hn; lia)) as (a & b & E & -> & L).
    exists (String c a), b. cbn [Str.split_at]. rewrite E.
    repeat split. cbn. now rewrite L.
Qed.

Lemma frac_text_some (fp : string) :
  fp <> EmptyString -> frac_text fp = ("." ++ fp)%string.
Proof. destruct fp; [contradiction | reflexivity]. Qed.

Lemma digits_of_nonempty (z : Z) : digits_of z <> EmptyString.
Proof.
  unfold digits_of. destruct (N.to_uint (Z.to_N z)); discriminate.
Qed.

Lemma signed_abs (m p : Z) :
  (if m <? 0 then - (Z.abs m * p) else Z.abs m * p) = m * p.
Proof. destruct (Z.ltb_spec m 0); lia. Qed.

(** The parts of a number, with the text they make up and the number
    they stand for. *)
Lemma number_parts_intro (neg : bool) (c : ascii) (ip' fp : string)
      (ex : option (bool * string)) (t : string) (x : number) :
  is_digit c = true ->
  all_digits ip' = true ->
  Ascii.eqb c "0" = false \/ ip' = EmptyString ->
  all_digits fp = true ->
  match ex with
  | None => True
  | Some (_, ed) => all_digits ed = true /\ ed <> EmptyString
  end ->
  t = ((if neg then "-" else "") ++ String c ip'
       ++ frac_text fp ++ exp_text ex)%string ->
  mk_number (if neg then - digits_value (String c ip' ++ fp) 0
             else digits_value (String c ip' ++ fp) 0)
            (exp_value ex - Z.of_nat (String.length fp)) = x ->
  number_parts t x.
Proof.
  intros Dc Di Lz Df De T X. exists neg, c, ip', fp, ex.
  repeat (split; [assumption|]). exact X.
Qed.

(** The text of a number in normal form is made of such parts. *)
Lemma decimal_text_parts (x : number) :
  normalize x = x -> number_parts (decimal_text x) x.
Proof.
  destruct x as [m e]. intros N.
  destruct (normal_form m e N) as [Z0 NZ].
  unfold decimal_text. cbn [mant expo]. cbv zeta.
  destruct (Z.eqb_spec m 0) as [->|Hm].
  { rewrite (Z0 eq_refl).
    apply (number_parts_intro false "0" "" "" None); auto. }
  specialize (NZ Hm).
  destruct (digits_of_head (Z.abs m) ltac:(lia))
    as (c & s' & S & Dc & Cz & Ds).
  pose proof (digits_of_value (Z.abs m) ltac:(lia)) as V.
  rewrite S in V. rewrite S.
  assert (M : mk_number m e = Num m e) by exact N.
  assert (Sg : forall p, (if m <? 0 then - (Z.abs m * p) else Z.abs m * p)
                         = m * p) by (intros p; apply signed_abs).
  assert (Sg1 : (if m <? 0 then - Z.abs m else Z.abs m) = m)
    by (destruct (Z.ltb_spec m 0); lia).
  remember (String.length (String c s')) as k eqn:K.
  assert (K1 : k = Datatypes.S (String.length s')) by (subst k; reflexivity).
  destruct ((Z.of_nat k <=? Z.of_nat k + e) && (Z.of_nat k + e <=? 21)) eqn:C1.
  { (* an integer, with the zeros of the exponent *)
    apply andb_prop in C1 as [C1 C1']. apply Z.leb_le in C1, C1'.
    replace (Z.of_nat k + e - Z.of_nat k) with e by lia.
    apply (number_parts_intro (m <? 0) c
             (s' ++ Str.repeat_char "0" (Z.to_nat e)) "" None);
      auto.
    - rewrite all_digits_app, Ds. apply all_digits_zeros.
    - cbn [frac_text exp_text append]. now rewrite !append_nil.
    - rewrite append_nil.
      change (String c (s' ++ Str.repeat_char "0" (Z.to_nat e)))
        with (String c s' ++ Str.repeat_char "0" (Z.to_nat e))%string.
      rewrite digits_value_app, V, digits_value_zeros, Sg.
      cbn [exp_value String.length Z.of_nat]. rewrite Z.sub_0_r.
      rewrite mk_number_shift by assumption. f_equal. lia. }
  destruct ((0 <? Z.of_nat k + e) && (Z.of_nat k + e <=? 21)) eqn:C2.
  { (* a point inside the digits *)
    apply andb_prop in C2 as [C2 C2']. rewrite C2', andb_true_r in C1.
    apply Z.leb_gt in C1. apply Z.ltb_lt in C2. apply Z.leb_le in C2'.
    destruct (split_at_spec (Z.to_nat (Z.of_nat k + e)) (String c s')
                ltac:(rewrite <- K; lia)) as (a & b & E & Sp & L).
    rewrite E.
    destruct a as [|c' a']; [cbn in L; lia|].
    cbn [append] in Sp. injection Sp as <- Sp'.
    assert (B : b <> EmptyString).
    { intros ->. rewrite append_nil in Sp'. subst a'.
      cbn [String.length] in L. lia. }
    pose proof Ds as Da. rewrite Sp', all_digits_app in Da.
    apply andb_prop in Da as [Da Db].
    apply (number_parts_intro (m <? 0) c a' b None); auto.
    - now rewrite (frac_text_some b B), append_nil.
    - change (String c a' ++ b)%string with (String c (a' ++ b)).
      rewrite <- Sp', V, Sg1. cbn [exp_value]. rewrite <- M. f_equal.
      rewrite Sp', length_app in K1. cbn [String.length] in L. lia. }
  destruct ((-6 <? Z.of_nat k + e) && (Z.of_nat k + e <=? 0)) eqn:C3.
  { (* zeros between the point and the digits *)
    apply andb_prop in C3 as [C3 C3']. apply Z.ltb_lt in C3.
    apply Z.leb_le in C3'.
    set (j := Z.to_nat (- (Z.of_nat k + e))).
    assert (F : (Str.repeat_char "0" j ++ String c s')%string
                <> EmptyString) by (destruct j; discriminate).
    apply (number_parts_intro (m <? 0) "0" ""
             (Str.repeat_char "0" j ++ String c s') None); auto.
    - rewrite all_digits_app, all_digits_zeros. cbn. now rewrite Dc, Ds.
    - now rewrite (frac_text_some _ F), append_nil.
    - change (String "0" "" ++ Str.repeat_char "0" j ++ String c s')%string
        with (String "0" (Str.repeat_char "0" j ++ String c s')).
      change (String "0" (Str.repeat_char "0" j ++ String c s'))
        with (Str.repeat_char "0" (Datatypes.S j) ++ String c s')%string.
      rewrite digits_value_app, digits_value_zeros, Z.mul_0_l, V, Sg1.
      cbn [exp_value]. rewrite <- M. f_equal.
      rewrite length_app, length_repeat_char, <- K. lia. }
  (* one digit, a point, the others and an exponent *)
  cbn [Str.split_at].
  set (e' := Z.of_nat k + e - 1).
  assert (Ev : exp_value (Some (e' <? 0, digits_of (Z.abs e'))) = e').
  { cbn [exp_value]. rewrite digits_of_value by lia.
    destruct (Z.ltb_spec e' 0); lia. }
  destruct s' as [|c2 s2].
  - apply (number_parts_intro (m <? 0) c "" ""
             (Some (e' <? 0, digits_of (Z.abs e')))); auto.
    + split; [apply digits_of_all | apply digits_of_nonempty].
    + rewrite Ev. cbn [append] in *. rewrite V, Sg1, <- M. f_equal.
      subst e' k. cbn [String.length]. lia.
  - apply (number_parts_intro (m <? 0) c "" (String c2 s2)
             (Some (e' <? 0, digits_of (Z.abs e')))); auto.
    + split; [apply digits_of_all | apply digits_of_nonempty].
    + rewrite Ev. cbn [append] in *. rewrite V, Sg1, <- M. f_equal.
      subst e' k. cbn [String.length]. lia.
Qed.


Lemma number_to_string_parts (x : number) :
  plain_number x -> number_parts (number_to_string x) x.
Proof.
  intros P. destruct (plain_number_text x P) as [N ->].
  now apply decimal_text_parts.
Qed.

(** The text of a number the runtime holds is read back as the
    number. *)
Lemma number_literal_to_string (x : number) (rest : string) :
  plain_number x -> delimited rest = true ->
  number_literal (number_to_string x ++ rest) = Some (x, rest).
Proof.
  intros N R.
  destruct (number_to_string_parts x N)
    as (neg & c & ip' & fp & ex & Dc & Di & Lz & Df & De & -> & <-).
  unfold number_text. rewrite !append_assoc.
  now apply number_literal_parts.
Qed.

(** It starts with a digit or with the sign. *)
Lemma number_to_string_head (x : number) :
  plain_number x ->
  exists c r, number_to_string x = String c r
              /\ (is_digit c = true \/ c = "-"%char).
Proof.
  intros N.
  destruct (number_to_string_parts x N)
    as (neg & c & ip' & fp & ex & Dc & _ & _ & _ & _ & -> & _).
  unfold number_text. destruct neg; cbn [append]; eauto.
Qed.

End RoundTripNumber.

(* ================================================================= *)
(** ** [JSON.parse] reads what [JSON.stringify] writes: values *)

Section RoundTripValues.

Local Open Scope list_scope.
Local Open Scope string_scope.

Lemma value_ind' (P : value -> Prop) :
  P VUndef -> P VNull -> (forall b, P (VBool b)) -> (forall n, P (VNum n)) ->
  (forall s, P (VStr s)) ->
  (forall items, Forall P items -> P (VArr items)) ->
  (forall o, Forall (fun kv => P (snd kv)) o -> P (VObj o)) ->
  forall v, P v.
Proof.
  intros HU HN HB HNum HS HA HO. fix IH 1.
  intros [ | | b | n | s | items | o].
  - exact HU.
  - exact HN.
  - apply HB.
  - apply HNum.
  - apply HS.
  - apply HA. induction items as [|x r IHr]; constructor; [apply IH | exact IHr].
  - apply HO. induction o as [|[k x] r IHr]; constructor;
      [apply IH | exact IHr].
Qed.

Lemma plain_arr (items : list value) :
  plain (VArr items) <-> Forall plain items.
Proof.
  cbn [plain]. induction items as [|x r IH]; split; intros H.
  - constructor.
  - exact I.
  - destruct H as [Hx Hr]. constructor; [exact Hx | now apply IH].
  - inversion H; subst. split; [assumption | now apply IH].
Qed.

Lemma plain_obj (o : props) :
  plain (VObj o)
  <-> own_order o
      /\ Forall (fun kv => clean (fst kv) = true /\ plain (snd kv)) o.
Proof.
  cbn [plain].
  assert (E : forall l : props,
             (fix all (l : props) : Prop :=
                match l with
                | [] => True
                | (k, x) :: r => clean k = true /\ plain x /\ all r
                end) l
             <-> Forall (fun kv => clean (fst kv) = true /\ plain (snd kv)) l).
  { induction l as [|[k x] r IH]; split; intros H.
    - constructor.
    - exact I.
    - destruct H as (Hk & Hx & Hr). constructor; [now split | now apply IH].
    - inversion H as [|? ? [Hk Hx] Hr]; subst.
      split; [exact Hk | split; [exact Hx | now apply IH]]. }
  now rewrite E.
Qed.

Lemma serialize_num (gap indent : string) (n : number) :
  plain_number n ->
  serialize gap indent (VNum n) = Some (number_to_string n).
Proof. intros [_ F]. cbn [serialize]. now rewrite F. Qed.

Lemma serialize_plain (gap indent : string) (v : value) :
  plain v -> exists t, serialize gap indent v = Some t.
Proof.
  destruct v as [ | | [|] | n | s | items | o]; cbn [plain];
    intros H; try contradiction;
    try (rewrite serialize_num by exact H);
    cbn [serialize]; try (eexists; reflexivity).
  - destruct items; eexists; reflexivity.
  - match goal with
    | |- context [match ?l with [] => _ | _ => _ end] => destruct l
    end; eexists; reflexivity.
Qed.

Lemma serialize_arr (gap indent : string) (items : list value) :
  serialize gap indent (VArr items)
  = match items with
    | [] => Some "[]"
    | _ => Some (wrap "[" "]" gap indent
                   (map (text_of gap (indent ++ gap)) items))
    end.
Proof.
  destruct items as [|x r]; reflexivity.
Qed.

Lemma serialize_obj (gap indent : string) (o : props) :
  Forall (fun kv => plain (snd kv)) o ->
  serialize gap indent (VObj o)
  = match o with
    | [] => Some "{}"
    | _ => Some (wrap "{" "}" gap indent
                   (map (member_text gap (indent ++ gap)) o))
    end.
Proof.
  intros H. cbn [serialize].
  assert (E : (fix members (l : list (string * value)) : list string :=
                 match l with
                 | [] => []
                 | (k, x) :: r =>
                     match serialize gap (indent ++ gap) x with
                     | Some t =>
                         (quote k ++ ":"
                          ++ match gap with EmptyString => "" | _ => " " end
                          ++ t) :: members r
                     | None => members r
                     end
                 end) o
              = map (member_text gap (indent ++ gap)) o).
  { induction H as [|[k x] r Hx Hr IH]; [reflexivity|].
    cbn [map]. rewrite IH. unfold member_text, text_of. cbn [fst snd] in *.
    destruct (serialize_plain gap (indent ++ gap) x Hx) as [t ->].
    reflexivity. }
  rewrite E. destruct o; reflexivity.
Qed.

Lemma wrap_shape (opening closing gap indent : string) (parts : list string) :
  wrap opening closing gap indent parts
  = opening ++ line_in gap indent
    ++ Str.join ("," ++ line_in gap indent) parts
    ++ line_out gap indent ++ closing.
Proof.
  unfold wrap, line_in, line_out. destruct gap as [|g gap'].
  - reflexivity.
  - now rewrite !append_assoc.
Qed.

End RoundTripValues.

(* ================================================================= *)
(** ** [JSON.parse] reads what [JSON.stringify] writes *)

Section RoundTripParse.

Local Open Scope list_scope.
Local Open Scope string_scope.

Ltac each_char c :=
  destruct c as [[|] [|] [|] [|] [|] [|] [|] [|]].

Lemma skip_ws_app (pre X : string) :
  all_space pre = true -> skip_ws (pre ++ X) = skip_ws X.
Proof.
  induction pre as [|c r IH]; [reflexivity|].
  cbn [all_space append skip_ws]. intros H.
  apply andb_prop in H as [Hc Hr]. rewrite Hc. now apply IH.
Qed.

Lemma starts_value_skip (X : string) :
  starts_value X = true -> skip_ws X = X.
Proof.
  destruct X as [|c r]; [discriminate|]. cbn [starts_value skip_ws].
  destruct (is_json_space c); [discriminate | reflexivity].
Qed.

Lemma starts_value_app (X Y : string) :
  starts_value X = true -> starts_value (X ++ Y) = true.
Proof. destruct X; [discriminate | exact (fun H => H)]. Qed.

Lemma starts_value_digit (c : ascii) (r : string) :
  is_digit c = true \/ c = "-"%char -> starts_value (String c r) = true.
Proof.
  intros [D | ->]; [|reflexivity].
  each_char c; try discriminate D; reflexivity.
Qed.

Lemma delimited_space (B X : string) :
  all_space B = true -> delimited X = true -> delimited (B ++ X) = true.
Proof.
  destruct B as [|b B']; [exact (fun _ H => H)|].
  cbn [all_space append delimited]. intros H _.
  apply andb_prop in H as [H _].
  each_char b; try discriminate H; reflexivity.
Qed.

Lemma all_space_app (a b : string) :
  all_space a = true -> all_space b = true -> all_space (a ++ b) = true.
Proof.
  induction a as [|c r IH]; [exact (fun _ H => H)|].
  cbn [all_space append]. intros H Hb.
  apply andb_prop in H as [Hc Hr]. now rewrite Hc, IH.
Qed.

Lemma join_cons (sep x : string) (r : list string) :
  r <> [] -> Str.join sep (x :: r) = x ++ sep ++ Str.join sep r.
Proof. destruct r; [contradiction | reflexivity]. Qed.

(** A value that starts with a digit or a sign is a number. *)
Lemma parse_value_number (c : ascii) (r s : string) (f : nat) :
  is_digit c = true \/ c = "-"%char ->
  skip_ws s = String c r ->
  parse_value (S f) s
  = match number_literal (String c r) with
    | Some (x, u) => Some (VNum x, u)
    | None => None
    end.
Proof.
  intros Hc E. cbn [parse_value]. rewrite E.
  destruct Hc as [D | ->]; [|reflexivity].
  each_char c; try discriminate D; reflexivity.
Qed.

(** After the opening bracket of an array that is not empty come its
    elements. *)
Lemma parse_value_array (f : nat) (pre X : string) (c : ascii) (u : string) :
  all_space pre = true ->
  skip_ws X = String c u -> Ascii.eqb c "]" = false ->
  parse_value (S f) (pre ++ "[" ++ X)
  = match parse_elements f X with
    | Some (l, u) => Some (VArr l, u)
    | None => None
    end.
Proof.
  intros Hp E Hc. cbn [parse_value]. rewrite (skip_ws_app pre _ Hp).
  change ("[" ++ X) with (String "[" X).
  change (skip_ws (String "[" X)) with (String "[" X).
  cbv beta iota zeta.
  change (N_of_ascii "[" =? 34)%N with false.
  change (N_of_ascii "[" =? 91)%N with true.
  cbv iota. rewrite E.
  each_char c; try discriminate Hc; reflexivity.
Qed.

Lemma parse_value_object (f : nat) (pre X : string) (c : ascii) (u : string) :
  all_space pre = true ->
  skip_ws X = String c u -> Ascii.eqb c "}" = false ->
  parse_value (S f) (pre ++ "{" ++ X)
  = match parse_members f X [] with
    | Some (o, u) => Some (VObj o, u)
    | None => None
    end.
Proof.
  intros Hp E Hc. cbn [parse_value]. rewrite (skip_ws_app pre _ Hp).
  change ("{" ++ X) with (String "{" X).
  change (skip_ws (String "{" X)) with (String "{" X).
  cbv beta iota zeta.
  change (N_of_ascii "{" =? 34)%N with false.
  change (N_of_ascii "{" =? 91)%N with false.
  change (N_of_ascii "{" =? 123)%N with true.
  cbv iota. rewrite E.
  each_char c; try discriminate Hc; reflexivity.
Qed.

(** The text of a plain value starts as a value does. *)
Lemma serialize_head (gap indent t : string) (v : value) :
  plain v -> serialize gap indent v = Some t -> starts_value t = true.
Proof.
  destruct v as [ | | [|] | n | s | items | o]; intros P S.
  - contradiction.
  - now inversion S.
  - now inversion S.
  - now inversion S.
  - rewrite (serialize_num gap indent n P) in S. inversion S; subst t.
    destruct (number_to_string_head n P) as (c & r & -> & Hc).
    now apply starts_value_digit.
  - now inversion S.
  - rewrite serialize_arr in S. destruct items; inversion S; [reflexivity|].
    now rewrite wrap_shape.
  - apply plain_obj in P as [_ P].
    rewrite serialize_obj in S
      by (eapply Forall_impl; [|exact P]; now intros kv [_ H]).
    destruct o; inversion S; [reflexivity|]. now rewrite wrap_shape.
Qed.

Lemma text_of_plain (gap indent : string) (x : value) :
  plain x -> serialize gap indent x = Some (text_of gap indent x).
Proof.
  intros P. unfold text_of.
  now destruct (serialize_plain gap indent x P) as [t ->].
Qed.

Section Items.

Variable gap : string.
Hypothesis gap_space : all_space gap = true.
Variable indent : string.
Hypothesis indent_space : all_space indent = true.
Variables A B : string.
Hypothesis A_space : all_space A = true.
Hypothesis B_space : all_space B = true.

(** The elements of an array, up to its closing bracket. *)
Lemma parse_elements_texts (items : list value) :
  Forall (reads gap) items -> Forall plain items -> items <> [] ->
  forall fuel pre rest,
    all_space pre = true ->
    String.length (Str.join ("," ++ A) (map (text_of gap indent) items))
    < fuel ->
    parse_elements fuel
      (pre ++ Str.join ("," ++ A) (map (text_of gap indent) items)
       ++ B ++ "]" ++ rest)
    = Some (items, rest).
Proof.
  induction items as [|x r IH]; intros HR HP NE fuel pre rest Hpre L;
    [contradiction|].
  inversion HR as [|? ? Rx Rr]; subst.
  inversion HP as [|? ? Px Pr]; subst.
  destruct fuel as [|f]; [lia|].
  pose proof (text_of_plain gap indent x Px) as Sx.
  cbn [parse_elements]. cbn [map] in L |- *.
  destruct r as [|y r'].
  - cbn [map Str.join] in *.
    rewrite (Rx indent _ pre (B ++ "]" ++ rest) f Px indent_space Hpre Sx)
      by (try apply delimited_space; auto; lia).
    rewrite (skip_ws_app B _ B_space). reflexivity.
  - rewrite join_cons in L |- * by discriminate.
    rewrite !length_app in L.
    rewrite !append_assoc.
    rewrite (Rx indent _ pre
               ("," ++ A ++ Str.join ("," ++ A)
                               (map (text_of gap indent) (y :: r'))
                ++ B ++ "]" ++ rest) f Px indent_space Hpre Sx)
      by (try reflexivity; lia).
    change (skip_ws ("," ++ ?X)) with (String "," X).
    cbv iota.
    rewrite (IH Rr Pr ltac:(discriminate) f A rest A_space)
      by (cbn [String.length] in L; lia).
    reflexivity.
Qed.

Lemma space_after_colon_space : all_space (space_after_colon gap) = true.
Proof. destruct gap; reflexivity. Qed.

(** The properties of an object, up to its closing bracket. *)
Lemma parse_members_texts (o : props) :
  Forall (fun kv => reads gap (snd kv)) o ->
  Forall (fun kv => clean (fst kv) = true /\ plain (snd kv)) o ->
  o <> [] ->
  forall fuel pre rest acc,
    all_space pre = true ->
    String.length (Str.join ("," ++ A) (map (member_text gap indent) o))
    < fuel ->
    parse_members fuel
      (pre ++ Str.join ("," ++ A) (map (member_text gap indent) o)
       ++ B ++ "}" ++ rest) acc
    = Some (define_all o acc, rest).
Proof.
  induction o as [|[k x] r IH]; intros HR HP NE fuel pre rest acc Hpre L;
    [contradiction|].
  inversion HR as [|? ? Rx Rr]; subst.
  inversion HP as [|? ? [Ck Px] Pr]; subst.
  cbn [fst snd] in Rx, Ck, Px.
  destruct fuel as [|f]; [lia|].
  pose proof (text_of_plain gap indent x Px) as Sx.
  pose proof space_after_colon_space as Sc.
  cbn [parse_members]. cbn [map] in L |- *.
  assert (Head : forall X fuel',
             String.length (text_of gap indent x) <= f ->
             delimited X = true ->
             match skip_ws (pre ++ member_text gap indent (k, x) ++ X) with
             | String q r0 =>
                 if (N_of_ascii q =? 34)%N then
                   match string_literal r0 with
                   | Some (k0, r1) =>
                       match skip_ws r1 with
                       | String ":" r2 =>
                           match parse_value f r2 with
                           | Some (v, r3) =>
                               match skip_ws r3 with
                               | String "," u =>
                                   parse_members fuel' u
                                     (obj_define acc k0 v)
                               | String "}" u =>
                                   Some (obj_define acc k0 v, u)
                               | _ => None
                               end
                           | None => None
                           end
                       | _ => None
                       end
                   | None => None
                   end
                 else None
             | EmptyString => None
             end
             = match skip_ws X with
               | String "," u => parse_members fuel' u (obj_define acc k x)
               | String "}" u => Some (obj_define acc k x, u)
               | _ => None
               end).
  { intros X fuel' Lx DX.
    unfold member_text, quote. cbn [fst snd]. rewrite !append_assoc.
    rewrite (skip_ws_app pre _ Hpre).
    change (skip_ws (Str.dquote ++ ?Y)) with (String Str.dquote_char Y).
    cbv beta iota.
    change (N_of_ascii Str.dquote_char =? 34)%N with true. cbv iota.
    rewrite (string_literal_quote k _ Ck).
    change (skip_ws (":" ++ ?Y)) with (String ":" Y). cbv iota.
    rewrite (Rx indent _ (space_after_colon gap) X f Px indent_space Sc Sx DX Lx).
    reflexivity. }
  destruct r as [|[k2 x2] r'].
  - cbn [map Str.join] in *.
    unfold member_text at 1 in L. rewrite !length_app in L.
    cbn [fst snd String.length] in L.
    rewrite (Head (B ++ "}" ++ rest) f) by
      (try apply delimited_space; auto; lia).
    rewrite (skip_ws_app B _ B_space). reflexivity.
  - rewrite join_cons in L |- * by discriminate.
    unfold member_text at 1 in L. rewrite !length_app in L.
    cbn [fst snd String.length] in L.
    rewrite !append_assoc.
    rewrite (Head ("," ++ A ++ Str.join ("," ++ A)
                               (map (member_text gap indent)
                                  ((k2, x2) :: r'))
                   ++ B ++ "}" ++ rest) f)
      by (try reflexivity; lia).
    change (skip_ws ("," ++ ?X)) with (String "," X).
    cbv iota.
    rewrite (IH Rr Pr ltac:(discriminate) f A rest (obj_define acc k x) A_space)
      by (cbn [String.length] in L; lia).
    reflexivity.
Qed.

End Items.

Lemma line_in_space (gap indent : string) :
  all_space gap = true -> all_space indent = true ->
  all_space (line_in gap indent) = true.
Proof.
  intros G I. unfold line_in. destruct gap as [|g gap']; [reflexivity|].
  change (nl ++ indent ++ String g gap')
    with (String (ascii_of_nat 10) (indent ++ String g gap')).
  cbn [all_space]. now rewrite all_space_app.
Qed.

Lemma line_out_space (gap indent : string) :
  all_space indent = true -> all_space (line_out gap indent) = true.
Proof.
  intros I. unfold line_out. destruct gap as [|g gap']; [reflexivity|].
  change (nl ++ indent) with (String (ascii_of_nat 10) indent).
  cbn [all_space]. now rewrite I.
Qed.

(** [JSON.parse] reads the text of every plain value back. *)
Lemma serialize_reads (gap : string) :
  all_space gap = true -> forall v, reads gap v.
Proof.
  intros G v. induction v as [ | | b | n | s | items IH | o IH] using value_ind';
    intros indent t pre rest fuel P I Hpre S R F.
  - contradiction.
  - inversion S; subst t. destruct fuel as [|f]; [cbn in F; lia|].
    cbn [parse_value]. rewrite (skip_ws_app pre _ Hpre). reflexivity.
  - destruct fuel as [|f]; [destruct b; inversion S; subst t; cbn in F; lia|].
    cbn [parse_value]. rewrite (skip_ws_app pre _ Hpre).
    destruct b; inversion S; subst t; reflexivity.
  - rewrite (serialize_num gap indent n P) in S. inversion S; subst t.
    cbn [plain] in P.
    destruct (number_to_string_head n P) as (c & r & E & Hc).
    destruct fuel as [|f]; [rewrite E in F; cbn in F; lia|].
    rewrite (parse_value_number c (r ++ rest) _ f Hc).
    + change (String c (r ++ rest)) with (String c r ++ rest).
      rewrite <- E. now rewrite number_literal_to_string.
    + rewrite (skip_ws_app pre _ Hpre), E.
      apply starts_value_skip. now apply starts_value_digit.
  - cbn [serialize] in S. inversion S; subst t. cbn [plain] in P.
    destruct fuel as [|f]; [cbn in F; lia|].
    cbn [parse_value]. rewrite (skip_ws_app pre _ Hpre).
    unfold quote. rewrite !append_assoc.
    change (skip_ws (Str.dquote ++ ?Y)) with (String Str.dquote_char Y).
    cbv beta iota zeta.
    change (N_of_ascii Str.dquote_char =? 34)%N with true. cbv iota.
    now rewrite (string_literal_quote s _ P).
  - apply plain_arr in P. rewrite serialize_arr in S.
    destruct items as [|x r].
    + inversion S; subst t. destruct fuel as [|f]; [cbn in F; lia|].
      cbn [parse_value]. rewrite (skip_ws_app pre _ Hpre). reflexivity.
    + inversion S; subst t. clear S. rewrite wrap_shape in F |- *.
      rewrite !length_app in F. cbn [String.length] in F.
      destruct fuel as [|f]; [lia|].
      pose proof (line_in_space gap indent G I) as SA.
      pose proof (line_out_space gap indent I) as SB.
      assert (I' : all_space (indent ++ gap) = true)
        by now apply all_space_app.
      inversion P as [|? ? Px Pr]; subst.
      pose proof (serialize_head gap (indent ++ gap) _ x Px
                    (text_of_plain gap (indent ++ gap) x Px)) as Hd.
      change (text_of gap (indent ++ gap) x
              :: map (text_of gap (indent ++ gap)) r)
        with (map (text_of gap (indent ++ gap)) (x :: r)) in *.
      set (J := Str.join ("," ++ line_in gap indent)
                  (map (text_of gap (indent ++ gap)) (x :: r))) in *.
      assert (HJ : starts_value J = true).
      { unfold J. cbn [map]. destruct r as [|y r'].
        - exact Hd.
        - rewrite join_cons by discriminate. now apply starts_value_app. }
      rewrite !append_assoc.
      destruct (J ++ line_out gap indent ++ "]" ++ rest) as [|c u] eqn:EJ.
      { destruct J; discriminate. }
      assert (Hc : is_json_space c = false /\ Ascii.eqb c "]" = false).
      { destruct J as [|c' J']; [discriminate|].
        cbn [append] in EJ. injection EJ as -> _.
        cbn [starts_value] in HJ.
        destruct (is_json_space c); [discriminate|].
        destruct (Ascii.eqb c "]"); [discriminate|]. now split. }
      destruct Hc as [Hc1 Hc2].
      rewrite <- EJ.
      rewrite (parse_value_array f pre _ c u Hpre); [| |exact Hc2].
      * unfold J.
        rewrite (parse_elements_texts gap (indent ++ gap) I'
                   (line_in gap indent) (line_out gap indent) SA SB
                   (x :: r) IH P ltac:(discriminate) f
                   (line_in gap indent) rest SA)
          by (fold J; lia).
        reflexivity.
      * rewrite (skip_ws_app _ _ SA), EJ. cbn [skip_ws]. now rewrite Hc1.
  - apply plain_obj in P as [OO P].
    assert (P' : Forall (fun kv => plain (snd kv)) o).
    { eapply Forall_impl; [|exact P]. now intros kv [_ H]. }
    rewrite (serialize_obj gap indent o P') in S.
    destruct o as [|[k x] r].
    + inversion S; subst t. destruct fuel as [|f]; [cbn in F; lia|].
      cbn [parse_value]. rewrite (skip_ws_app pre _ Hpre). reflexivity.
    + inversion S; subst t. clear S. rewrite wrap_shape in F |- *.
      rewrite !length_app in F. cbn [String.length] in F.
      destruct fuel as [|f]; [lia|].
      pose proof (line_in_space gap indent G I) as SA.
      pose proof (line_out_space gap indent I) as SB.
      assert (I' : all_space (indent ++ gap) = true)
        by now apply all_space_app.
      change (member_text gap (indent ++ gap) (k, x)
              :: map (member_text gap (indent ++ gap)) r)
        with (map (member_text gap (indent ++ gap)) ((k, x) :: r)) in *.
      set (J := Str.join ("," ++ line_in gap indent)
                  (map (member_text gap (indent ++ gap)) ((k, x) :: r)))
        in *.
      assert (EJ : exists u, J = String Str.dquote_char u).
      { unfold J. cbn [map]. destruct r as [|y r'].
        - cbn [Str.join]. unfold member_text, quote.
          rewrite !append_assoc. eexists. reflexivity.
        - rewrite join_cons by discriminate. unfold member_text at 1, quote.
          rewrite !append_assoc. eexists. reflexivity. }
      destruct EJ as [u EJ].
      rewrite !append_assoc.
      rewrite (parse_value_object f pre _ Str.dquote_char
                 (u ++ line_out gap indent ++ "}" ++ rest) Hpre);
        [| |reflexivity].
      * unfold J.
        rewrite (parse_members_texts gap G (indent ++ gap) I'
                   (line_in gap indent) (line_out gap indent) SA SB
                   ((k, x) :: r) IH P ltac:(discriminate) f
                   (line_in gap indent) rest [] SA)
          by (fold J; lia).
        unfold define_all. now rewrite OO.
      * rewrite (skip_ws_app _ _ SA), EJ. reflexivity.
Qed.

End RoundTripParse.

(* ================================================================= *)
(** ** The file writer *)

Section WriterFacts.

Local Open Scope list_scope.
Local Open Scope string_scope.

Ltac each_char c :=
  destruct c as [[|] [|] [|] [|] [|] [|] [|] [|]].

(** [JSON.parse] gives back what [JSON.stringify] was given. *)
Lemma JSON_round_trip (v : value) (gap : string) :
  plain v -> all_space gap = true ->
  exists text, JSON_stringify v gap = VStr text
               /\ JSON_parse text = Normal v.
Proof.
  intros P G. unfold JSON_stringify.
  destruct (serialize_plain gap "" v P) as [t S]. rewrite S.
  exists t. split; [reflexivity|]. unfold JSON_parse.
  pose proof (serialize_reads gap G v "" t "" ""
                (2 * String.length t + 2) P eq_refl eq_refl S eq_refl
                ltac:(lia)) as R.
  cbn [append] in R. rewrite append_nil in R. now rewrite R.
Qed.

Lemma stringify_undefined (v : value) (gap : string) :
  JSON_stringify v gap = VUndef <-> v = VUndef.
Proof.
  unfold JSON_stringify. split.
  - destruct v as [ | | [|] | n | s | items | o]; cbn [serialize];
      try discriminate; try reflexivity.
    + destruct (is_infinite n); discriminate.
    + destruct items; discriminate.
    + match goal with
      | |- context [match ?l with [] => _ | _ => _ end] => destruct l
      end; discriminate.
  - now intros ->.
Qed.

Lemma stringify_string (v : value) (gap : string) :
  v <> VUndef -> exists text, JSON_stringify v gap = VStr text.
Proof.
  intros N. pose proof (stringify_undefined v gap) as U.
  unfold JSON_stringify in *.
  destruct (serialize gap "" v) as [t|]; [now exists t|].
  exfalso. apply N. now apply U.
Qed.

Lemma gap_of_space (beautify : value) : all_space (gap_of beautify) = true.
Proof. unfold gap_of. now destruct (truthy beautify). Qed.

Lemma saveJsonFile_unfold (localPath : string) (jsObj beautify : value) :
  saveJsonFile localPath jsObj beautify
  = writeFileSync localPath (JSON_stringify jsObj (gap_of beautify)).
Proof. unfold saveJsonFile, gap_of. now destruct (truthy beautify). Qed.

(** *** One line or several *)

Lemma one_line_app (a b : string) :
  one_line (a ++ b) = one_line a && one_line b.
Proof.
  induction a as [|c r IH]; [reflexivity|].
  cbn [append one_line]. now rewrite IH, andb_assoc.
Qed.

Lemma one_line_escape (c : ascii) : one_line (escape c) = true.
Proof. each_char c; reflexivity. Qed.

Lemma one_line_quote (s : string) : clean s = true -> one_line (quote s) = true.
Proof.
  intros C. unfold quote. rewrite (quote_body_clean s C), !one_line_app.
  assert (E : one_line (escape_all s) = true).
  { clear C. induction s as [|c r IH]; [reflexivity|].
    cbn [escape_all]. now rewrite one_line_app, one_line_escape, IH. }
  now rewrite E.
Qed.

Lemma one_line_digits (s : string) : all_digits s = true -> one_line s = true.
Proof.
  induction s as [|c r IH]; [reflexivity|]. cbn [all_digits one_line].
  intros H. apply andb_prop in H as [Hc Hr]. rewrite (IH Hr).
  each_char c; try discriminate Hc; reflexivity.
Qed.

Lemma one_line_number (x : number) :
  plain_number x -> one_line (number_to_string x) = true.
Proof.
  intros N.
  destruct (number_to_string_parts x N)
    as (neg & c & ip' & fp & ex & Dc & Di & _ & Df & De & -> & _).
  assert (Hip : one_line (String c ip') = true).
  { apply one_line_digits. cbn [all_digits]. now rewrite Dc, Di. }
  assert (Hfp : one_line (frac_text fp) = true).
  { destruct fp as [|f fp']; [reflexivity|].
    change (frac_text (String f fp')) with ("." ++ String f fp').
    rewrite one_line_app. now rewrite (one_line_digits _ Df). }
  assert (Hex : one_line (exp_text ex) = true).
  { destruct ex as [[eneg ed]|]; [|reflexivity]. destruct De as [De _].
    cbn [exp_text]. rewrite !one_line_app, (one_line_digits _ De).
    now destruct eneg. }
  unfold number_text. rewrite !one_line_app, Hip, Hfp, Hex.
  now destruct neg.
Qed.

Lemma one_line_join (parts : list string) :
  Forall (fun t => one_line t = true) parts ->
  one_line (Str.join "," parts) = true.
Proof.
  induction 1 as [|t r Ht Hr IH]; [reflexivity|].
  destruct r as [|t' r']; [exact Ht|].
  rewrite join_cons by discriminate.
  now rewrite !one_line_app, Ht, IH.
Qed.

Lemma some_eq {A : Type} (a b : A) : Some a = Some b -> a = b.
Proof. intros H. now inversion H. Qed.

Lemma wrap_compact (opening closing indent : string) (parts : list string) :
  wrap opening closing "" indent parts
  = opening ++ Str.join "," parts ++ closing.
Proof. reflexivity. Qed.

(** Without a gap the text of a plain value is one line. *)
Lemma serialize_one_line (v : value) :
  forall indent t,
    plain v -> serialize "" indent v = Some t -> one_line t = true.
Proof.
  induction v as [ | | b | n | s | items IH | o IH] using value_ind';
    intros indent t P S.
  - contradiction.
  - now inversion S.
  - destruct b; now inversion S.
  - rewrite (serialize_num "" indent n P) in S. inversion S.
    now apply one_line_number.
  - inversion S. now apply one_line_quote.
  - apply plain_arr in P. rewrite serialize_arr in S.
    destruct items as [|x r]; [now inversion S|].
    apply some_eq in S. subst t. rewrite wrap_compact.
    rewrite !one_line_app, one_line_join; [reflexivity|].
    apply Forall_map.
    induction IH as [|y l Hy Hl IHl]; [constructor|].
    inversion P; subst. constructor; [|now apply IHl].
    eapply Hy; [eassumption|]. now apply text_of_plain.
  - apply plain_obj in P as [_ P].
    assert (P' : Forall (fun kv => plain (snd kv)) o).
    { eapply Forall_impl; [|exact P]. now intros kv [_ H]. }
    rewrite (serialize_obj "" indent o P') in S.
    destruct o as [|[k x] r]; [now inversion S|].
    apply some_eq in S. subst t. rewrite wrap_compact.
    rewrite !one_line_app, one_line_join; [reflexivity|].
    apply Forall_map. clear P'.
    induction IH as [|[k' y] l Hy Hl IHl]; [constructor|].
    inversion P as [|? ? [Ck Py] Pl]; subst.
    constructor; [|now apply IHl].
    unfold member_text. cbn [fst snd space_after_colon] in *.
    rewrite !one_line_app, (one_line_quote k' Ck).
    rewrite (Hy _ _ Py (text_of_plain "" (indent ++ "") y Py)).
    reflexivity.
Qed.

(** With a gap only what is empty or not nested stays on one line. *)
Lemma serialize_lines (gap indent t : string) (v : value) :
  plain v -> all_space gap = true ->
  serialize gap indent v = Some t ->
  one_line t = negb (nested v && negb (String.eqb gap "")).
Proof.
  intros P G S. destruct gap as [|g gap'].
  - rewrite andb_false_r. now apply (serialize_one_line v indent).
  - change (String.eqb (String g gap') "") with false.
    cbn [negb]. rewrite andb_true_r.
    destruct v as [ | | [|] | n | s | [|x r] | [|[k x] r]];
      try (cbn [nested negb];
           match type of P with
           | plain ?v => apply (serialize_one_line v indent)
           end; [exact P|]; rewrite <- S; reflexivity).
    + rewrite serialize_arr in S. inversion S. reflexivity.
    + apply plain_obj in P as [_ P].
      rewrite serialize_obj in S
        by (eapply Forall_impl; [|exact P]; now intros kv [_ H]).
      inversion S. reflexivity.
Qed.

Lemma written_files (path content : string) (w : World) :
  files (written path content w) path = File content
  /\ (forall p, p <> path -> files (written path content w) p = files w p).
Proof.
  unfold written. cbn [files]. split.
  - now rewrite String.eqb_refl.
  - intros p Hp. destruct (String.eqb_spec p path); [contradiction|reflexivity].
Qed.

Lemma writeFileSync_string (path content : string) (w : World) :
  files w path <> Directory ->
  writeFileSync path (VStr content) w = (Normal tt, written path content w).
Proof.
  intros D. unfold writeFileSync.
  destruct (files w path); [reflexivity | reflexivity | contradiction].
Qed.

Variables (localPath : string) (jsObj beautify : value) (w : World).

(** X10.  [saveJsonFile] of a plain value to a path that is no
    directory returns; the file then holds a text that [JSON.parse]
    reads back as the value, with and without [beautify]; no other
    file changes, nothing is run and nothing is logged. *)
Theorem saveJsonFile_round_trip :
  plain jsObj -> files w localPath <> Directory ->
  exists text w',
    saveJsonFile localPath jsObj beautify w = (Normal tt, w')
    /\ files w' localPath = File text
    /\ JSON_parse text = Normal jsObj
    /\ (forall p, p <> localPath -> files w' p = files w p)
    /\ run w' = run w /\ trace w' = trace w.
Proof.
  intros P D.
  destruct (JSON_round_trip jsObj (gap_of beautify) P (gap_of_space beautify))
    as (text & E & R).
  exists text, (written localPath text w).
  rewrite saveJsonFile_unfold, E, (writeFileSync_string _ _ _ D).
  destruct (written_files localPath text w) as [F1 F2].
  split; [reflexivity|]. split; [exact F1|]. split; [exact R|].
  split; [exact F2|]. split; reflexivity.
Qed.

(** X15.  [saveJsonFile] returns unless the value is [undefined],
    for which [JSON.stringify] gives no text and the write raises a
    [TypeError], or the path is a directory, where the write raises
    an [Error]; when it raises, no file has changed. *)
Theorem saveJsonFile_failures :
  (fst (saveJsonFile localPath jsObj beautify w) = Normal tt
   <-> jsObj <> VUndef /\ files w localPath <> Directory)
  /\ (jsObj = VUndef ->
      exists msg, saveJsonFile localPath jsObj beautify w
                  = (Throw (Exn TypeError msg), w))
  /\ (jsObj <> VUndef -> files w localPath = Directory ->
      exists msg, saveJsonFile localPath jsObj beautify w
                  = (Throw (Exn Error msg), w)).
Proof.
  rewrite saveJsonFile_unfold.
  pose proof (stringify_undefined jsObj (gap_of beautify)) as U.
  split; [split|split].
  - intros H. split.
    + intros E. apply U in E. rewrite E in H. discriminate H.
    + intros D. unfold writeFileSync in H. rewrite D in H.
      destruct (JSON_stringify jsObj (gap_of beautify)); discriminate H.
  - intros [N D].
    destruct (stringify_string jsObj (gap_of beautify) N) as [text ->].
    now rewrite (writeFileSync_string _ _ _ D).
  - intros E. apply U in E. rewrite E. eexists. reflexivity.
  - intros N D.
    destruct (stringify_string jsObj (gap_of beautify) N) as [text ->].
    unfold writeFileSync. rewrite D. eexists. reflexivity.
Qed.

(** X16.  The layout of the file: without [beautify] the text of a
    plain value is on one line; with it, the text takes several lines
    exactly when the value is an array or an object that holds
    something. *)
Theorem saveJsonFile_layout :
  plain jsObj -> files w localPath <> Directory ->
  exists text,
    files (snd (saveJsonFile localPath jsObj beautify w)) localPath
    = File text
    /\ one_line text = negb (truthy beautify && nested jsObj).
Proof.
  intros P D. rewrite saveJsonFile_unfold.
  destruct (serialize_plain (gap_of beautify) "" jsObj P) as [text S].
  pose proof (serialize_lines _ _ _ _ P (gap_of_space beautify) S) as L.
  unfold JSON_stringify. rewrite S. exists text.
  rewrite (writeFileSync_string _ _ _ D). cbn [snd].
  split; [apply written_files|]. rewrite L. unfold gap_of.
  destruct (truthy beautify); cbn; now rewrite ?andb_true_r, ?andb_false_r.
Qed.

(** X17.  [provideMCDevCredentials] logs one message at level info
    and then writes the credentials, indented by four spaces, to
    [.mcdev-auth.json]: for plain credentials the file reads back as
    the credentials. *)
Theorem provideMCDevCredentials_effect (credentials : value) :
  plain credentials -> files w auth_file <> Directory ->
  exists text w',
    provideMCDevCredentials credentials w = (Normal tt, w')
    /\ trace w' = (trace w ++ [Logged info "Provide authentication"])%list
    /\ JSON_stringify credentials "    " = VStr text
    /\ files w' auth_file = File text
    /\ JSON_parse text = Normal credentials
    /\ (forall p, p <> auth_file -> files w' p = files w p)
    /\ run w' = run w.
Proof.
  intros P D.
  destruct (JSON_round_trip credentials "    " P eq_refl) as (text & E & R).
  set (w1 := emit (Logged info "Provide authentication") w).
  exists text, (written auth_file text w1).
  assert (D1 : files w1 auth_file <> Directory) by exact D.
  destruct (written_files auth_file text w1) as [F1 F2].
  split.
  - unfold provideMCDevCredentials, bind, Log. fold w1.
    rewrite saveJsonFile_unfold.
    change (gap_of (VBool true)) with "    ". rewrite E.
    now rewrite (writeFileSync_string _ _ _ D1).
  - split; [reflexivity|]. split; [exact E|]. split; [exact F1|].
    split; [exact R|]. split; [exact F2 | reflexivity].
Qed.

End WriterFacts.

Lemma sample_credentials_plain : plain sample_credentials.
Proof.
  unfold sample_credentials. cbn [plain]. unfold plain_number.
  repeat match goal with |- _ /\ _ => split end;
    (vm_compute; reflexivity) || exact I.
Qed.

Lemma saveJsonFile_round_trip_witness :
  exists text w',
    saveJsonFile "out.json" sample_credentials (VBool false)
      Sample.empty_world = (Normal tt, w')
    /\ files w' "out.json" = File text
    /\ JSON_parse text = Normal sample_credentials
    /\ (forall p, p <> "out.json" ->
                  files w' p = files Sample.empty_world p)
    /\ run w' = run Sample.empty_world
    /\ trace w' = trace Sample.empty_world.
Proof.
  apply saveJsonFile_round_trip;
    [exact sample_credentials_plain | discriminate].
Defined.

Lemma saveJsonFile_layout_witness :
  exists text,
    files (snd (saveJsonFile "out.json" sample_credentials (VBool true)
                  Sample.empty_world)) "out.json"
    = File text
    /\ one_line text = negb (truthy (VBool true) && nested sample_credentials).
Proof.
  apply saveJsonFile_layout;
    [exact sample_credentials_plain | discriminate].
Defined.

Lemma provideMCDevCredentials_effect_witness :
  exists text w',
    provideMCDevCredentials sample_credentials Sample.empty_world
    = (Normal tt, w')
    /\ trace w' = (trace Sample.empty_world
                   ++ [Logged info "Provide authentication"])%list
    /\ JSON_stringify sample_credentials "    " = VStr text
    /\ files w' auth_file = File text
    /\ JSON_parse text = Normal sample_credentials
    /\ (forall p, p <> auth_file ->
                  files w' p = files Sample.empty_world p)
    /\ run w' = run Sample.empty_world.
Proof.
  apply provideMCDevCredentials_effect;
    [exact sample_credentials_plain | discriminate].
Defined.

(* ================================================================= *)
(** ** Pushing a branch *)

Section PushFacts.

Local Open Scope list_scope.
Local Open Scope string_scope.

Variables (destinationBranch : string) (w : World).

Local Abbreviation git_push :=
  ("git push origin " ++ Str.quoted destinationBranch).

(** X18.  [push] announces the push at level progress and hands one
    command line to the shell, [git push origin] followed by the name
    of the branch between double quotes, taken as it is; it returns
    exactly when that line exits with code 0, and only then reports
    the push as completed; nothing is logged at level error. *)
Theorem push_outcome :
  exists r es,
    push destinationBranch w = (r, after w es)
    /\ commands es = [git_push]
    /\ messages progress es
       = ["Pushing updates to " ++ destinationBranch ++ " branch"]
    /\ messages error es = []
    /\ (r = Normal tt <-> run w git_push = Exited 0)
    /\ messages debug es
       = ("⚡ " ++ git_push)
         :: match r with
            | Normal _ => ["✔️  Completed pushing branch"]
            | Throw _ => []
            end.
Proof.
  unfold push. rewrite execCommand_unfold.
  unfold execSync, when_given, Log, ret, announced.
  change (command_line (Lines [git_push])) with git_push.
  cbn [run after].
  destruct (run w git_push) as [code| | |] eqn:R;
    [destruct (Z.eqb_spec code 0) as [->|N]|..];
    unfold emit, after; cbn [files run trace fst snd];
    rewrite <- ?app_assoc; cbn [app];
    eexists; eexists; (split; [reflexivity|]);
    cbn [commands messages logged_at];
    (split; [reflexivity|]); (split; [reflexivity|]);
    (split; [reflexivity|]); (split; [|reflexivity]);
    split; try discriminate; try reflexivity.
  intros H. inversion H. contradiction.
Qed.

End PushFacts.
